(** * kubedog: stateful set completeness and the multitrack failure state machine

    A shallow embedding of

    - [pkg/tracker/statefulset/rollout_status.go] ([StatefulSetComplete],
      [StatefulSetRolloutStatus]), and
    - [pkg/trackers/rollout/multitrack/multitrack.go] ([setDefaultSpecValues],
      [handleResourceFailure], [handleResourceReadyCondition],
      [isTrackingAnyNonFailedResource], [hasFailedTrackingResources],
      [formatFailedTrackingResourcesError], [PrintStatusReport],
      [displayContainerLogChunk], and the registration, the [select] loop
      and the completion step of [Multitrack]),

    followed by the properties proved about them.

    Go maps are [gmap]s with string keys; a nil-able pointer to a scalar is an
    [option]; Go's fixed-width integers are [Z] with the wrap-around of the
    arithmetic written out; a run-time panic is an explicit outcome. *)

From Stdlib Require Import ZArith Lia Ascii.
From Stdlib Require String.
From stdpp Require Import base decidable option list strings pretty gmap fin_maps.

Local Open Scope Z_scope.

(* ===================================================================== *)
(** ** Machine integers *)
(* ===================================================================== *)

Module GoInt.

(** Two's-complement wrap-around of a [w]-bit signed integer. *)
Definition wrap (w : Z) (x : Z) : Z :=
  (x + 2 ^ (w - 1)) mod 2 ^ w - 2 ^ (w - 1).

Definition min_signed (w : Z) : Z := - 2 ^ (w - 1).
Definition max_signed (w : Z) : Z := 2 ^ (w - 1) - 1.

Definition in_range (w : Z) (x : Z) : Prop :=
  min_signed w <= x <= max_signed w.

(** [int32]: replica counters and the partition. *)
Definition sub32 (a b : Z) : Z := wrap 32 (a - b).

(** [int]: 64 bits on the platforms the program is built for. *)
Definition int_size : Z := 64.
Definition max_int : Z := max_signed int_size.
Definition min_int : Z := min_signed int_size.
Definition incr (x : Z) : Z := wrap int_size (x + 1).

End GoInt.

(* ===================================================================== *)
(** ** pkg/tracker/statefulset *)
(* ===================================================================== *)

Module Statefulset.

(** [appsv1.StatefulSetUpdateStrategyType] is a string type. *)
Definition OnDeleteStatefulSetStrategyType : string := "OnDelete".
Definition RollingUpdateStatefulSetStrategyType : string := "RollingUpdate".

(** [appsv1.RollingUpdateStatefulSetStrategy]: [Partition *int32]. *)
Record RollingUpdateStatefulSetStrategy := {
  Partition : option Z
}.

(** [appsv1.StatefulSetUpdateStrategy]. *)
Record StatefulSetUpdateStrategy := {
  Type_ : string;
  RollingUpdate : option RollingUpdateStatefulSetStrategy
}.

(** [appsv1.StatefulSetSpec], the fields the predicate reads. *)
Record StatefulSetSpec := {
  Replicas : option Z;
  UpdateStrategy : StatefulSetUpdateStrategy
}.

(** [appsv1.StatefulSetStatus], the fields the predicate reads. *)
Record StatefulSetStatus := {
  ObservedGeneration : Z;
  StatusReplicas : Z;
  ReadyReplicas : Z;
  CurrentReplicas : Z;
  UpdatedReplicas : Z;
  CurrentRevision : string;
  UpdateRevision : string
}.

(** [appsv1.StatefulSet]. *)
Record StatefulSet := {
  Generation : Z;
  Spec : StatefulSetSpec;
  Status : StatefulSetStatus
}.

(** The partition the rolling-update branch works with: zero unless both the
    replica count and the partition are set. *)
Definition partition_of (sts : StatefulSet) : Z :=
  match RollingUpdate (UpdateStrategy (Spec sts)) with
  | Some ru =>
      match Replicas (Spec sts), Partition ru with
      | Some _, Some p => p
      | _, _ => 0
      end
  | None => 0
  end.

(** The "desired == observed == ready" guard, read as "return false". *)
Definition replicas_mismatch (sts : StatefulSet) : bool :=
  match Replicas (Spec sts) with
  | Some r =>
      negb (r =? StatusReplicas (Status sts))
      || negb (r =? ReadyReplicas (Status sts))
  | None => false
  end.

Definition StatefulSetComplete (sts : StatefulSet) : bool :=
  if (ObservedGeneration (Status sts) =? 0)
     || negb (Generation sts =? ObservedGeneration (Status sts))
  then false
  else if replicas_mismatch sts then false
  else if String.eqb (Type_ (UpdateStrategy (Spec sts)))
                     OnDeleteStatefulSetStrategyType
  then true
  else if String.eqb (Type_ (UpdateStrategy (Spec sts)))
                     RollingUpdateStatefulSetStrategyType
  then
    let partition := partition_of sts in
    if partition =? 0 then
      if negb (String.eqb (UpdateRevision (Status sts))
                          (CurrentRevision (Status sts)))
      then false
      else if (CurrentReplicas (Status sts) =? ReadyReplicas (Status sts))
              && ((UpdatedReplicas (Status sts) =? 0)
                  || (UpdatedReplicas (Status sts)
                      =? CurrentReplicas (Status sts)))
      then true
      else false
    else
      if String.eqb (UpdateRevision (Status sts))
                    (CurrentRevision (Status sts))
      then false
      else
        match Replicas (Spec sts) with
        | Some r =>
            if (CurrentReplicas (Status sts) =? partition)
               && (UpdatedReplicas (Status sts)
                   =? GoInt.sub32 r partition)
            then true
            else false
        | None => false (* unreachable: a non-zero partition needs Replicas *)
        end
  else true.

(** The snapshot of the partitioned example, with the two counters the
    example leaves open as parameters. *)
Definition partitioned_snapshot (observed ready : Z) : StatefulSet :=
  {| Generation := 1;
     Spec := {| Replicas := Some 3;
                UpdateStrategy :=
                  {| Type_ := RollingUpdateStatefulSetStrategyType;
                     RollingUpdate := Some {| Partition := Some 1 |} |} |};
     Status := {| ObservedGeneration := 1;
                  StatusReplicas := observed;
                  ReadyReplicas := ready;
                  CurrentReplicas := 1;
                  UpdatedReplicas := 2;
                  CurrentRevision := "v1";
                  UpdateRevision := "v2" |} |}.

(** A stateful set whose strategy kind is not known to the predicate. *)
Definition unknown_strategy_snapshot (observedGeneration : Z) : StatefulSet :=
  {| Generation := 1;
     Spec := {| Replicas := Some 3;
                UpdateStrategy :=
                  {| Type_ := "Canary"; RollingUpdate := None |} |};
     Status := {| ObservedGeneration := observedGeneration;
                  StatusReplicas := 3;
                  ReadyReplicas := 3;
                  CurrentReplicas := 3;
                  UpdatedReplicas := 3;
                  CurrentRevision := "v1";
                  UpdateRevision := "v1" |} |}.

(** A stateful set of an unknown strategy kind whose spec update has been
    observed and of whose three pods two are ready. *)
Definition unknown_strategy_unready_snapshot : StatefulSet :=
  {| Generation := 1;
     Spec := {| Replicas := Some 3;
                UpdateStrategy :=
                  {| Type_ := "Canary"; RollingUpdate := None |} |};
     Status := {| ObservedGeneration := 1;
                  StatusReplicas := 3;
                  ReadyReplicas := 2;
                  CurrentReplicas := 3;
                  UpdatedReplicas := 3;
                  CurrentRevision := "v1";
                  UpdateRevision := "v1" |} |}.

End Statefulset.

(* ===================================================================== *)
(** ** Collaborators of the multitracker *)
(* ===================================================================== *)

(** Iteration over a Go map visits every entry once, in an order the run time
    chooses afresh for each [range] statement.  The choice is an oracle: every
    function that ranges over a map takes one, and every property is proved
    for all of them. *)
Class MapRange := {
  range : ∀ {A : Type}, gmap string A → list (string * A);
  range_perm : ∀ (A : Type) (m : gmap string A), range m ≡ₚ map_to_list m
}.

(** One possible run time: the order in which [gmap] lists its entries. *)
Definition listing_range : MapRange :=
  {| range := λ A (m : gmap string A), map_to_list m;
     range_perm := λ A (m : gmap string A), reflexivity (map_to_list m) |}.

(** Another one: the reverse of it. *)
Definition reverse_range : MapRange :=
  {| range := λ A (m : gmap string A), reverse (map_to_list m);
     range_perm := λ A (m : gmap string A), reverse_Permutation (map_to_list m) |}.

(** The line feed of Go's ["\n"]. *)
Definition nl : string := String "010"%char EmptyString.

(** Modelled from the spec: the condition records of the cluster API
    ([corev1.PodCondition], [appsv1.StatefulSetCondition],
    [appsv1.DaemonSetCondition], [batchv1.JobCondition]) are declared outside
    the sources at hand; the report reads these five fields of each, the
    transition time through its [%s] rendering. *)
Record Condition := {
  LastTransitionTime : string;
  CondType : string;
  CondStatus : string;
  Reason : string;
  CondMessage : string
}.

Module pod.
(** Modelled from the spec: [pod.PodStatus] is declared outside the sources
    at hand; these are the fields the report reads. *)
Record PodStatus := {
  Phase : string;
  Conditions : list Condition;
  IsFailed : bool;
  FailedReason : string
}.
End pod.

Module deployment.
(** Modelled from the spec: the deployment status snapshot is declared
    outside the sources at hand; these are the fields the report reads. *)
Record ReadyCondition := {
  Message : string;
  IsSatisfied : bool
}.

Record DeploymentReadyStatus := {
  IsReady : bool;
  ProgressingConditions : list ReadyCondition;
  ReadyConditions : list ReadyCondition
}.

Record DeploymentStatus := {
  ReadyStatus : DeploymentReadyStatus;
  IsFailed : bool;
  FailedReason : string;
  Pods : gmap string pod.PodStatus
}.
End deployment.

Module statefulset.
(** Modelled from the spec: [statefulset.StatefulSetStatus] is declared
    outside the sources at hand; these are the fields the report reads. *)
Record StatefulSetStatus := {
  Replicas : Z;
  ReadyReplicas : Z;
  CurrentReplicas : Z;
  UpdatedReplicas : Z;
  Conditions : list Condition
}.
End statefulset.

Module daemonset.
(** Modelled from the spec: [daemonset.DaemonSetStatus] is declared outside
    the sources at hand; these are the fields the report reads. *)
Record DaemonSetStatus := {
  CurrentNumberScheduled : Z;
  NumberReady : Z;
  NumberAvailable : Z;
  NumberUnavailable : Z;
  Conditions : list Condition
}.
End daemonset.

Module job.
(** Modelled from the spec: [job.JobStatus] is declared outside the sources
    at hand; these are the fields the report reads, the two times through
    their [%s] rendering. *)
Record JobStatus := {
  Active : Z;
  Succeeded : Z;
  Failed : Z;
  StartTime : string;
  CompletionTime : string;
  Conditions : list Condition
}.
End job.

(** What reaches the report sink.  [display.OutF] writes text; a piece of it
    that went through [color.New(attr).Sprintf] is kept apart with its
    attribute, the terminal rendering of colours being the sink's affair. *)
Inductive Attribute := Bold | FgRed | FgGreen | FgYellow | FgBlue.

Inductive chunk :=
| Plain (text : string)
| Colored (attr : Attribute) (text : string).

Global Instance Attribute_eq_dec : EqDecision Attribute.
Proof. solve_decision. Defined.

Global Instance chunk_eq_dec : EqDecision chunk.
Proof. solve_decision. Defined.

(** The text of a sequence of chunks for a sink that renders an attribute
    with [paint]. *)
Definition chunk_text (paint : Attribute → string → string) (c : chunk) : string :=
  match c with
  | Plain s => s
  | Colored a s => paint a s
  end.

Definition render (paint : Attribute → string → string) (out : list chunk) : string :=
  String.concat "" (chunk_text paint <$> out).

(* ===================================================================== *)
(** ** pkg/trackers/rollout/multitrack *)
(* ===================================================================== *)

Module Multitrack.

(** [type FailMode string] *)
Definition IgnoreAndContinueDeployProcess : string :=
  "IgnoreAndContinueDeployProcess".
Definition FailWholeDeployProcessImmediately : string :=
  "FailWholeDeployProcessImmediately".
Definition HopeUntilEndOfDeployProcess : string :=
  "HopeUntilEndOfDeployProcess".

(** [type DeployCondition string] *)
Definition ControllerIsReady : string := "ControllerIsReady".
Definition PodIsReady : string := "PodIsReady".
Definition EndOfDeploy : string := "EndOfDeploy".

(** A compiled [*regexp.Regexp], known here by its source expression. *)
Record Regexp := { expr : string }.

Record MultitrackSpec := {
  ResourceName : string;
  Namespace : string;

  FailMode : string;
  AllowFailuresCount : option Z;
  FailureThresholdSeconds : option Z;

  LogWatchRegex : option Regexp;
  LogWatchRegexByContainerName : gmap string (option Regexp);
  ShowLogsUntil : string;
  SkipLogsForContainers : list string;
  ShowLogsOnlyForContainers : list string
}.

Record MultitrackSpecs := {
  Pods : list MultitrackSpec;
  Deployments : list MultitrackSpec;
  StatefulSets : list MultitrackSpec;
  DaemonSets : list MultitrackSpec;
  Jobs : list MultitrackSpec
}.

(** The zero value of the struct, what a map lookup yields for a missing key. *)
Definition zeroSpec : MultitrackSpec :=
  {| ResourceName := ""; Namespace := "";
     FailMode := ""; AllowFailuresCount := None;
     FailureThresholdSeconds := None;
     LogWatchRegex := None; LogWatchRegexByContainerName := ∅;
     ShowLogsUntil := "";
     SkipLogsForContainers := []; ShowLogsOnlyForContainers := [] |}.

Definition setDefaultSpecValues (spec : MultitrackSpec) : MultitrackSpec :=
  {| ResourceName := ResourceName spec;
     Namespace := Namespace spec;
     FailMode :=
       if String.eqb (FailMode spec) ""
       then FailWholeDeployProcessImmediately else FailMode spec;
     AllowFailuresCount :=
       match AllowFailuresCount spec with
       | None => Some 1
       | Some n => Some n
       end;
     FailureThresholdSeconds :=
       match FailureThresholdSeconds spec with
       | None => Some 0
       | Some n => Some n
       end;
     LogWatchRegex := LogWatchRegex spec;
     LogWatchRegexByContainerName := LogWatchRegexByContainerName spec;
     ShowLogsUntil :=
       if String.eqb (ShowLogsUntil spec) ""
       then PodIsReady else ShowLogsUntil spec;
     SkipLogsForContainers := SkipLogsForContainers spec;
     ShowLogsOnlyForContainers := ShowLogsOnlyForContainers spec |}.

Record multitrackerResourceState := {
  IsFailed : bool;
  LastFailureReason : string;
  FailuresCount : Z
}.

Global Instance multitrackerResourceState_eq_dec :
  EqDecision multitrackerResourceState.
Proof. solve_decision. Defined.

(** [&multitrackerResourceState{}] *)
Definition zeroState : multitrackerResourceState :=
  {| IsFailed := false; LastFailureReason := ""; FailuresCount := 0 |}.

Definition set_IsFailed (b : bool) (st : multitrackerResourceState) :=
  {| IsFailed := b;
     LastFailureReason := LastFailureReason st;
     FailuresCount := FailuresCount st |}.

Definition set_LastFailureReason (r : string) (st : multitrackerResourceState) :=
  {| IsFailed := IsFailed st;
     LastFailureReason := r;
     FailuresCount := FailuresCount st |}.

Definition incr_FailuresCount (st : multitrackerResourceState) :=
  {| IsFailed := IsFailed st;
     LastFailureReason := LastFailureReason st;
     FailuresCount := GoInt.incr (FailuresCount st) |}.

Record multitracker := {
  DeploymentsSpecs : gmap string MultitrackSpec;

  TrackingPods : gmap string multitrackerResourceState;
  PodsStatuses : gmap string pod.PodStatus;

  TrackingDeployments : gmap string multitrackerResourceState;
  DeploymentsStatuses : gmap string deployment.DeploymentStatus;
  ShownDeploymentMessages : gmap string (gset string);

  TrackingStatefulSets : gmap string multitrackerResourceState;
  StatefulSetsStatuses : gmap string statefulset.StatefulSetStatus;

  TrackingDaemonSets : gmap string multitrackerResourceState;
  DaemonSetsStatuses : gmap string daemonset.DaemonSetStatus;

  TrackingJobs : gmap string multitrackerResourceState;
  JobsStatuses : gmap string job.JobStatus
}.

(** *** Errors and panics *)

(** The error values of this file: [tracker.StopTrack] and the results of
    [fmt.Errorf]; [nil] is [None]. *)
Inductive error :=
| StopTrack
| Errorf (msg : string).

Inductive panic :=
| NilPointerDereference
| PanicMessage (msg : string).

Inductive outcome (A : Type) :=
| Returned (a : A)
| Panicked (p : panic).
Arguments Returned {A} a.
Arguments Panicked {A} p.

Global Instance outcome_ret : MRet outcome := λ A a, Returned a.
Global Instance outcome_bind : MBind outcome := λ A B f o,
  match o with
  | Returned a => f a
  | Panicked p => Panicked p
  end.

(** Reading a field through [states[name]]: a missing key gives a nil
    pointer, and the field access panics. *)
Definition field {A} (name : string) (f : multitrackerResourceState → A)
    (states : gmap string multitrackerResourceState) : outcome A :=
  match states !! name with
  | Some st => Returned (f st)
  | None => Panicked NilPointerDereference
  end.

(** Writing a field through [states[name]]. *)
Definition assign (name : string)
    (f : multitrackerResourceState → multitrackerResourceState)
    (states : gmap string multitrackerResourceState)
  : outcome (gmap string multitrackerResourceState) :=
  match states !! name with
  | Some st => Returned (<[name := f st]> states)
  | None => Panicked NilPointerDereference
  end.

(** [*p] for a pointer to a scalar. *)
Definition deref {A} (p : option A) : outcome A :=
  match p with
  | Some a => Returned a
  | None => Panicked NilPointerDereference
  end.

(** *** The failure state machine *)

Definition handleResourceFailure
    (resourcesStates : gmap string multitrackerResourceState)
    (spec : MultitrackSpec) (reason : string)
  : outcome (gmap string multitrackerResourceState * option error) :=
  let name := ResourceName spec in
  resourcesStates ← assign name incr_FailuresCount resourcesStates;
  count ← field name FailuresCount resourcesStates;
  allow ← deref (AllowFailuresCount spec);
  if count <=? allow then mret (resourcesStates, None)
  else if String.eqb (FailMode spec) FailWholeDeployProcessImmediately then
    resourcesStates ← assign name (set_IsFailed true) resourcesStates;
    resourcesStates ← assign name (set_LastFailureReason reason) resourcesStates;
    mret (resourcesStates, Some StopTrack)
  else if String.eqb (FailMode spec) HopeUntilEndOfDeployProcess then
    resourcesStates ← assign name (set_IsFailed true) resourcesStates;
    resourcesStates ← assign name (set_LastFailureReason reason) resourcesStates;
    mret (resourcesStates, None)
  else if String.eqb (FailMode spec) IgnoreAndContinueDeployProcess then
    mret (delete name resourcesStates, Some StopTrack)
  else Panicked (PanicMessage ("bad fail mode: " +:+ FailMode spec)).

Definition handleResourceReadyCondition
    (resourcesStates : gmap string multitrackerResourceState)
    (spec : MultitrackSpec)
  : gmap string multitrackerResourceState * option error :=
  (delete (ResourceName spec) resourcesStates, Some StopTrack).

(** *** Aggregation *)

(** The five tracked sets, in the order every function lists them. *)
Definition trackedSets (mt : multitracker)
  : list (gmap string multitrackerResourceState) :=
  [TrackingPods mt; TrackingDeployments mt; TrackingStatefulSets mt;
   TrackingDaemonSets mt; TrackingJobs mt].

(** The inner loop: [true] as soon as a state satisfying [p] is met. *)
Definition anyState `{MapRange} (p : multitrackerResourceState → bool)
    (states : gmap string multitrackerResourceState) : bool :=
  existsb (λ '(_, state), p state) (range states).

Definition isTrackingAnyNonFailedResource `{MapRange} (mt : multitracker) : bool :=
  existsb (anyState (λ state, negb (IsFailed state))) (trackedSets mt).

Definition hasFailedTrackingResources `{MapRange} (mt : multitracker) : bool :=
  existsb (anyState IsFailed) (trackedSets mt).

(** One loop of [formatFailedTrackingResourcesError]: the entries of one
    tracked set, the failed ones appended to [msgParts]. *)
Definition appendFailed `{MapRange} (abbrev : string)
    (states : gmap string multitrackerResourceState)
    (msgParts : list string) : list string :=
  foldl (λ msgParts '(name, state),
           if negb (IsFailed state) then msgParts
           else msgParts ++
                  [abbrev +:+ "/" +:+ name +:+ " failed: "
                     +:+ LastFailureReason state])
        msgParts (range states).

Definition failedMsgParts `{MapRange} (mt : multitracker) : list string :=
  let msgParts := [] in
  let msgParts := appendFailed "po" (TrackingPods mt) msgParts in
  let msgParts := appendFailed "deploy" (TrackingDeployments mt) msgParts in
  let msgParts := appendFailed "sts" (TrackingStatefulSets mt) msgParts in
  let msgParts := appendFailed "ds" (TrackingDaemonSets mt) msgParts in
  let msgParts := appendFailed "job" (TrackingJobs mt) msgParts in
  msgParts.

Definition formatFailedTrackingResourcesError `{MapRange} (mt : multitracker)
  : error :=
  Errorf (String.concat nl (failedMsgParts mt)).

(** *** The status report *)

(** The condition lines shared by the pod, stateful set, daemon set and job
    sections (the source repeats the loop in each). *)
Definition printCondition (cond : Condition) : list chunk :=
  [Plain ("│   - " +:+ LastTransitionTime cond +:+ " "
            +:+ CondType cond +:+ ":" +:+ CondStatus cond)]
  ++ (if negb (String.eqb (Reason cond) "")
      then [Plain (" " +:+ Reason cond)] else [])
  ++ (if negb (String.eqb (CondMessage cond) "")
      then [Plain (" " +:+ CondMessage cond)] else [])
  ++ [Plain nl].

Definition printConditions (conds : list Condition) : list chunk :=
  (if (0 <? Z.of_nat (length conds)) then [Plain ("│   Conditions:" +:+ nl)] else [])
  ++ concat (printCondition <$> conds).

Definition printPod (name : string) (status : pod.PodStatus) : list chunk :=
  [Plain ("├ po/" +:+ name +:+ nl)]
  ++ (if negb (String.eqb (pod.Phase status) "")
      then [Plain ("│   Phase:" +:+ pod.Phase status +:+ nl)] else [])
  ++ printConditions (pod.Conditions status).

(** [display.OutF("│   %s\n", color.New(attr).Sprintf(...))] *)
Definition detail (attr : Attribute) (text : string) : list chunk :=
  [Plain "│   "; Colored attr text; Plain nl].

(** The lines for the failed pods of a deployment. *)
Definition printFailedPods `{MapRange} (pods : gmap string pod.PodStatus)
  : list chunk :=
  concat ((λ '(podName, podStatus),
             if pod.IsFailed podStatus
             then detail FgRed ("❌ pod/" +:+ podName +:+ " "
                                  +:+ pod.FailedReason podStatus)
             else []) <$> range pods).

(** A loop over conditions that shows the message of each satisfied one
    unless [shown] (the entry of [ShownDeploymentMessages] for the
    deployment) has it already, and records it there. *)
Fixpoint printOnce (attr : Attribute) (mark : string)
    (conds : list deployment.ReadyCondition) (shown : gset string)
  : list chunk * gset string :=
  match conds with
  | [] => ([], shown)
  | cond :: conds =>
      let '(out, shown) :=
        if deployment.IsSatisfied cond then
          if negb (bool_decide (deployment.Message cond ∈ shown)) then
            (detail attr (mark +:+ deployment.Message cond),
             {[deployment.Message cond]} ∪ shown)
          else ([], shown)
        else ([], shown) in
      let '(rest, shown) := printOnce attr mark conds shown in
      (out ++ rest, shown)
  end.

(** The messages of the ready conditions that are not satisfied. *)
Definition unreadyMsgs (conds : list deployment.ReadyCondition) : list string :=
  foldl (λ msgs cond,
           if negb (deployment.IsSatisfied cond)
           then msgs ++ [deployment.Message cond] else msgs)
        [] conds.

(** The coloured resource title of a deployment. *)
Definition deploymentResource (spec : MultitrackSpec) (name : string)
    (status : deployment.DeploymentStatus) : chunk :=
  let isReady := deployment.IsReady (deployment.ReadyStatus status) in
  if String.eqb (FailMode spec) FailWholeDeployProcessImmediately then
    if isReady then Colored FgGreen ("deploy/" +:+ name)
    else if deployment.IsFailed status then Colored FgRed ("deploy/" +:+ name)
    else Colored FgYellow ("deploy/" +:+ name)
  else if String.eqb (FailMode spec) IgnoreAndContinueDeployProcess then
    if isReady then Colored FgGreen ("deploy/" +:+ name)
    else Plain ("deploy/" +:+ name)
  else if String.eqb (FailMode spec) HopeUntilEndOfDeployProcess then
    if isReady then Colored FgGreen ("deploy/" +:+ name)
    else Colored FgYellow ("deploy/" +:+ name)
  else Plain "".

(** The body of the loop over [DeploymentsStatuses], after the entry of
    [ShownDeploymentMessages] for [name] has been made sure of: what it
    prints and what that entry becomes. *)
Definition printDeployment `{MapRange} (spec : MultitrackSpec) (name : string)
    (status : deployment.DeploymentStatus) (shown : gset string)
  : list chunk * gset string :=
  let resource := deploymentResource spec name status in
  let title := [Plain "├ "; resource; Plain nl] in
  if deployment.IsFailed status then
    (title
     ++ detail FgRed ("❌ " +:+ deployment.FailedReason status)
     ++ printFailedPods (deployment.Pods status),
     shown)
  else
    let ready := deployment.ReadyStatus status in
    let '(progressing, shown) :=
      printOnce FgBlue "↻  " (deployment.ProgressingConditions ready) shown in
    let msgs := unreadyMsgs (deployment.ReadyConditions ready) in
    let waiting :=
      if (0 <? Z.of_nat (length msgs))
      then detail FgYellow ("⌚ " +:+ String.concat ", " msgs) else [] in
    let '(satisfied, shown) :=
      printOnce FgGreen "✅ " (deployment.ReadyConditions ready) shown in
    (title ++ progressing ++ waiting ++ satisfied
     ++ printFailedPods (deployment.Pods status),
     shown).

(** One iteration of the loop over [DeploymentsStatuses]. *)
Definition printDeploymentStep `{MapRange}
    (specs : gmap string MultitrackSpec)
    (acc : list chunk * gmap string (gset string))
    (entry : string * deployment.DeploymentStatus)
  : list chunk * gmap string (gset string) :=
  let '(out, shownMessages) := acc in
  let '(name, status) := entry in
  let spec := default zeroSpec (specs !! name) in
  let shownMessages :=
    match shownMessages !! name with
    | Some _ => shownMessages
    | None => <[name := ∅]> shownMessages
    end in
  let '(block, shown) :=
    printDeployment spec name status (default ∅ (shownMessages !! name)) in
  (out ++ block, <[name := shown]> shownMessages).

Definition printStatefulSet (name : string)
    (status : statefulset.StatefulSetStatus) : list chunk :=
  [Plain ("├ sts/" +:+ name +:+ nl);
   Plain ("│   Replicas:" +:+ pretty (statefulset.Replicas status)
            +:+ " ReadyReplicas:" +:+ pretty (statefulset.ReadyReplicas status)
            +:+ " CurrentReplicas:" +:+ pretty (statefulset.CurrentReplicas status)
            +:+ " UpdatedReplicas:" +:+ pretty (statefulset.UpdatedReplicas status)
            +:+ nl)]
  ++ printConditions (statefulset.Conditions status).

Definition printDaemonSet (name : string)
    (status : daemonset.DaemonSetStatus) : list chunk :=
  [Plain ("├ ds/" +:+ name +:+ nl);
   Plain ("│   CurrentNumberScheduled:"
            +:+ pretty (daemonset.CurrentNumberScheduled status)
            +:+ " NumberReady:" +:+ pretty (daemonset.NumberReady status)
            +:+ " NumberAvailable:" +:+ pretty (daemonset.NumberAvailable status)
            +:+ " NumberUnavailable:"
            +:+ pretty (daemonset.NumberUnavailable status)
            +:+ nl)]
  ++ printConditions (daemonset.Conditions status).

Definition printJob (name : string) (status : job.JobStatus) : list chunk :=
  [Plain ("├ job/" +:+ name +:+ nl);
   Plain ("│   Active:" +:+ pretty (job.Active status)
            +:+ " Succeeded:" +:+ pretty (job.Succeeded status)
            +:+ " Failed:" +:+ pretty (job.Failed status) +:+ nl);
   Plain ("│   StartTime:" +:+ job.StartTime status
            +:+ " CompletionTime:" +:+ job.CompletionTime status +:+ nl)]
  ++ printConditions (job.Conditions status).

(** The tracked resources of one kind that have no status yet. *)
Definition printUnavailable `{MapRange} {A} (abbrev : string)
    (tracking : gmap string multitrackerResourceState)
    (statuses : gmap string A) : list chunk :=
  concat ((λ '(name, _),
             match statuses !! name with
             | Some _ => []
             | None => [Plain ("├ " +:+ abbrev +:+ "/" +:+ name
                                 +:+ " status unavailable" +:+ nl)]
             end) <$> range tracking).

Definition set_ShownDeploymentMessages (shown : gmap string (gset string))
    (mt : multitracker) : multitracker :=
  {| DeploymentsSpecs := DeploymentsSpecs mt;
     TrackingPods := TrackingPods mt;
     PodsStatuses := PodsStatuses mt;
     TrackingDeployments := TrackingDeployments mt;
     DeploymentsStatuses := DeploymentsStatuses mt;
     ShownDeploymentMessages := shown;
     TrackingStatefulSets := TrackingStatefulSets mt;
     StatefulSetsStatuses := StatefulSetsStatuses mt;
     TrackingDaemonSets := TrackingDaemonSets mt;
     DaemonSetsStatuses := DaemonSetsStatuses mt;
     TrackingJobs := TrackingJobs mt;
     JobsStatuses := JobsStatuses mt |}.

(** The deployments section: the printed text and the shown messages. *)
Definition printDeployments `{MapRange} (mt : multitracker)
  : list chunk * gmap string (gset string) :=
  foldl (printDeploymentStep (DeploymentsSpecs mt))
        ([], ShownDeploymentMessages mt)
        (range (DeploymentsStatuses mt)).

(** Returns what was written to the sink, the tracker as the report leaves
    it, and the error, which is always [nil]. *)
Definition PrintStatusReport `{MapRange} (mt : multitracker)
  : list chunk * multitracker * option error :=
  let caption := Colored Bold "Status Report" in
  let '(deployments, shownMessages) := printDeployments mt in
  ([Plain (nl +:+ "┌ "); caption; Plain nl]
   ++ concat ((λ '(name, status), printPod name status)
                <$> range (PodsStatuses mt))
   ++ deployments
   ++ concat ((λ '(name, status), printStatefulSet name status)
                <$> range (StatefulSetsStatuses mt))
   ++ concat ((λ '(name, status), printDaemonSet name status)
                <$> range (DaemonSetsStatuses mt))
   ++ concat ((λ '(name, status), printJob name status)
                <$> range (JobsStatuses mt))
   ++ printUnavailable "po" (TrackingPods mt) (PodsStatuses mt)
   ++ printUnavailable "deploy" (TrackingDeployments mt) (DeploymentsStatuses mt)
   ++ printUnavailable "sts" (TrackingStatefulSets mt) (StatefulSetsStatuses mt)
   ++ printUnavailable "ds" (TrackingDaemonSets mt) (DaemonSetsStatuses mt)
   ++ printUnavailable "job" (TrackingJobs mt) (JobsStatuses mt)
   ++ [Plain "└ "; caption; Plain nl],
   set_ShownDeploymentMessages shownMessages mt,
   None).

(** *** The completion step of [Multitrack] *)

(** What the goroutine that waits for all watchers sends, and so what
    [Multitrack] returns when this message is the one it receives:
    [None] stands for the token on [doneChan] (the run returns [nil]),
    [Some err] for [err] on [errorChan]. *)
Definition completion (Rreport Rcheck Rformat : MapRange) (mt : multitracker)
  : list chunk * multitracker * option error :=
  let '(out, mt, err) := @PrintStatusReport Rreport mt in
  match err with
  | Some err => (out, mt, Some err)
  | None =>
      if @hasFailedTrackingResources Rcheck mt
      then (out, mt, Some (@formatFailedTrackingResourcesError Rformat mt))
      else (out, mt, None)
  end.

(** *** The start of [Multitrack] *)

(** The loops that apply [setDefaultSpecValues] to every spec in place. *)
Definition normalizeSpecs (specs : MultitrackSpecs) : MultitrackSpecs :=
  {| Pods := setDefaultSpecValues <$> Pods specs;
     Deployments := setDefaultSpecValues <$> Deployments specs;
     StatefulSets := setDefaultSpecValues <$> StatefulSets specs;
     DaemonSets := setDefaultSpecValues <$> DaemonSets specs;
     Jobs := setDefaultSpecValues <$> Jobs specs |}.

(** [mt.TrackingXs[spec.ResourceName] = &multitrackerResourceState{}] for
    every spec of a kind. *)
Definition registerAll (specs : list MultitrackSpec)
  : gmap string multitrackerResourceState :=
  foldl (λ tracking spec, <[ResourceName spec := zeroState]> tracking) ∅ specs.

(** The tracker as it is once every watcher has been registered. *)
Definition startTracking (specs : MultitrackSpecs) : multitracker :=
  let specs := normalizeSpecs specs in
  {| DeploymentsSpecs :=
       foldl (λ m spec, <[ResourceName spec := spec]> m) ∅ (Deployments specs);
     TrackingPods := registerAll (Pods specs);
     PodsStatuses := ∅;
     TrackingDeployments := registerAll (Deployments specs);
     DeploymentsStatuses := ∅;
     ShownDeploymentMessages := ∅;
     TrackingStatefulSets := registerAll (StatefulSets specs);
     StatefulSetsStatuses := ∅;
     TrackingDaemonSets := registerAll (DaemonSets specs);
     DaemonSetsStatuses := ∅;
     TrackingJobs := registerAll (Jobs specs);
     JobsStatuses := ∅ |}.

(** *** Resources by kind *)

(** The five kinds of tracked resources; a resource is a kind and a name. *)
Inductive kind := Pod | Deployment | StatefulSet | DaemonSet | Job.

Global Instance kind_eq_dec : EqDecision kind.
Proof. solve_decision. Defined.

Definition kinds : list kind := [Pod; Deployment; StatefulSet; DaemonSet; Job].

(** The abbreviation under which the final error names a kind. *)
Definition abbrev (k : kind) : string :=
  match k with
  | Pod => "po"
  | Deployment => "deploy"
  | StatefulSet => "sts"
  | DaemonSet => "ds"
  | Job => "job"
  end.

Definition tracking (k : kind) (mt : multitracker)
  : gmap string multitrackerResourceState :=
  match k with
  | Pod => TrackingPods mt
  | Deployment => TrackingDeployments mt
  | StatefulSet => TrackingStatefulSets mt
  | DaemonSet => TrackingDaemonSets mt
  | Job => TrackingJobs mt
  end.

Definition set_tracking (k : kind)
    (states : gmap string multitrackerResourceState) (mt : multitracker)
  : multitracker :=
  {| DeploymentsSpecs := DeploymentsSpecs mt;
     TrackingPods := if decide (k = Pod) then states else TrackingPods mt;
     PodsStatuses := PodsStatuses mt;
     TrackingDeployments :=
       if decide (k = Deployment) then states else TrackingDeployments mt;
     DeploymentsStatuses := DeploymentsStatuses mt;
     ShownDeploymentMessages := ShownDeploymentMessages mt;
     TrackingStatefulSets :=
       if decide (k = StatefulSet) then states else TrackingStatefulSets mt;
     StatefulSetsStatuses := StatefulSetsStatuses mt;
     TrackingDaemonSets :=
       if decide (k = DaemonSet) then states else TrackingDaemonSets mt;
     DaemonSetsStatuses := DaemonSetsStatuses mt;
     TrackingJobs := if decide (k = Job) then states else TrackingJobs mt;
     JobsStatuses := JobsStatuses mt |}.

(** [mt.handleResourceFailure(mt.TrackingXs, spec, reason)]: the map handed
    over is the tracker's own, so what the handler does to it is done to the
    tracker. *)
Definition resourceFailed (k : kind) (spec : MultitrackSpec) (reason : string)
    (mt : multitracker) : outcome (multitracker * option error) :=
  '(states, err) ← handleResourceFailure (tracking k mt) spec reason;
  mret (set_tracking k states mt, err).

(** [mt.handleResourceReadyCondition(mt.TrackingXs, spec)], likewise. *)
Definition resourceReady (k : kind) (spec : MultitrackSpec) (mt : multitracker)
  : multitracker * option error :=
  let '(states, err) := handleResourceReadyCondition (tracking k mt) spec in
  (set_tracking k states mt, err).

(** What the watchers can do to the tracked sets: report a failure or a
    terminal success of a resource, whatever the handler answered before. *)
Inductive notification :=
| Failure (k : kind) (spec : MultitrackSpec) (reason : string)
| Ready (k : kind) (spec : MultitrackSpec).

Fixpoint deliver (events : list notification) (mt : multitracker)
  : outcome multitracker :=
  match events with
  | [] => mret mt
  | Failure k spec reason :: events =>
      '(mt, _) ← resourceFailed k spec reason mt; deliver events mt
  | Ready k spec :: events =>
      deliver events (resourceReady k spec mt).1
  end.

(** The resource a notification is about. *)
Definition resourceOf (event : notification) : kind * string :=
  match event with
  | Failure k spec _ => (k, ResourceName spec)
  | Ready k spec => (k, ResourceName spec)
  end.

(** The line of the final error for one failed resource. *)
Definition failedLine (k : kind) (name : string)
    (state : multitrackerResourceState) : string :=
  abbrev k +:+ "/" +:+ name +:+ " failed: " +:+ LastFailureReason state.

Definition failedEntryLine
    (entry : kind * string * multitrackerResourceState) : string :=
  failedLine entry.1.1 entry.1.2 entry.2.

(** The failed resources in the order the final error lists them. *)
Definition failedOf `{MapRange} (k : kind) (mt : multitracker)
  : list (kind * string * multitrackerResourceState) :=
  (λ '(name, state), (k, name, state))
    <$> filter (λ '(_, state), IsFailed state = true) (range (tracking k mt)).

Definition failedResources `{MapRange} (mt : multitracker)
  : list (kind * string * multitrackerResourceState) :=
  concat ((λ k, failedOf k mt) <$> kinds).

(** The chunk of the "↻" line for a progressing-condition message. *)
Definition progressingLine (message : string) : chunk :=
  Colored FgBlue ("↻  " +:+ message).

(** What a report prints for the deployment [name], and what it leaves in
    [ShownDeploymentMessages] for it; [None] if it has no status yet. *)
Definition deploymentBlock `{MapRange} (mt : multitracker) (name : string)
  : option (list chunk * gset string) :=
  status ← DeploymentsStatuses mt !! name;
  Some (printDeployment (default zeroSpec (DeploymentsSpecs mt !! name))
                        name status
                        (default ∅ (ShownDeploymentMessages mt !! name))).

(** A deployment that is marked failed while a progressing condition with a
    message never shown before is satisfied. *)
Definition failedDeploymentTracker : multitracker :=
  {| DeploymentsSpecs := ∅;
     TrackingPods := ∅; PodsStatuses := ∅;
     TrackingDeployments := {[ "web" := zeroState ]};
     DeploymentsStatuses :=
       {[ "web" :=
            {| deployment.ReadyStatus :=
                 {| deployment.IsReady := false;
                    deployment.ProgressingConditions :=
                      [ {| deployment.Message := "rolling out";
                           deployment.IsSatisfied := true |} ];
                    deployment.ReadyConditions := [] |};
               deployment.IsFailed := true;
               deployment.FailedReason := "crash loop";
               deployment.Pods := ∅ |} ]};
     ShownDeploymentMessages := ∅;
     TrackingStatefulSets := ∅; StatefulSetsStatuses := ∅;
     TrackingDaemonSets := ∅; DaemonSetsStatuses := ∅;
     TrackingJobs := ∅; JobsStatuses := ∅ |}.

(** The same deployment while it is not marked failed. *)
Definition progressingDeploymentTracker : multitracker :=
  {| DeploymentsSpecs := ∅;
     TrackingPods := ∅; PodsStatuses := ∅;
     TrackingDeployments := {[ "web" := zeroState ]};
     DeploymentsStatuses :=
       {[ "web" :=
            {| deployment.ReadyStatus :=
                 {| deployment.IsReady := false;
                    deployment.ProgressingConditions :=
                      [ {| deployment.Message := "rolling out";
                           deployment.IsSatisfied := true |} ];
                    deployment.ReadyConditions := [] |};
               deployment.IsFailed := false;
               deployment.FailedReason := "";
               deployment.Pods := ∅ |} ]};
     ShownDeploymentMessages := ∅;
     TrackingStatefulSets := ∅; StatefulSetsStatuses := ∅;
     TrackingDaemonSets := ∅; DaemonSetsStatuses := ∅;
     TrackingJobs := ∅; JobsStatuses := ∅ |}.

(** *** Sample specs *)

(** The three defined fail modes. *)
Definition definedFailMode (mode : string) : Prop :=
  mode = FailWholeDeployProcessImmediately
  ∨ mode = HopeUntilEndOfDeployProcess
  ∨ mode = IgnoreAndContinueDeployProcess.

(** A spec that asks for everything itself, and one that leaves every
    optional field out. *)
Definition explicitSpec : MultitrackSpec :=
  {| ResourceName := "db"; Namespace := "prod";
     FailMode := HopeUntilEndOfDeployProcess;
     AllowFailuresCount := Some 3;
     FailureThresholdSeconds := Some 20;
     LogWatchRegex := Some {| expr := "ERROR" |};
     LogWatchRegexByContainerName := ∅;
     ShowLogsUntil := EndOfDeploy;
     SkipLogsForContainers := ["sidecar"];
     ShowLogsOnlyForContainers := [] |}.

Definition bareSpec (name mode : string) (allow : option Z) : MultitrackSpec :=
  {| ResourceName := name; Namespace := "prod";
     FailMode := mode;
     AllowFailuresCount := allow;
     FailureThresholdSeconds := None;
     LogWatchRegex := None;
     LogWatchRegexByContainerName := ∅;
     ShowLogsUntil := "";
     SkipLogsForContainers := [];
     ShowLogsOnlyForContainers := [] |}.

(** A run over a pod, a deployment under the given fail mode with one
    failure allowed, and a stateful set. *)
Definition sampleSpecs (mode : string) : MultitrackSpecs :=
  {| Pods := [bareSpec "migrate" "" None];
     Deployments := [bareSpec "web" mode (Some 1)];
     StatefulSets := [explicitSpec];
     DaemonSets := [];
     Jobs := [] |}.

Definition webSpec (mode : string) : MultitrackSpec :=
  setDefaultSpecValues (bareSpec "web" mode (Some 1)).

End Multitrack.

(* ===================================================================== *)
(** ** pkg/tracker/statefulset: the rollout status message *)
(* ===================================================================== *)

Module Rollout.
Import Statefulset.

(** [Sprintf("%d", x)] for an [int32]. *)
Definition fmt_d (x : Z) : string := pretty x.

(** Returns the message, the "done" flag and the error ([None] is [nil],
    [Some msg] the result of [fmt.Errorf]). *)
Definition StatefulSetRolloutStatus (sts : StatefulSet)
  : string * bool * option string :=
  let spec := Spec sts in
  let status := Status sts in
  (* what follows the partition check *)
  let rolledOut :=
    ("partitioned roll out complete: "
       +:+ fmt_d (UpdatedReplicas status)
       +:+ " new pods have been updated..." +:+ nl,
     true, None) in
  (* what follows the readiness check *)
  let byStrategy :=
    match RollingUpdate (UpdateStrategy spec) with
    | Some rollingUpdate =>
        match Replicas spec, Partition rollingUpdate with
        | Some replicas, Some partition =>
            if UpdatedReplicas status <? GoInt.sub32 replicas partition
            then ("Waiting for partitioned roll out to finish: "
                    +:+ fmt_d (UpdatedReplicas status) +:+ " out of "
                    +:+ fmt_d (GoInt.sub32 replicas partition)
                    +:+ " new pods have been updated..." +:+ nl,
                  false, None)
            else rolledOut
        | _, _ => rolledOut
        end
    | None =>
        if negb (String.eqb (UpdateRevision status) (CurrentRevision status))
        then ("waiting for statefulset rolling update to complete "
                +:+ fmt_d (UpdatedReplicas status) +:+ " pods at revision "
                +:+ UpdateRevision status +:+ "..." +:+ nl,
              false, None)
        else ("statefulset rolling update complete "
                +:+ fmt_d (CurrentReplicas status) +:+ " pods at revision "
                +:+ CurrentRevision status +:+ "..." +:+ nl,
              true, None)
    end in
  if negb (String.eqb (Type_ (UpdateStrategy spec))
                      RollingUpdateStatefulSetStrategyType)
  then ("", true,
        Some ("rollout status is only available for "
                +:+ RollingUpdateStatefulSetStrategyType +:+ " strategy type"))
  else if (ObservedGeneration status =? 0)
          || (ObservedGeneration status <? Generation sts)
  then ("Waiting for statefulset spec update to be observed..." +:+ nl,
        false, None)
  else
    match Replicas spec with
    | Some replicas =>
        if ReadyReplicas status <? replicas
        then ("Waiting for "
                +:+ fmt_d (GoInt.sub32 replicas (ReadyReplicas status))
                +:+ " pods to be ready..." +:+ nl, false, None)
        else byStrategy
    | None => byStrategy
    end.

(** A stateful set in the middle of nothing: every pod ready and current,
    under the given strategy. *)
Definition settled (strategy : StatefulSetUpdateStrategy) (replicas : option Z)
    (updated : Z) : StatefulSet :=
  {| Generation := 4;
     Spec := {| Replicas := replicas; UpdateStrategy := strategy |};
     Status := {| ObservedGeneration := 4;
                  StatusReplicas := 3;
                  ReadyReplicas := 3;
                  CurrentReplicas := 3;
                  UpdatedReplicas := updated;
                  CurrentRevision := "v2";
                  UpdateRevision := "v2" |} |}.

End Rollout.

(* ===================================================================== *)
(** ** pkg/trackers/rollout/multitrack: the log filter *)
(* ===================================================================== *)

Module Logs.
Import Multitrack.

(** Modelled from the spec: [display.LogLine] and [pod.ContainerLogChunk]
    are declared outside the sources at hand; the filter reads the message of
    a line and the container name and the lines of a chunk. *)
Record LogLine := {
  Timestamp : string;
  Message : string
}.

Record ContainerLogChunk := {
  ContainerName : string;
  LogLines : list LogLine
}.

(** One call of [display.OutputLogLines(header, lines)]. *)
Definition OutputLogLines : Type := string * list LogLine.

Section Filter.

(** [FindString] of a compiled [regexp.Regexp]: the leftmost match of the expression in
    the text, or the empty string; the matcher is the regexp library's. *)
Context (FindString : Regexp → string → string).

(** The first loop: is the container in [SkipLogsForContainers]? *)
Definition skipped (spec : MultitrackSpec) (chunk : ContainerLogChunk) : bool :=
  existsb (λ containerName, String.eqb containerName (ContainerName chunk))
          (SkipLogsForContainers spec).

(** [showLogs] after the second loop. *)
Definition showLogs (spec : MultitrackSpec) (chunk : ContainerLogChunk) : bool :=
  foldl (λ showLogs containerName,
           if String.eqb containerName (ContainerName chunk)
           then true else showLogs)
        (length (ShowLogsOnlyForContainers spec) =? 0)%nat
        (ShowLogsOnlyForContainers spec).

(** [logRegexp], [None] for [nil]. *)
Definition logRegexp (spec : MultitrackSpec) (chunk : ContainerLogChunk)
  : option Regexp :=
  match LogWatchRegexByContainerName spec !! ContainerName chunk with
  | Some (Some re) => Some re
  | _ => LogWatchRegex spec
  end.

(** The calls of [display.OutputLogLines] the function makes, in order; a
    [nil] chunk makes the first read of the container name panic. *)
Definition displayContainerLogChunk (header : string) (spec : MultitrackSpec)
    (chunk : option ContainerLogChunk) : outcome (list OutputLogLines) :=
  chunk ← deref chunk;
  if skipped spec chunk then mret []
  else if negb (showLogs spec chunk) then mret []
  else
    match logRegexp spec chunk with
    | Some re =>
        mret (foldl (λ calls logLine,
                       let message := FindString re (Message logLine) in
                       if negb (String.eqb message "")
                       then calls ++ [(header, [logLine])] else calls)
                    [] (LogLines chunk))
    | None => mret [(header, LogLines chunk)]
    end.

End Filter.

(** A matcher for the examples: the text itself if it starts with the
    expression, the empty string otherwise. *)
Definition prefixFindString (re : Regexp) (text : string) : string :=
  if String.prefix (expr re) text then text else "".

Definition sampleChunk (container : string) : ContainerLogChunk :=
  {| ContainerName := container;
     LogLines := [ {| Timestamp := "12:00:01"; Message := "ERROR disk full" |};
                   {| Timestamp := "12:00:02"; Message := "INFO retrying" |};
                   {| Timestamp := "12:00:03"; Message := "ERROR gave up" |} ] |}.

End Logs.

(* ===================================================================== *)
(** ** Resources of a run, by kind *)
(* ===================================================================== *)

Module Accounting.
Import Multitrack.

(** The specs of one kind among those handed to [Multitrack]. *)
Definition specsOf (k : kind) (specs : MultitrackSpecs) : list MultitrackSpec :=
  match k with
  | Pod => Pods specs
  | Deployment => Deployments specs
  | StatefulSet => StatefulSets specs
  | DaemonSet => DaemonSets specs
  | Job => Jobs specs
  end.

(** The first chunk a frame prints for a resource whose status is known
    (for a deployment, the coloured title that follows the "├ "); [None] if
    no status of the resource has been received. *)
Definition titleOf (k : kind) (mt : multitracker) (name : string) : option chunk :=
  match k with
  | Pod =>
      (λ _, Plain ("├ po/" +:+ name +:+ nl)) <$> PodsStatuses mt !! name
  | Deployment =>
      (λ status,
         deploymentResource (default zeroSpec (DeploymentsSpecs mt !! name))
                            name status) <$> DeploymentsStatuses mt !! name
  | StatefulSet =>
      (λ _, Plain ("├ sts/" +:+ name +:+ nl)) <$> StatefulSetsStatuses mt !! name
  | DaemonSet =>
      (λ _, Plain ("├ ds/" +:+ name +:+ nl)) <$> DaemonSetsStatuses mt !! name
  | Job =>
      (λ _, Plain ("├ job/" +:+ name +:+ nl)) <$> JobsStatuses mt !! name
  end.

(** The line of a frame for a tracked resource without a status. *)
Definition unavailableLine (k : kind) (name : string) : chunk :=
  Plain ("├ " +:+ abbrev k +:+ "/" +:+ name +:+ " status unavailable" +:+ nl).

(** The "✅" chunk of a ready-condition message and the "⌚" chunk of the
    unsatisfied ready conditions. *)
Definition satisfiedLine (message : string) : chunk :=
  Colored FgGreen ("✅ " +:+ message).

Definition waitingLine (messages : list string) : chunk :=
  Colored FgYellow ("⌚ " +:+ String.concat ", " messages).

(** A deployment in mid-rollout: one progressing message, which is also the
    text of a satisfied ready condition, and one ready condition not yet
    satisfied. *)
Definition rollingStatus : deployment.DeploymentStatus :=
  {| deployment.ReadyStatus :=
       {| deployment.IsReady := false;
          deployment.ProgressingConditions :=
            [ {| deployment.Message := "replicas: 2/3";
                 deployment.IsSatisfied := true |} ];
          deployment.ReadyConditions :=
            [ {| deployment.Message := "replicas: 2/3";
                 deployment.IsSatisfied := true |};
              {| deployment.Message := "available: 3/3";
                 deployment.IsSatisfied := false |} ] |};
     deployment.IsFailed := false;
     deployment.FailedReason := "";
     deployment.Pods := ∅ |}.

(** The run of [sampleSpecs], after a first status of the deployment. *)
Definition rollingTracker (mode : string) : multitracker :=
  let mt := startTracking (sampleSpecs mode) in
  {| DeploymentsSpecs := DeploymentsSpecs mt;
     TrackingPods := TrackingPods mt;
     PodsStatuses := PodsStatuses mt;
     TrackingDeployments := TrackingDeployments mt;
     DeploymentsStatuses := {[ "web" := rollingStatus ]};
     ShownDeploymentMessages := ShownDeploymentMessages mt;
     TrackingStatefulSets := TrackingStatefulSets mt;
     StatefulSetsStatuses := StatefulSetsStatuses mt;
     TrackingDaemonSets := TrackingDaemonSets mt;
     DaemonSetsStatuses := DaemonSetsStatuses mt;
     TrackingJobs := TrackingJobs mt;
     JobsStatuses := JobsStatuses mt |}.

End Accounting.

(* ===================================================================== *)
(** ** pkg/trackers/rollout/multitrack: the run of [Multitrack] *)
(* ===================================================================== *)

Module Run.
Import Multitrack Accounting.

(** [Multitrack] between its registration loops and its return.  The watcher
    goroutines, the report ticker and the goroutine behind [wg.Wait] act one
    at a time (handlers and reports hold [handlerMux]); the order in which
    they do is the scheduler's, and is given here as a list of events.
    [waiting] holds the watchers that have not reached [wg.Done] yet, and
    [returned] what [Multitrack] has returned, once it has: [Some None] for
    [nil]. *)
Record run := {
  tracker : multitracker;
  waiting : list (kind * string);
  returned : option (option error)
}.

Inductive event :=
| Notified (notice : notification)
    (* a watcher calls a handler of the failure state machine *)
| Finished (watcher : kind * string) (err : option string)
    (* [mt.TrackXs] of a watcher returns [err] *)
| Tick
    (* [statusReportTicker.C] fires *)
| AllDone.
    (* [wg.Wait] returns *)

(** The goroutines started by the five loops, one per spec. *)
Definition watchersOf (specs : MultitrackSpecs) : list (kind * string) :=
  concat ((λ k, (λ spec, (k, ResourceName spec)) <$> specsOf k specs) <$> kinds).

(** [wg.Done] of one watcher. *)
Fixpoint done (watcher : kind * string) (waiting : list (kind * string))
  : list (kind * string) :=
  match waiting with
  | [] => []
  | w :: waiting =>
      if decide (w = watcher) then waiting else w :: done watcher waiting
  end.

(** [Multitrack] up to its [select] loop: with no spec at all it returns
    [nil] at once. *)
Definition startRun (specs : MultitrackSpecs) : run :=
  {| tracker := startTracking specs;
     waiting := watchersOf specs;
     returned :=
       if (length (Pods specs) + length (Deployments specs)
           + length (StatefulSets specs) + length (DaemonSets specs)
           + length (Jobs specs) =? 0)%nat
       then Some None else None |}.

(** The [select] loop returns on the first message it takes; what arrives
    after that finds nobody. *)
Definition deliverResult (result : option error) (r : run) : option (option error) :=
  match returned r with
  | None => Some result
  | Some earlier => Some earlier
  end.

Section Step.
Context (Rreport Rcheck Rformat : MapRange).

(** One event.  A handler changes the tracker and hands its answer to the
    watcher that called it; nothing of it reaches [Multitrack]'s loop.  A
    watcher that returns an error sends it, wrapped, on [errorChan]; then, or
    when it returns [nil], it is done.  A tick prints a frame, and the loop
    returns the error of the report if there is one.  Behind [wg.Wait],
    which needs every watcher done, the final frame is printed and the
    verdict sent. *)
Definition step (e : event) (r : run) : outcome run :=
  match e with
  | Notified (Failure k spec reason) =>
      '(mt, _) ← resourceFailed k spec reason (tracker r);
      mret {| tracker := mt; waiting := waiting r; returned := returned r |}
  | Notified (Ready k spec) =>
      mret {| tracker := (resourceReady k spec (tracker r)).1;
              waiting := waiting r; returned := returned r |}
  | Finished watcher err =>
      if bool_decide (watcher ∈ waiting r) then
        match err, returned r with
        | Some msg, None =>
            mret {| tracker := tracker r;
                    waiting := done watcher (waiting r);
                    returned :=
                      Some (Some (Errorf (abbrev watcher.1 +:+ "/"
                                            +:+ watcher.2
                                            +:+ " track failed: " +:+ msg))) |}
        | Some _, Some _ => mret r (* nobody takes the error: no [wg.Done] *)
        | None, _ =>
            mret {| tracker := tracker r;
                    waiting := done watcher (waiting r);
                    returned := returned r |}
        end
      else mret r
  | Tick =>
      match returned r with
      | Some _ => mret r (* the loop is gone *)
      | None =>
          let '(_, mt, err) := @PrintStatusReport Rreport (tracker r) in
          mret {| tracker := mt; waiting := waiting r; returned := Some <$> err |}
      end
  | AllDone =>
      match waiting r with
      | [] =>
          let '(_, mt, verdict) :=
            completion Rreport Rcheck Rformat (tracker r) in
          mret {| tracker := mt; waiting := [];
                  returned := deliverResult verdict r |}
      | _ :: _ => mret r
      end
  end.

Fixpoint exec (events : list event) (r : run) : outcome run :=
  match events with
  | [] => mret r
  | e :: events => r ← step e r; exec events r
  end.

End Step.

(** Events in which no handler is called and no watcher returns an error. *)
Definition quiet (e : event) : Prop :=
  match e with
  | Notified _ => False
  | Finished _ (Some _) => False
  | _ => True
  end.

(** Events in which no handler is called for the given resource and no
    watcher returns an error. *)
Definition aside (resource : kind * string) (e : event) : Prop :=
  match e with
  | Notified notice => resourceOf notice ≠ resource
  | Finished _ (Some _) => False
  | _ => True
  end.

(** No tracked resource is marked failed. *)
Definition noneFailed (mt : multitracker) : Prop :=
  ∀ k name st, tracking k mt !! name = Some st → IsFailed st = false.

(** The run has not returned, or it has returned [nil] with every watcher
    done. *)
Definition unfailed (r : run) : Prop :=
  returned r = None ∨ (waiting r = [] ∧ returned r = Some None).

(** The run has not returned, or it has returned, with every watcher done,
    the aggregated error with the line of the resource. *)
Definition failing (k : kind) (name : string) (st : multitrackerResourceState)
    (r : run) : Prop :=
  returned r = None
  ∨ (waiting r = []
     ∧ ∃ parts before after,
         returned r = Some (Some (Errorf (String.concat nl parts)))
         ∧ failedLine k name st ∈ parts
         ∧ String.concat nl parts = before +:+ failedLine k name st +:+ after).

End Run.

(* ===================================================================== *)
(** ** Properties of the machine integers *)
(* ===================================================================== *)

Module GoIntFacts.
Import GoInt.

Lemma wrap_in_range (w x : Z) :
  0 < w → in_range w x → wrap w x = x.
Proof.
  unfold in_range, min_signed, max_signed, wrap. intros Hw [Hlo Hhi].
  assert (Hpow : 2 ^ w = 2 * 2 ^ (w - 1)).
  { replace w with (Z.succ (w - 1)) at 1 by lia.
    rewrite Z.pow_succ_r by lia. reflexivity. }
  assert (0 < 2 ^ (w - 1)) by (apply Z.pow_pos_nonneg; lia).
  rewrite Z.mod_small by lia. lia.
Qed.

(** Where the counter does not overflow, [x++] is [x + 1]. *)
Lemma incr_exact (x : Z) :
  min_int <= x < max_int → incr x = x + 1.
Proof.
  intros [Hlo Hhi]. unfold incr. apply wrap_in_range; [reflexivity|].
  unfold in_range, min_int, max_int in *. lia.
Qed.

(** Where the difference fits, [a - b] on [int32] is the difference. *)
Lemma sub32_exact (a b : Z) :
  in_range 32 (a - b) → sub32 a b = a - b.
Proof. intros H. unfold sub32. apply wrap_in_range; [reflexivity|exact H]. Qed.

End GoIntFacts.

(* ===================================================================== *)
(** ** Properties of [StatefulSetComplete] *)
(* ===================================================================== *)

Module StatefulsetFacts.
Import Statefulset.

Lemma replicas_mismatch_false (sts : StatefulSet) :
  replicas_mismatch sts = false ↔
  ∀ r, Replicas (Spec sts) = Some r →
       StatusReplicas (Status sts) = r ∧ ReadyReplicas (Status sts) = r.
Proof.
  unfold replicas_mismatch. destruct (Replicas (Spec sts)) as [r|].
  - rewrite orb_false_iff, !negb_false_iff, !Z.eqb_eq. split.
    + intros [H1 H2] r' [= <-]. auto.
    + intros H. destruct (H r eq_refl). auto.
  - split; [intros _ r [=]|reflexivity].
Qed.

(** The generation guard, read as "the observed generation is current". *)
Lemma generation_guard (sts : StatefulSet) :
  (ObservedGeneration (Status sts) =? 0)
  || negb (Generation sts =? ObservedGeneration (Status sts)) = false ↔
  ObservedGeneration (Status sts) ≠ 0
  ∧ Generation sts = ObservedGeneration (Status sts).
Proof.
  rewrite orb_false_iff, negb_false_iff, Z.eqb_neq, Z.eqb_eq. reflexivity.
Qed.

(** C6, as the claim states it, fails: the snapshot of the claim with one
    of its three pods not ready has a current generation, a rolling update
    with partition 1, a revision split, current replicas == partition and
    updated replicas == desired - partition, and is not complete. *)
Lemma partitioned_snapshot_unready_incomplete :
  let sts := partitioned_snapshot 3 2 in
  ObservedGeneration (Status sts) ≠ 0
  ∧ Generation sts = ObservedGeneration (Status sts)
  ∧ Type_ (UpdateStrategy (Spec sts)) = RollingUpdateStatefulSetStrategyType
  ∧ RollingUpdate (UpdateStrategy (Spec sts)) = Some {| Partition := Some 1 |}
  ∧ Replicas (Spec sts) = Some 3
  ∧ 0 < 1
  ∧ CurrentRevision (Status sts) ≠ UpdateRevision (Status sts)
  ∧ CurrentReplicas (Status sts) = 1
  ∧ UpdatedReplicas (Status sts) = 3 - 1
  ∧ StatefulSetComplete sts = false.
Proof. cbn. repeat split; (discriminate || lia || reflexivity). Qed.

(** C6, amended: for a stateful set with a current (non-zero, matching)
    observed generation and the RollingUpdate strategy with a partition
    [p > 0] and [desired] replicas, [StatefulSetComplete] returns true iff
    the observed and the ready replicas both equal [desired], the current
    revision differs from the update revision, the current replicas equal
    [p] and the updated replicas equal [desired - p] (an [int32]
    difference); the snapshot (desired=3, partition=1, current=1,
    updated=2, "v1", "v2") with three observed and three ready replicas is
    complete. *)
Theorem partitioned_rollout_complete
    (sts : StatefulSet) (desired p : Z) :
  ObservedGeneration (Status sts) ≠ 0 →
  Generation sts = ObservedGeneration (Status sts) →
  Type_ (UpdateStrategy (Spec sts)) = RollingUpdateStatefulSetStrategyType →
  RollingUpdate (UpdateStrategy (Spec sts)) = Some {| Partition := Some p |} →
  Replicas (Spec sts) = Some desired →
  0 < p →
  (StatefulSetComplete sts = true ↔
     StatusReplicas (Status sts) = desired
     ∧ ReadyReplicas (Status sts) = desired
     ∧ CurrentRevision (Status sts) ≠ UpdateRevision (Status sts)
     ∧ CurrentReplicas (Status sts) = p
     ∧ UpdatedReplicas (Status sts) = GoInt.sub32 desired p)
  ∧ StatefulSetComplete (partitioned_snapshot 3 3) = true.
Proof.
  intros Hobs Hgen Hty Hru Hrep Hp. split; [|reflexivity].
  unfold StatefulSetComplete.
  destruct (generation_guard sts) as [_ Hg]. rewrite (Hg (conj Hobs Hgen)).
  assert (Hpart : partition_of sts = p).
  { unfold partition_of. rewrite Hru, Hrep. reflexivity. }
  rewrite Hty, Hpart, Hrep. cbn [String.eqb].
  change (String.eqb RollingUpdateStatefulSetStrategyType
                     OnDeleteStatefulSetStrategyType) with false.
  rewrite String.eqb_refl.
  destruct (Z.eqb_spec p 0) as [->|_]; [lia|].
  destruct (replicas_mismatch sts) eqn:Hmis.
  - split; [discriminate|]. intros (H1 & H2 & _).
    assert (replicas_mismatch sts = false) as Hf; [|congruence].
    apply replicas_mismatch_false. intros r Hr. rewrite Hrep in Hr.
    injection Hr as <-. auto.
  - destruct (replicas_mismatch_false sts) as [Hm _].
    destruct (Hm Hmis _ Hrep) as [H1 H2].
    destruct (String.eqb_spec (UpdateRevision (Status sts))
                              (CurrentRevision (Status sts))) as [Heq|Hne].
    + split; [discriminate|]. intros (_ & _ & Hrev & _). congruence.
    + destruct (Z.eqb_spec (CurrentReplicas (Status sts)) p) as [Hc|Hc];
        destruct (Z.eqb_spec (UpdatedReplicas (Status sts))
                             (GoInt.sub32 desired p)) as [Hu|Hu]; cbn;
        (split; [try discriminate; intros _; repeat split; auto; congruence
                | try reflexivity; intros (_ & _ & _ & ? & ?); congruence]).
Qed.

Lemma partitioned_rollout_complete_witness :
  StatefulSetComplete (partitioned_snapshot 3 3) = true
  ∧ StatefulSetComplete (partitioned_snapshot 3 2) = false.
Proof.
  pose proof (partitioned_rollout_complete (partitioned_snapshot 3 2) 3 1)
    as H.
  destruct H as [Hiff Hsnap];
    [discriminate|reflexivity|reflexivity|reflexivity|reflexivity|lia|].
  split; [exact Hsnap|].
  destruct (StatefulSetComplete (partitioned_snapshot 3 2)) eqn:E;
    [|reflexivity].
  destruct Hiff as [Hto _]. destruct (Hto eq_refl) as (_ & Hready & _).
  discriminate Hready.
Defined.

(** C7, as the claim states it, fails: a stateful set with a strategy kind
    that is neither RollingUpdate nor OnDelete, whose observed generation is
    current (non-zero and equal to the generation), is not complete while
    only two of its three replicas are ready. *)
Lemma unknown_strategy_unready_incomplete :
  let sts := unknown_strategy_unready_snapshot in
  Type_ (UpdateStrategy (Spec sts)) ≠ RollingUpdateStatefulSetStrategyType
  ∧ Type_ (UpdateStrategy (Spec sts)) ≠ OnDeleteStatefulSetStrategyType
  ∧ ObservedGeneration (Status sts) ≠ 0
  ∧ Generation sts = ObservedGeneration (Status sts)
  ∧ Replicas (Spec sts) = Some 3
  ∧ ReadyReplicas (Status sts) = 2
  ∧ StatefulSetComplete sts = false.
Proof. cbn. repeat split; discriminate. Qed.

(** C7, amended: a stateful set whose update-strategy kind is neither
    RollingUpdate nor OnDelete is treated like one with the OnDelete
    strategy: [StatefulSetComplete] returns true iff the observed
    generation is non-zero and equal to the generation and, where the
    replica count is set, the observed and the ready replicas both equal
    it. *)
Theorem unknown_strategy_complete (sts : StatefulSet) :
  Type_ (UpdateStrategy (Spec sts)) ≠ RollingUpdateStatefulSetStrategyType →
  Type_ (UpdateStrategy (Spec sts)) ≠ OnDeleteStatefulSetStrategyType →
  (StatefulSetComplete sts = true ↔
     ObservedGeneration (Status sts) ≠ 0
     ∧ Generation sts = ObservedGeneration (Status sts)
     ∧ ∀ r, Replicas (Spec sts) = Some r →
            StatusReplicas (Status sts) = r ∧ ReadyReplicas (Status sts) = r).
Proof.
  intros Hru Hod. unfold StatefulSetComplete.
  destruct (String.eqb_spec (Type_ (UpdateStrategy (Spec sts)))
                            OnDeleteStatefulSetStrategyType); [done|].
  destruct (String.eqb_spec (Type_ (UpdateStrategy (Spec sts)))
                            RollingUpdateStatefulSetStrategyType); [done|].
  pose proof (generation_guard sts) as Hg.
  pose proof (replicas_mismatch_false sts) as Hm.
  destruct (_ || _).
  - split; [discriminate|]. intros (H1 & H2 & _).
    destruct Hg as [_ Hg]. discriminate (Hg (conj H1 H2)).
  - destruct Hg as [Hg _]. destruct (Hg eq_refl) as [H1 H2].
    destruct (replicas_mismatch sts).
    + split; [discriminate|]. intros (_ & _ & H3).
      destruct Hm as [_ Hm]. discriminate (Hm H3).
    + destruct Hm as [Hm _]. split; [|reflexivity].
      intros _. repeat split; auto; apply (Hm eq_refl); assumption.
Qed.

Lemma unknown_strategy_complete_witness :
  StatefulSetComplete (unknown_strategy_snapshot 1) = true.
Proof.
  apply (unknown_strategy_complete (unknown_strategy_snapshot 1));
    [discriminate|discriminate|].
  cbn. split; [lia|]. split; [reflexivity|].
  intros r [= <-]. split; reflexivity.
Defined.

End StatefulsetFacts.

(* ===================================================================== *)
(** ** Properties of the spec normalizer and of the failure state machine *)
(* ===================================================================== *)

Module HandlerFacts.
Import Multitrack.

(** The state machine with the map accesses resolved, for a resource that
    is tracked under a spec with a failure allowance. *)
Lemma handleResourceFailure_tracked states spec reason st allow :
  states !! ResourceName spec = Some st →
  AllowFailuresCount spec = Some allow →
  handleResourceFailure states spec reason =
    let count := GoInt.incr (FailuresCount st) in
    let failed := {| IsFailed := true; LastFailureReason := reason;
                     FailuresCount := count |} in
    if count <=? allow then
      Returned (<[ResourceName spec := incr_FailuresCount st]> states, None)
    else if String.eqb (FailMode spec) FailWholeDeployProcessImmediately then
      Returned (<[ResourceName spec := failed]> states, Some StopTrack)
    else if String.eqb (FailMode spec) HopeUntilEndOfDeployProcess then
      Returned (<[ResourceName spec := failed]> states, None)
    else if String.eqb (FailMode spec) IgnoreAndContinueDeployProcess then
      Returned (delete (ResourceName spec) states, Some StopTrack)
    else Panicked (PanicMessage ("bad fail mode: " +:+ FailMode spec)).
Proof.
  intros Hst Hallow. unfold handleResourceFailure, assign, field, deref.
  rewrite Hst, Hallow. cbn. rewrite lookup_insert_eq. cbn.
  destruct (_ <=? _); [reflexivity|].
  repeat (destruct (String.eqb _ _); cbn;
          rewrite ?lookup_insert_eq, ?insert_insert_eq, ?delete_insert_eq;
          cbn; try reflexivity).
Qed.

Lemma handleResourceFailure_untracked states spec reason :
  states !! ResourceName spec = None →
  handleResourceFailure states spec reason = Panicked NilPointerDereference.
Proof.
  intros Hst. unfold handleResourceFailure, assign. rewrite Hst. reflexivity.
Qed.

Lemma handleResourceFailure_no_allowance states spec reason :
  AllowFailuresCount spec = None →
  handleResourceFailure states spec reason = Panicked NilPointerDereference.
Proof.
  intros Hallow. unfold handleResourceFailure, assign, field, deref.
  destruct (states !! ResourceName spec); [|reflexivity].
  cbn. rewrite lookup_insert_eq, Hallow. reflexivity.
Qed.

Lemma undefined_mode_eqb mode :
  ¬ definedFailMode mode →
  String.eqb mode FailWholeDeployProcessImmediately = false
  ∧ String.eqb mode HopeUntilEndOfDeployProcess = false
  ∧ String.eqb mode IgnoreAndContinueDeployProcess = false.
Proof.
  unfold definedFailMode. intros H.
  repeat split; apply String.eqb_neq; intros ->; apply H; auto.
Qed.

(** C9: normalization fills the absent optional fields only: an empty fail
    mode becomes FailWholeDeployProcessImmediately, an absent
    AllowFailuresCount becomes 1, an absent FailureThresholdSeconds becomes
    0, an empty ShowLogsUntil becomes PodIsReady; a field that is present
    keeps its value and every other field is unchanged.  The operation is a
    total function with no error result. *)
Theorem setDefaultSpecValues_fills_absent (spec : MultitrackSpec) :
  let spec' := setDefaultSpecValues spec in
  (FailMode spec = "" → FailMode spec' = FailWholeDeployProcessImmediately)
  ∧ (FailMode spec ≠ "" → FailMode spec' = FailMode spec)
  ∧ (AllowFailuresCount spec = None → AllowFailuresCount spec' = Some 1)
  ∧ (∀ n, AllowFailuresCount spec = Some n → AllowFailuresCount spec' = Some n)
  ∧ (FailureThresholdSeconds spec = None
     → FailureThresholdSeconds spec' = Some 0)
  ∧ (∀ n, FailureThresholdSeconds spec = Some n
          → FailureThresholdSeconds spec' = Some n)
  ∧ (ShowLogsUntil spec = "" → ShowLogsUntil spec' = PodIsReady)
  ∧ (ShowLogsUntil spec ≠ "" → ShowLogsUntil spec' = ShowLogsUntil spec)
  ∧ ResourceName spec' = ResourceName spec
  ∧ Namespace spec' = Namespace spec
  ∧ LogWatchRegex spec' = LogWatchRegex spec
  ∧ LogWatchRegexByContainerName spec' = LogWatchRegexByContainerName spec
  ∧ SkipLogsForContainers spec' = SkipLogsForContainers spec
  ∧ ShowLogsOnlyForContainers spec' = ShowLogsOnlyForContainers spec.
Proof.
  cbn. repeat split; try reflexivity.
  - intros ->. reflexivity.
  - intros Hne. apply String.eqb_neq in Hne. rewrite Hne. reflexivity.
  - intros ->. reflexivity.
  - intros n ->. reflexivity.
  - intros ->. reflexivity.
  - intros n ->. reflexivity.
  - intros ->. reflexivity.
  - intros Hne. apply String.eqb_neq in Hne. rewrite Hne. reflexivity.
Qed.

Lemma setDefaultSpecValues_fills_absent_witness :
  setDefaultSpecValues explicitSpec = explicitSpec
  ∧ FailMode (setDefaultSpecValues (bareSpec "db" "" None))
    = FailWholeDeployProcessImmediately
  ∧ AllowFailuresCount (setDefaultSpecValues (bareSpec "db" "" None)) = Some 1
  ∧ FailureThresholdSeconds (setDefaultSpecValues (bareSpec "db" "" None))
    = Some 0
  ∧ ShowLogsUntil (setDefaultSpecValues (bareSpec "db" "" None)) = PodIsReady.
Proof.
  split; [reflexivity|].
  destruct (setDefaultSpecValues_fills_absent (bareSpec "db" "" None))
    as (Hmode & _ & Hallow & _ & Hthreshold & _ & Hlogs & _).
  split; [apply Hmode; reflexivity|].
  split; [apply Hallow; reflexivity|].
  split; [apply Hthreshold; reflexivity|apply Hlogs; reflexivity].
Defined.

(** Normalizing twice is normalizing once. *)
Lemma setDefaultSpecValues_idempotent (spec : MultitrackSpec) :
  setDefaultSpecValues (setDefaultSpecValues spec) = setDefaultSpecValues spec.
Proof.
  unfold setDefaultSpecValues. cbn.
  destruct (String.eqb_spec (FailMode spec) "") as [?|Hm];
    destruct (String.eqb_spec (ShowLogsUntil spec) "") as [?|Hl];
    destruct (AllowFailuresCount spec), (FailureThresholdSeconds spec); cbn;
    try (apply String.eqb_neq in Hm; rewrite Hm);
    try (apply String.eqb_neq in Hl; rewrite Hl); reflexivity.
Qed.

(** C4: a failure notification for a tracked resource whose counter is
    below the largest [int] adds exactly one to FailuresCount, whatever the
    fail mode, so the counter does not decrease; no other resource is
    touched; and when the incremented count is still within
    AllowFailuresCount the handler returns [nil] (continue watching) and
    leaves IsFailed, LastFailureReason and the membership of the resource in
    the tracked set as they were. *)
Theorem failure_counted_once
    (states : gmap string multitrackerResourceState)
    (spec : MultitrackSpec) (reason : string)
    (st : multitrackerResourceState) (allow : Z) :
  states !! ResourceName spec = Some st →
  AllowFailuresCount spec = Some allow →
  GoInt.min_int <= FailuresCount st < GoInt.max_int →
  (FailuresCount st + 1 <= allow →
     handleResourceFailure states spec reason =
       Returned (<[ResourceName spec :=
                     {| IsFailed := IsFailed st;
                        LastFailureReason := LastFailureReason st;
                        FailuresCount := FailuresCount st + 1 |}]> states,
                 None))
  ∧ (∀ states' action,
       handleResourceFailure states spec reason = Returned (states', action) →
       (∀ other, other ≠ ResourceName spec →
                 states' !! other = states !! other)
       ∧ (∀ st', states' !! ResourceName spec = Some st' →
                 FailuresCount st' = FailuresCount st + 1
                 ∧ FailuresCount st <= FailuresCount st'))
  ∧ ((∃ result, handleResourceFailure states spec reason = Returned result)
     ∨ (allow < FailuresCount st + 1
        ∧ ¬ definedFailMode (FailMode spec)
        ∧ handleResourceFailure states spec reason
          = Panicked (PanicMessage ("bad fail mode: " +:+ FailMode spec)))).
Proof.
  intros Hst Hallow Hrange.
  rewrite !(handleResourceFailure_tracked _ _ reason _ _ Hst Hallow).
  cbn zeta. rewrite (GoIntFacts.incr_exact _ Hrange).
  unfold incr_FailuresCount. rewrite (GoIntFacts.incr_exact _ Hrange).
  split; [|split].
  - intros Hle. apply Z.leb_le in Hle. rewrite Hle. reflexivity.
  - intros states' action.
    destruct (_ <=? _);
      [|destruct (String.eqb _ _);
        [|destruct (String.eqb _ _); [|destruct (String.eqb _ _)]]];
      intros [= <- <-] || intros [=]; (split;
        [intros other Hne;
         rewrite ?lookup_insert_ne, ?lookup_delete_ne by congruence;
         reflexivity
        |intros st';
         rewrite ?lookup_insert_eq, ?lookup_delete_eq;
         intros [= <-]; cbn; lia]).
  - destruct (Z.leb_spec (FailuresCount st + 1) allow); [eauto|].
    destruct (String.eqb_spec (FailMode spec)
                              FailWholeDeployProcessImmediately); [eauto|].
    destruct (String.eqb_spec (FailMode spec)
                              HopeUntilEndOfDeployProcess); [eauto|].
    destruct (String.eqb_spec (FailMode spec)
                              IgnoreAndContinueDeployProcess); [eauto|].
    right. split; [lia|]. split; [|reflexivity].
    unfold definedFailMode. intuition congruence.
Qed.

Lemma failure_counted_once_witness :
  handleResourceFailure {[ "web" := zeroState ]}
                        (bareSpec "web" HopeUntilEndOfDeployProcess (Some 1))
                        "readiness probe failed"
  = Returned (<[ "web" := {| IsFailed := false; LastFailureReason := "";
                             FailuresCount := 0 + 1 |} ]>
                {[ "web" := zeroState ]}, None).
Proof.
  destruct (failure_counted_once
              {[ "web" := zeroState ]}
              (bareSpec "web" HopeUntilEndOfDeployProcess (Some 1))
              "readiness probe failed" zeroState 1) as [Habsorbed _].
  - reflexivity.
  - reflexivity.
  - unfold GoInt.min_int, GoInt.max_int, GoInt.min_signed, GoInt.max_signed,
      GoInt.int_size. cbn. lia.
  - apply Habsorbed. cbn. lia.
Defined.

(** The invalid-fail-mode panic has one cause only. *)
Lemma bad_fail_mode_panic_inv states spec reason msg :
  handleResourceFailure states spec reason = Panicked (PanicMessage msg) →
  ∃ st allow,
    states !! ResourceName spec = Some st
    ∧ AllowFailuresCount spec = Some allow
    ∧ allow < GoInt.incr (FailuresCount st)
    ∧ ¬ definedFailMode (FailMode spec)
    ∧ msg = "bad fail mode: " +:+ FailMode spec.
Proof.
  destruct (states !! ResourceName spec) as [st|] eqn:Hst;
    [|rewrite handleResourceFailure_untracked by done; discriminate].
  destruct (AllowFailuresCount spec) as [allow|] eqn:Hallow;
    [|rewrite handleResourceFailure_no_allowance by done; discriminate].
  rewrite (handleResourceFailure_tracked _ _ reason _ _ Hst Hallow). cbn zeta.
  destruct (Z.leb_spec (GoInt.incr (FailuresCount st)) allow); [discriminate|].
  destruct (String.eqb_spec (FailMode spec)
                            FailWholeDeployProcessImmediately); [discriminate|].
  destruct (String.eqb_spec (FailMode spec)
                            HopeUntilEndOfDeployProcess); [discriminate|].
  destruct (String.eqb_spec (FailMode spec)
                            IgnoreAndContinueDeployProcess); [discriminate|].
  intros [= <-]. exists st, allow. repeat split; auto.
  unfold definedFailMode. intuition congruence.
Qed.

(** C10: under a spec whose FailMode is none of the three defined values, a
    failure of a tracked resource whose incremented FailuresCount is still
    within AllowFailuresCount is absorbed (the handler returns [nil] and
    does not panic), and the handler panics with "bad fail mode" exactly
    when the incremented count exceeds the allowance. *)
Theorem undefined_mode_panics_beyond_tolerance_only
    (states : gmap string multitrackerResourceState)
    (spec : MultitrackSpec) (reason : string)
    (st : multitrackerResourceState) (allow : Z) :
  ¬ definedFailMode (FailMode spec) →
  states !! ResourceName spec = Some st →
  AllowFailuresCount spec = Some allow →
  (GoInt.incr (FailuresCount st) <= allow →
     handleResourceFailure states spec reason =
       Returned (<[ResourceName spec := incr_FailuresCount st]> states, None))
  ∧ (handleResourceFailure states spec reason
       = Panicked (PanicMessage ("bad fail mode: " +:+ FailMode spec))
     ↔ allow < GoInt.incr (FailuresCount st)).
Proof.
  intros Hmode Hst Hallow.
  rewrite (handleResourceFailure_tracked _ _ reason _ _ Hst Hallow). cbn zeta.
  destruct (undefined_mode_eqb _ Hmode) as (-> & -> & ->).
  destruct (Z.leb_spec (GoInt.incr (FailuresCount st)) allow).
  - split; [reflexivity|]. split; [discriminate|lia].
  - split; [lia|]. split; [intros _; assumption|reflexivity].
Qed.

Lemma undefined_mode_panics_beyond_tolerance_only_witness :
  handleResourceFailure {[ "web" := zeroState ]}
                        (bareSpec "web" "FailFast" (Some 1)) "oom killed"
  = Returned (<[ "web" := incr_FailuresCount zeroState ]>
                {[ "web" := zeroState ]}, None)
  ∧ handleResourceFailure {[ "web" := incr_FailuresCount zeroState ]}
                          (bareSpec "web" "FailFast" (Some 1)) "oom killed"
    = Panicked (PanicMessage "bad fail mode: FailFast").
Proof.
  split.
  - apply (undefined_mode_panics_beyond_tolerance_only
             {[ "web" := zeroState ]} (bareSpec "web" "FailFast" (Some 1))
             "oom killed" zeroState 1).
    + unfold definedFailMode. cbn. intros [H|[H|H]]; discriminate H.
    + reflexivity.
    + reflexivity.
    + vm_compute. discriminate.
  - apply (undefined_mode_panics_beyond_tolerance_only
             {[ "web" := incr_FailuresCount zeroState ]}
             (bareSpec "web" "FailFast" (Some 1))
             "oom killed" (incr_FailuresCount zeroState) 1).
    + unfold definedFailMode. cbn. intros [H|[H|H]]; discriminate H.
    + reflexivity.
    + reflexivity.
    + vm_compute. reflexivity.
Defined.

End HandlerFacts.

(* ===================================================================== *)
(** ** Properties of the aggregation and of the completion step *)
(* ===================================================================== *)

Module AggregationFacts.
Import Multitrack.

Lemma elem_of_concat {A} (x : A) (ls : list (list A)) :
  x ∈ concat ls ↔ ∃ l, x ∈ l ∧ l ∈ ls.
Proof.
  rewrite list_elem_of_In, in_concat. split.
  - intros (l & Hl & Hx). exists l. by rewrite !list_elem_of_In.
  - intros (l & Hx & Hl). exists l. by rewrite <- !list_elem_of_In.
Qed.

Section Ranging.
Context `{R : MapRange}.

Lemma elem_of_range {A} (m : gmap string A) (name : string) (a : A) :
  (name, a) ∈ range m ↔ m !! name = Some a.
Proof. rewrite (range_perm A m). apply elem_of_map_to_list. Qed.

Lemma NoDup_range_keys {A} (m : gmap string A) : NoDup (range m).*1.
Proof. rewrite (range_perm A m). apply NoDup_fst_map_to_list. Qed.

Lemma NoDup_range {A} (m : gmap string A) : NoDup (range m).
Proof. rewrite (range_perm A m). apply NoDup_map_to_list. Qed.

Lemma anyState_true p states :
  anyState p states = true ↔
  ∃ name st, states !! name = Some st ∧ p st = true.
Proof.
  unfold anyState. rewrite existsb_exists. split.
  - intros ([name st] & Hin & Hp). exists name, st. split; [|done].
    apply elem_of_range, list_elem_of_In, Hin.
  - intros (name & st & Hst & Hp). exists (name, st). split; [|done].
    apply list_elem_of_In, elem_of_range, Hst.
Qed.

Lemma trackedSets_tracking mt :
  trackedSets mt = (λ k, tracking k mt) <$> kinds.
Proof. reflexivity. Qed.

(** The run has failed resources iff some tracked resource of some kind
    is marked failed. *)
Lemma hasFailedTrackingResources_true mt :
  hasFailedTrackingResources mt = true ↔
  ∃ k name st, tracking k mt !! name = Some st ∧ IsFailed st = true.
Proof.
  unfold hasFailedTrackingResources.
  rewrite existsb_exists, trackedSets_tracking. split.
  - intros (states & Hin & Hany).
    apply list_elem_of_In, list_elem_of_fmap in Hin as (k & -> & _).
    apply anyState_true in Hany as (name & st & ? & ?). eauto.
  - intros (k & name & st & Hst & Hf). exists (tracking k mt). split.
    + apply list_elem_of_In, list_elem_of_fmap. exists k. split; [done|].
      destruct k; unfold kinds; set_solver.
    + apply anyState_true. eauto.
Qed.

Lemma appendFailed_fold (abbr : string) (k : kind)
    (entries : list (string * multitrackerResourceState))
    (msgParts : list string) :
  abbr = abbrev k →
  foldl (λ msgParts '(name, state),
           if negb (IsFailed state) then msgParts
           else msgParts ++
                  [abbr +:+ "/" +:+ name +:+ " failed: "
                     +:+ LastFailureReason state])
        msgParts entries
  = msgParts ++
      (failedEntryLine
         <$> ((λ '(name, state), (k, name, state))
                <$> filter (λ '(_, state), IsFailed state = true) entries)).
Proof.
  intros ->. revert msgParts.
  induction entries as [|[name state] entries IH]; intros msgParts.
  - cbn. by rewrite app_nil_r.
  - rewrite filter_cons. cbn [foldl]. rewrite IH.
    case_decide as Hf; cbn in Hf.
    + rewrite Hf. cbn. rewrite <- app_assoc. reflexivity.
    + apply not_true_is_false in Hf. rewrite Hf. reflexivity.
Qed.

Lemma appendFailed_failedOf (k : kind) mt msgParts :
  appendFailed (abbrev k) (tracking k mt) msgParts
  = msgParts ++ (failedEntryLine <$> failedOf k mt).
Proof. unfold appendFailed, failedOf. by apply appendFailed_fold. Qed.

(** The parts of the final error are the lines of the failed resources. *)
Lemma failedMsgParts_failedResources mt :
  failedMsgParts mt = failedEntryLine <$> failedResources mt.
Proof.
  unfold failedMsgParts, failedResources, kinds.
  rewrite (appendFailed_failedOf Pod), (appendFailed_failedOf Deployment),
    (appendFailed_failedOf StatefulSet), (appendFailed_failedOf DaemonSet),
    (appendFailed_failedOf Job).
  cbn. rewrite !fmap_app, app_nil_r, <- !app_assoc. reflexivity.
Qed.

Lemma elem_of_failedOf k k' name st mt :
  (k', name, st) ∈ failedOf k mt ↔
  k' = k ∧ tracking k mt !! name = Some st ∧ IsFailed st = true.
Proof.
  unfold failedOf. rewrite list_elem_of_fmap. split.
  - intros ([name' st'] & [= -> -> ->] & Hin).
    apply list_elem_of_filter in Hin as [Hf Hin].
    apply elem_of_range in Hin. auto.
  - intros (-> & Hst & Hf). exists (name, st). split; [done|].
    apply list_elem_of_filter. split; [done|]. by apply elem_of_range.
Qed.

Lemma elem_of_failedResources k name st mt :
  (k, name, st) ∈ failedResources mt ↔
  tracking k mt !! name = Some st ∧ IsFailed st = true.
Proof.
  unfold failedResources. rewrite elem_of_concat. split.
  - intros (l & Hin & Hl). apply list_elem_of_fmap in Hl as (k' & -> & _).
    apply elem_of_failedOf in Hin as (-> & ? & ?). auto.
  - intros [Hst Hf]. exists (failedOf k mt). split.
    + by apply elem_of_failedOf.
    + apply list_elem_of_fmap. exists k. split; [done|].
      destruct k; unfold kinds; set_solver.
Qed.

End Ranging.

Lemma NoDup_concat_tagged {A K} (tag : A → K) (f : K → list A) (ks : list K) :
  NoDup ks →
  (∀ k, NoDup (f k)) →
  (∀ k x, x ∈ f k → tag x = k) →
  NoDup (concat (f <$> ks)).
Proof.
  intros Hks Hf Htag. induction Hks as [|k ks Hk Hks IH]; cbn.
  - constructor.
  - apply NoDup_app. split; [apply Hf|]. split; [|apply IH].
    intros x Hx Hin. apply elem_of_concat in Hin as (l & Hxl & Hl).
    apply list_elem_of_fmap in Hl as (k' & -> & Hk').
    rewrite <- (Htag _ _ Hx), (Htag _ _ Hxl) in Hk. contradiction.
Qed.

Lemma NoDup_kinds : NoDup kinds.
Proof.
  unfold kinds.
  repeat (apply NoDup_cons; split;
          [rewrite ?elem_of_cons, elem_of_nil; intuition discriminate|]).
  apply NoDup_nil_2.
Qed.

Lemma tracking_set_tracking k states mt :
  tracking k (set_tracking k states mt) = states.
Proof. destruct k; reflexivity. Qed.

Lemma tracking_set_tracking_ne k k' states mt :
  k ≠ k' → tracking k' (set_tracking k states mt) = tracking k' mt.
Proof. destruct k, k'; intros Hne; try reflexivity; contradiction. Qed.

Section Aggregating.
Context `{R : MapRange}.

Lemma NoDup_failedOf k mt : NoDup (failedOf k mt).
Proof.
  unfold failedOf. apply NoDup_fmap_2_strong.
  - intros [n1 s1] [n2 s2] _ _ [= -> ->]. reflexivity.
  - apply NoDup_filter, NoDup_range.
Qed.

Lemma NoDup_failedResources mt : NoDup (failedResources mt).
Proof.
  unfold failedResources.
  apply (NoDup_concat_tagged (λ entry, entry.1.1)).
  - apply NoDup_kinds.
  - intros k. apply NoDup_failedOf.
  - intros k [[k' name] st] Hin.
    apply elem_of_failedOf in Hin as (-> & _). reflexivity.
Qed.

(** A resource is listed once, with the state the tracked set has for
    it. *)
Lemma failedResources_functional k name st1 st2 mt :
  (k, name, st1) ∈ failedResources mt →
  (k, name, st2) ∈ failedResources mt → st1 = st2.
Proof.
  rewrite !elem_of_failedResources. intros [H1 _] [H2 _]. congruence.
Qed.

(** The report changes nothing but the shown messages. *)
Lemma PrintStatusReport_tracker mt :
  (PrintStatusReport mt).1.2
  = set_ShownDeploymentMessages (printDeployments mt).2 mt.
Proof.
  unfold PrintStatusReport. destruct (printDeployments mt). reflexivity.
Qed.

Lemma PrintStatusReport_error mt : (PrintStatusReport mt).2 = None.
Proof.
  unfold PrintStatusReport. destruct (printDeployments mt). reflexivity.
Qed.

Lemma PrintStatusReport_tracking k mt :
  tracking k (PrintStatusReport mt).1.2 = tracking k mt.
Proof. rewrite PrintStatusReport_tracker. destruct k; reflexivity. Qed.

End Aggregating.

(** The verdict of the completion step is decided by the tracked sets as
    the watchers left them. *)
Lemma completion_verdict (Rreport Rcheck Rformat : MapRange) mt :
  (completion Rreport Rcheck Rformat mt).2
  = if @hasFailedTrackingResources Rcheck mt
    then Some (@formatFailedTrackingResourcesError Rformat mt)
    else None.
Proof.
  unfold completion.
  pose proof (@PrintStatusReport_tracker Rreport mt) as Ht.
  pose proof (@PrintStatusReport_error Rreport mt) as He.
  destruct (@PrintStatusReport Rreport mt) as [[out mt'] err].
  cbn in Ht, He. subst mt' err.
  change (@hasFailedTrackingResources Rcheck
            (set_ShownDeploymentMessages (@printDeployments Rreport mt).2 mt))
    with (@hasFailedTrackingResources Rcheck mt).
  change (@formatFailedTrackingResourcesError Rformat
            (set_ShownDeploymentMessages (@printDeployments Rreport mt).2 mt))
    with (@formatFailedTrackingResourcesError Rformat mt).
  destruct (@hasFailedTrackingResources Rcheck mt); reflexivity.
Qed.

Lemma append_empty_r (s : string) : s +:+ "" = s.
Proof.
  induction s as [|a s IH]; [reflexivity|].
  change (String a (s +:+ "") = String a s). by f_equal.
Qed.

Lemma append_assoc (s1 s2 s3 : string) :
  (s1 +:+ s2) +:+ s3 = s1 +:+ s2 +:+ s3.
Proof.
  induction s1 as [|a s1 IH]; [reflexivity|].
  change (String a ((s1 +:+ s2) +:+ s3) = String a (s1 +:+ s2 +:+ s3)).
  by f_equal.
Qed.

(** A string that is one of the joined parts is a piece of the whole. *)
Lemma concat_contains (sep part : string) (parts : list string) :
  part ∈ parts →
  ∃ before after, String.concat sep parts = before +:+ part +:+ after.
Proof.
  induction parts as [|p parts IH]; [by intros ?%elem_of_nil|].
  intros Hin. apply elem_of_cons in Hin as [->|Hin].
  - exists "". destruct parts as [|q parts]; cbn.
    + exists "". by rewrite append_empty_r.
    + eexists. reflexivity.
  - destruct (IH Hin) as (before & after & Heq).
    destruct parts as [|q parts]; [by apply elem_of_nil in Hin|].
    exists (p +:+ sep +:+ before), after.
    change (String.concat sep (p :: q :: parts))
      with (p +:+ sep +:+ String.concat sep (q :: parts)).
    rewrite Heq.
    by rewrite !append_assoc.
Qed.

(** C5: the final aggregated error is the newline-joined list of the lines
    "<kind>/<name> failed: <reason>" of exactly the tracked resources whose
    IsFailed flag is true, each once and with its last recorded failure
    reason; a resource that is not failed or not tracked any more has no
    line; and this is the error the completion step sends when some
    tracked resource is failed. *)
Theorem final_error_lists_failed (R : MapRange) (mt : multitracker) :
  ∃ failed : list (kind * string * multitrackerResourceState),
    @formatFailedTrackingResourcesError R mt
    = Errorf (String.concat nl (failedEntryLine <$> failed))
    ∧ (∀ k name st,
         failedEntryLine (k, name, st)
         = abbrev k +:+ "/" +:+ name +:+ " failed: "
             +:+ LastFailureReason st)
    ∧ NoDup failed
    ∧ (∀ k name st,
         (k, name, st) ∈ failed ↔
         tracking k mt !! name = Some st ∧ IsFailed st = true)
    ∧ (∀ Rreport Rcheck,
         (failed ≠ [] →
            (completion Rreport Rcheck R mt).2
            = Some (Errorf (String.concat nl (failedEntryLine <$> failed))))
         ∧ (failed = [] → (completion Rreport Rcheck R mt).2 = None)).
Proof.
  exists (@failedResources R mt).
  split; [|split; [|split; [|split]]].
  - unfold formatFailedTrackingResourcesError.
    by rewrite failedMsgParts_failedResources.
  - reflexivity.
  - apply NoDup_failedResources.
  - intros k name st. apply elem_of_failedResources.
  - intros Rreport Rcheck. rewrite completion_verdict.
    unfold formatFailedTrackingResourcesError.
    rewrite failedMsgParts_failedResources.
    destruct (@hasFailedTrackingResources Rcheck mt) eqn:Hfailed.
    + split; [reflexivity|]. intros Hnil.
      apply hasFailedTrackingResources_true in Hfailed
        as (k & name & st & Hst & Hf).
      assert ((k, name, st) ∈ @failedResources R mt) as Hin
          by (by apply elem_of_failedResources).
      rewrite Hnil in Hin. by apply elem_of_nil in Hin.
    + split; [|reflexivity]. intros Hne.
      destruct (@failedResources R mt) as [|[[k name] st] rest] eqn:Hl;
        [done|].
      assert ((k, name, st) ∈ @failedResources R mt) as Hin
          by (rewrite Hl; apply list_elem_of_here).
      apply elem_of_failedResources in Hin as [Hst Hf].
      assert (@hasFailedTrackingResources Rcheck mt = true) as Ht
          by (apply hasFailedTrackingResources_true; eauto).
      congruence.
Qed.

Lemma hasFailedTrackingResources_ext (R : MapRange) mt1 mt2 :
  (∀ k, (∃ name st, tracking k mt1 !! name = Some st ∧ IsFailed st = true)
        ↔ (∃ name st, tracking k mt2 !! name = Some st ∧ IsFailed st = true)) →
  @hasFailedTrackingResources R mt1 = @hasFailedTrackingResources R mt2.
Proof.
  intros Hext. apply Bool.eq_iff_eq_true.
  rewrite !hasFailedTrackingResources_true. split.
  - intros (k & name & st & H). destruct (Hext k) as [Hto _].
    destruct Hto as (name' & st' & H'); eauto.
  - intros (k & name & st & H). destruct (Hext k) as [_ Hfrom].
    destruct Hfrom as (name' & st' & H'); eauto.
Qed.

(** The handler touches the resource it is called for only. *)
Lemma handleResourceFailure_other states spec reason states' action name :
  handleResourceFailure states spec reason = Returned (states', action) →
  name ≠ ResourceName spec → states' !! name = states !! name.
Proof.
  intros Hret Hne.
  destruct (states !! ResourceName spec) as [st|] eqn:Hst;
    [|by rewrite HandlerFacts.handleResourceFailure_untracked in Hret].
  destruct (AllowFailuresCount spec) as [allow|] eqn:Hallow;
    [|by rewrite HandlerFacts.handleResourceFailure_no_allowance in Hret].
  rewrite (HandlerFacts.handleResourceFailure_tracked
             _ _ reason _ _ Hst Hallow) in Hret.
  cbn zeta in Hret.
  repeat (match type of Hret with
          | (if ?c then _ else _) = _ => destruct c
          end);
    try discriminate; injection Hret as <- <-;
    by rewrite ?lookup_insert_ne, ?lookup_delete_ne.
Qed.

Lemma resourceFailed_other k' spec reason mt mt' action k name :
  resourceFailed k' spec reason mt = Returned (mt', action) →
  (k', ResourceName spec) ≠ (k, name) →
  tracking k mt' !! name = tracking k mt !! name.
Proof.
  unfold resourceFailed. intros Hret Hother.
  destruct (handleResourceFailure (tracking k' mt) spec reason)
    as [[states act]|] eqn:Hh; [|discriminate].
  cbn in Hret. injection Hret as <- <-.
  destruct (decide (k' = k)) as [->|Hne].
  - rewrite tracking_set_tracking.
    eapply handleResourceFailure_other; [exact Hh|congruence].
  - by rewrite tracking_set_tracking_ne.
Qed.

Lemma resourceReady_other k' spec mt k name :
  (k', ResourceName spec) ≠ (k, name) →
  tracking k (resourceReady k' spec mt).1 !! name = tracking k mt !! name.
Proof.
  unfold resourceReady, handleResourceReadyCondition. cbn. intros Hother.
  destruct (decide (k' = k)) as [->|Hne].
  - rewrite tracking_set_tracking. apply lookup_delete_ne. congruence.
  - by rewrite tracking_set_tracking_ne.
Qed.

(** What the watchers report about other resources leaves a resource as it
    is. *)
Lemma deliver_other events mt mt' k name :
  Forall (λ event, resourceOf event ≠ (k, name)) events →
  deliver events mt = Returned mt' →
  tracking k mt' !! name = tracking k mt !! name.
Proof.
  intros Hothers. revert mt.
  induction Hothers as [|[k' spec reason|k' spec] events Hother _ IH];
    intros mt Hrun; cbn in Hrun.
  - by injection Hrun as <-.
  - destruct (resourceFailed k' spec reason mt) as [[mt1 act]|] eqn:Hf;
      [|discriminate].
    cbn in Hrun. rewrite (IH mt1 Hrun).
    eapply resourceFailed_other; eauto.
  - rewrite (IH _ Hrun). by apply resourceReady_other.
Qed.

(** The two failures under FailWholeDeployProcessImmediately with
    AllowFailuresCount = 1, as the handler and the completion step see
    them: the first returns [nil] and marks nothing failed; the second sets
    IsFailed, records the reason and returns [tracker.StopTrack], and after
    it the completion step answers with the aggregated error, one of whose
    lines is that of the resource. *)
Lemma fail_immediately_handler
    (Rreport Rcheck Rformat : MapRange) (k : kind) (spec : MultitrackSpec)
    (reason1 reason2 : string) :
  FailMode spec = FailWholeDeployProcessImmediately →
  AllowFailuresCount spec = Some 1 →
  let first := {| IsFailed := false; LastFailureReason := "";
                  FailuresCount := 1 |} in
  let second := {| IsFailed := true; LastFailureReason := reason2;
                   FailuresCount := 2 |} in
  (∀ mt, tracking k mt !! ResourceName spec = Some zeroState →
     ∃ mt1,
       resourceFailed k spec reason1 mt = Returned (mt1, None)
       ∧ tracking k mt1 !! ResourceName spec = Some first
       ∧ @hasFailedTrackingResources Rcheck mt1
         = @hasFailedTrackingResources Rcheck mt
       ∧ ((completion Rreport Rcheck Rformat mt).2 = None →
          (completion Rreport Rcheck Rformat mt1).2 = None))
  ∧ (∀ mt1, tracking k mt1 !! ResourceName spec = Some first →
       ∃ mt2,
         resourceFailed k spec reason2 mt1 = Returned (mt2, Some StopTrack)
         ∧ tracking k mt2 !! ResourceName spec = Some second
         ∧ ∀ events mt3,
             Forall (λ event, resourceOf event ≠ (k, ResourceName spec))
                    events →
             deliver events mt2 = Returned mt3 →
             ∃ parts before after,
               (completion Rreport Rcheck Rformat mt3).2
               = Some (Errorf (String.concat nl parts))
               ∧ failedLine k (ResourceName spec) second ∈ parts
               ∧ String.concat nl parts
                 = before +:+ (abbrev k +:+ "/" +:+ ResourceName spec
                                 +:+ " failed: " +:+ reason2) +:+ after).
Proof.
  intros Hmode Hallow first second. split.
  - intros mt Hst.
    exists (set_tracking k (<[ResourceName spec := first]> (tracking k mt)) mt).
    assert (@hasFailedTrackingResources Rcheck
              (set_tracking k (<[ResourceName spec := first]> (tracking k mt)) mt)
            = @hasFailedTrackingResources Rcheck mt) as Hsame.
    { apply hasFailedTrackingResources_ext. intros k'.
      destruct (decide (k = k')) as [<-|Hne].
      - rewrite tracking_set_tracking.
        split; intros (name & st & Hl & Hf);
          destruct (decide (name = ResourceName spec)) as [->|Hn].
        + rewrite lookup_insert_eq in Hl. injection Hl as <-. discriminate.
        + rewrite lookup_insert_ne in Hl by done. eauto.
        + rewrite Hst in Hl. injection Hl as <-. discriminate.
        + exists name, st. by rewrite lookup_insert_ne.
      - by rewrite tracking_set_tracking_ne. }
    split; [|split; [|split]].
    + unfold resourceFailed.
      rewrite (HandlerFacts.handleResourceFailure_tracked
                 _ _ reason1 _ _ Hst Hallow).
      reflexivity.
    + rewrite tracking_set_tracking. apply lookup_insert_eq.
    + exact Hsame.
    + rewrite !completion_verdict, Hsame.
      destruct (@hasFailedTrackingResources Rcheck mt); [discriminate|done].
  - intros mt1 Hst.
    set (mt2 := set_tracking k
                  (<[ResourceName spec := second]> (tracking k mt1)) mt1).
    assert (tracking k mt2 !! ResourceName spec = Some second) as Hsecond.
    { unfold mt2. rewrite tracking_set_tracking. apply lookup_insert_eq. }
    exists mt2. split; [|split; [exact Hsecond|]].
    + unfold resourceFailed.
      rewrite (HandlerFacts.handleResourceFailure_tracked
                 _ _ reason2 _ _ Hst Hallow).
      cbn zeta. rewrite Hmode. reflexivity.
    + intros events mt3 Hothers Hrun.
      assert (tracking k mt3 !! ResourceName spec = Some second) as Hthird
          by (by rewrite (deliver_other _ _ _ _ _ Hothers Hrun)).
      assert (failedLine k (ResourceName spec) second
                ∈ @failedMsgParts Rformat mt3) as Hin.
      { rewrite failedMsgParts_failedResources. apply list_elem_of_fmap.
        exists (k, ResourceName spec, second). split; [reflexivity|].
        by apply elem_of_failedResources. }
      destruct (concat_contains nl _ _ Hin) as (before & after & Hpiece).
      exists (@failedMsgParts Rformat mt3), before, after.
      split; [|split; [exact Hin|exact Hpiece]].
      rewrite completion_verdict.
      assert (@hasFailedTrackingResources Rcheck mt3 = true) as ->
          by (apply hasFailedTrackingResources_true; eauto).
      reflexivity.
Qed.


(** The handler leaves the resources it is not called for alone, and brings
    none back. *)
Lemma handleResourceFailure_absent states spec reason states' action name :
  handleResourceFailure states spec reason = Returned (states', action) →
  states !! name = None → states' !! name = None.
Proof.
  intros Hret Hnone.
  destruct (states !! ResourceName spec) as [st|] eqn:Hst;
    [|by rewrite HandlerFacts.handleResourceFailure_untracked in Hret].
  destruct (AllowFailuresCount spec) as [allow|] eqn:Hallow;
    [|by rewrite HandlerFacts.handleResourceFailure_no_allowance in Hret].
  assert (ResourceName spec ≠ name) as Hne by congruence.
  rewrite (HandlerFacts.handleResourceFailure_tracked
             _ _ reason _ _ Hst Hallow) in Hret.
  cbn zeta in Hret.
  repeat (match type of Hret with
          | (if ?c then _ else _) = _ => destruct c
          end);
    try discriminate; injection Hret as <- <-;
    by rewrite ?lookup_insert_ne, ?lookup_delete_ne.
Qed.

Lemma resourceFailed_absent k' spec reason mt mt' action k name :
  resourceFailed k' spec reason mt = Returned (mt', action) →
  tracking k mt !! name = None → tracking k mt' !! name = None.
Proof.
  unfold resourceFailed. intros Hret Hnone.
  destruct (handleResourceFailure (tracking k' mt) spec reason)
    as [[states act]|] eqn:Hh; [|discriminate].
  cbn in Hret. injection Hret as <- <-.
  destruct (decide (k' = k)) as [->|Hne].
  - rewrite tracking_set_tracking.
    eapply handleResourceFailure_absent; eauto.
  - by rewrite tracking_set_tracking_ne.
Qed.

Lemma resourceReady_absent k' spec mt k name :
  tracking k mt !! name = None →
  tracking k (resourceReady k' spec mt).1 !! name = None.
Proof.
  unfold resourceReady, handleResourceReadyCondition. cbn. intros Hnone.
  destruct (decide (k' = k)) as [->|Hne].
  - rewrite tracking_set_tracking.
    destruct (decide (ResourceName spec = name)) as [->|Hn].
    + apply lookup_delete_eq.
    + by rewrite lookup_delete_ne.
  - by rewrite tracking_set_tracking_ne.
Qed.

(** Once a resource is out of its tracked set, nothing the watchers report
    brings it back. *)
Lemma deliver_absent events mt mt' k name :
  deliver events mt = Returned mt' →
  tracking k mt !! name = None → tracking k mt' !! name = None.
Proof.
  revert mt. induction events as [|[k' spec reason|k' spec] events IH];
    intros mt Hrun Hnone; cbn in Hrun.
  - by injection Hrun as <-.
  - destruct (resourceFailed k' spec reason mt) as [[mt1 act]|] eqn:Hf;
      [|discriminate].
    cbn in Hrun. apply (IH mt1 Hrun).
    eapply resourceFailed_absent; eauto.
  - apply (IH _ Hrun). by apply resourceReady_absent.
Qed.

(** C2: under HopeUntilEndOfDeployProcess, a failure of a tracked resource
    that takes its failure count beyond AllowFailuresCount sets IsFailed,
    records the reason and returns [nil] (keep watching), the resource
    staying in the tracked set and every other resource as it was; and the
    completion step, which runs once all watchers have finished, ends the
    run with an error iff some tracked resource has IsFailed set then. *)
Theorem hope_until_end_latches
    (k : kind) (mt : multitracker) (spec : MultitrackSpec) (reason : string)
    (st : multitrackerResourceState) (allow : Z) :
  FailMode spec = HopeUntilEndOfDeployProcess →
  AllowFailuresCount spec = Some allow →
  tracking k mt !! ResourceName spec = Some st →
  allow < GoInt.incr (FailuresCount st) →
  (∃ mt',
     resourceFailed k spec reason mt = Returned (mt', None)
     ∧ tracking k mt' !! ResourceName spec
       = Some {| IsFailed := true; LastFailureReason := reason;
                 FailuresCount := GoInt.incr (FailuresCount st) |}
     ∧ (∀ name, name ≠ ResourceName spec →
                tracking k mt' !! name = tracking k mt !! name)
     ∧ (∀ k', k' ≠ k → tracking k' mt' = tracking k' mt))
  ∧ (∀ (Rreport Rcheck Rformat : MapRange) (mt_end : multitracker),
       is_Some (completion Rreport Rcheck Rformat mt_end).2 ↔
       ∃ k' name st',
         tracking k' mt_end !! name = Some st' ∧ IsFailed st' = true).
Proof.
  intros Hmode Hallow Hst Hbeyond. split.
  - eexists. split; [|split; [|split]].
    + unfold resourceFailed.
      rewrite (HandlerFacts.handleResourceFailure_tracked
                 _ _ reason _ _ Hst Hallow).
      cbn zeta. rewrite Hmode.
      destruct (Z.leb_spec (GoInt.incr (FailuresCount st)) allow); [lia|].
      reflexivity.
    + rewrite tracking_set_tracking. apply lookup_insert_eq.
    + intros name Hne. rewrite tracking_set_tracking.
      by rewrite lookup_insert_ne.
    + intros k' Hne. by rewrite tracking_set_tracking_ne.
  - intros Rreport Rcheck Rformat mt_end. rewrite completion_verdict.
    rewrite <- (@hasFailedTrackingResources_true Rcheck).
    destruct (@hasFailedTrackingResources Rcheck mt_end).
    + split; [reflexivity|eauto].
    + split; [intros [? [=]]|discriminate].
Qed.

Lemma hope_until_end_latches_witness :
  let spec := webSpec HopeUntilEndOfDeployProcess in
  let mt := startTracking (sampleSpecs HopeUntilEndOfDeployProcess) in
  ∃ mt1 mt2,
    resourceFailed Deployment spec "ImagePullBackOff" mt = Returned (mt1, None)
    ∧ resourceFailed Deployment spec "CrashLoopBackOff" mt1
      = Returned (mt2, None)
    ∧ tracking Deployment mt2 !! "web"
      = Some {| IsFailed := true; LastFailureReason := "CrashLoopBackOff";
                FailuresCount := 2 |}
    ∧ is_Some (completion listing_range reverse_range listing_range mt2).2.
Proof.
  intros spec mt.
  destruct (resourceFailed Deployment spec "ImagePullBackOff" mt)
    as [[mt1 action]|] eqn:Hr1; [|discriminate Hr1].
  injection Hr1 as Hmt1 Haction. subst action.
  destruct (hope_until_end_latches
              Deployment mt1 spec "CrashLoopBackOff"
              {| IsFailed := false; LastFailureReason := "";
                 FailuresCount := 1 |} 1)
    as [(mt2 & Hr2 & Hst2 & _) Hend].
  - reflexivity.
  - reflexivity.
  - subst mt1. reflexivity.
  - vm_compute. reflexivity.
  - exists mt1, mt2. split; [reflexivity|]. split; [exact Hr2|].
    split; [exact Hst2|]. apply Hend. eauto.
Defined.

(** C3: under IgnoreAndContinueDeployProcess, a failure of a tracked
    resource that takes its failure count beyond AllowFailuresCount deletes
    its state from the tracked set, leaves every other resource as it was
    and returns [tracker.StopTrack]; whatever the watchers report
    afterwards, the resource is not tracked again and has no line in the
    final aggregated error; and if the run fails after the removal, a
    resource other than this one is marked failed. *)
Theorem ignore_and_continue_forgets
    (k : kind) (mt : multitracker) (spec : MultitrackSpec) (reason : string)
    (st : multitrackerResourceState) (allow : Z) :
  FailMode spec = IgnoreAndContinueDeployProcess →
  AllowFailuresCount spec = Some allow →
  tracking k mt !! ResourceName spec = Some st →
  allow < GoInt.incr (FailuresCount st) →
  ∃ mt',
    resourceFailed k spec reason mt = Returned (mt', Some StopTrack)
    ∧ tracking k mt' = delete (ResourceName spec) (tracking k mt)
    ∧ (∀ k', k' ≠ k → tracking k' mt' = tracking k' mt)
    ∧ (∀ events mt'' (R : MapRange),
         deliver events mt' = Returned mt'' →
         tracking k mt'' !! ResourceName spec = None
         ∧ @failedMsgParts R mt'' = failedEntryLine <$> @failedResources R mt''
         ∧ ∀ st'', (k, ResourceName spec, st'') ∉ @failedResources R mt'')
    ∧ (∀ (Rreport Rcheck Rformat : MapRange),
         is_Some (completion Rreport Rcheck Rformat mt').2 →
         ∃ k' name st',
           (k', name) ≠ (k, ResourceName spec)
           ∧ tracking k' mt !! name = Some st' ∧ IsFailed st' = true).
Proof.
  intros Hmode Hallow Hst Hbeyond.
  exists (set_tracking k (delete (ResourceName spec) (tracking k mt)) mt).
  split; [|split; [|split; [|split]]].
  - unfold resourceFailed.
    rewrite (HandlerFacts.handleResourceFailure_tracked
               _ _ reason _ _ Hst Hallow).
    cbn zeta. rewrite Hmode.
    destruct (Z.leb_spec (GoInt.incr (FailuresCount st)) allow); [lia|].
    reflexivity.
  - apply tracking_set_tracking.
  - intros k' Hne. by rewrite tracking_set_tracking_ne.
  - intros events mt'' R Hrun.
    assert (tracking k mt'' !! ResourceName spec = None) as Hnone.
    { apply (deliver_absent _ _ _ _ _ Hrun).
      rewrite tracking_set_tracking. apply lookup_delete_eq. }
    split; [exact Hnone|]. split; [apply failedMsgParts_failedResources|].
    intros st'' Hin. apply elem_of_failedResources in Hin as [Hl _].
    congruence.
  - intros Rreport Rcheck Rformat. rewrite completion_verdict.
    destruct (@hasFailedTrackingResources Rcheck _) eqn:Hfailed;
      [|intros [? [=]]].
    intros _. apply hasFailedTrackingResources_true in Hfailed
      as (k' & name & st' & Hl & Hf).
    exists k', name, st'. destruct (decide (k = k')) as [<-|Hne].
    + rewrite tracking_set_tracking in Hl.
      destruct (decide (name = ResourceName spec)) as [->|Hn].
      * by rewrite lookup_delete_eq in Hl.
      * rewrite lookup_delete_ne in Hl by done.
        split; [congruence|]. auto.
    + rewrite tracking_set_tracking_ne in Hl by done.
      split; [congruence|]. auto.
Qed.

Lemma ignore_and_continue_forgets_witness :
  let spec := webSpec IgnoreAndContinueDeployProcess in
  let mt := startTracking (sampleSpecs IgnoreAndContinueDeployProcess) in
  ∃ mt1 mt2,
    resourceFailed Deployment spec "ImagePullBackOff" mt = Returned (mt1, None)
    ∧ resourceFailed Deployment spec "CrashLoopBackOff" mt1
      = Returned (mt2, Some StopTrack)
    ∧ tracking Deployment mt2 !! "web" = None
    ∧ ∀ st, (Deployment, "web", st) ∉ @failedResources reverse_range mt2.
Proof.
  intros spec mt.
  destruct (resourceFailed Deployment spec "ImagePullBackOff" mt)
    as [[mt1 action]|] eqn:Hr1; [|discriminate Hr1].
  injection Hr1 as Hmt1 Haction. subst action.
  destruct (ignore_and_continue_forgets
              Deployment mt1 spec "CrashLoopBackOff"
              {| IsFailed := false; LastFailureReason := "";
                 FailuresCount := 1 |} 1)
    as (mt2 & Hr2 & _ & _ & Hlater & _).
  - reflexivity.
  - reflexivity.
  - subst mt1. reflexivity.
  - vm_compute. reflexivity.
  - exists mt1, mt2. split; [reflexivity|]. split; [exact Hr2|].
    destruct (Hlater [] mt2 reverse_range eq_refl) as (Hnone & _ & Hnot).
    split; [exact Hnone|exact Hnot].
Defined.

End AggregationFacts.

(* ===================================================================== *)
(** ** Properties of the status report *)
(* ===================================================================== *)

Module ReportFacts.
Import Multitrack.

Lemma colored_in_detail a t attr text :
  Colored a t ∈ detail attr text ↔ a = attr ∧ t = text.
Proof.
  unfold detail. rewrite !elem_of_cons, elem_of_nil. split.
  - intros [[=]|[[= -> ->]|[[=]|[]]]]. done.
  - intros [-> ->]. auto.
Qed.

(** One step of the show-once loop. *)
Lemma printOnce_cons attr mark cond conds shown :
  printOnce attr mark (cond :: conds) shown =
    if deployment.IsSatisfied cond
       && negb (bool_decide (deployment.Message cond ∈ shown))
    then
      let rest := printOnce attr mark conds
                            ({[deployment.Message cond]} ∪ shown) in
      (detail attr (mark +:+ deployment.Message cond) ++ rest.1, rest.2)
    else printOnce attr mark conds shown.
Proof.
  cbn [printOnce].
  destruct (deployment.IsSatisfied cond); cbn [andb];
    [destruct (negb _)|]; cbn zeta;
    destruct (printOnce attr mark conds _); reflexivity.
Qed.

(** The coloured lines of the show-once loop: one for each message of a
    satisfied condition that had not been shown. *)
Lemma printOnce_colored attr mark conds shown a t :
  Colored a t ∈ (printOnce attr mark conds shown).1 ↔
  a = attr
  ∧ ∃ cond, cond ∈ conds
            ∧ deployment.IsSatisfied cond = true
            ∧ t = mark +:+ deployment.Message cond
            ∧ deployment.Message cond ∉ shown.
Proof.
  revert shown. induction conds as [|c conds IH]; intros shown.
  - cbn. rewrite elem_of_nil. split; [done|].
    intros (_ & cond & Hin & _). by apply elem_of_nil in Hin.
  - rewrite printOnce_cons.
    destruct (deployment.IsSatisfied c) eqn:Hsat; cbn [andb];
      [destruct (bool_decide_reflect (deployment.Message c ∈ shown))
         as [Hshown|Hnew]; cbn [negb]|].
    + rewrite IH. split; intros (-> & cond & Hin & Hs & Ht & Hn);
        (split; [done|]); exists cond.
      * rewrite elem_of_cons. auto.
      * apply elem_of_cons in Hin as [->|Hin]; [done|auto].
    + cbn zeta. cbn [fst]. rewrite elem_of_app, colored_in_detail, IH. split.
      * intros [[-> ->]|(-> & cond & Hin & Hs & Ht & Hn)]; (split; [done|]).
        -- exists c. rewrite elem_of_cons. auto.
        -- exists cond. rewrite elem_of_cons. repeat split; auto.
           intros Hold. apply Hn, elem_of_union. auto.
      * intros (-> & cond & Hin & Hs & Ht & Hn).
        apply elem_of_cons in Hin as [->|Hin]; [auto|].
        destruct (decide (deployment.Message cond = deployment.Message c))
          as [Heq|Hne].
        -- left. by rewrite Ht, Heq.
        -- right. split; [done|]. exists cond. repeat split; auto.
           rewrite elem_of_union, elem_of_singleton. intros [?|?]; done.
    + rewrite IH. split; intros (-> & cond & Hin & Hs & Ht & Hn);
        (split; [done|]); exists cond.
      * rewrite elem_of_cons. auto.
      * apply elem_of_cons in Hin as [->|Hin]; [congruence|auto].
Qed.

(** What the show-once loop leaves in the shown set. *)
Lemma printOnce_shown attr mark conds shown m :
  m ∈ (printOnce attr mark conds shown).2 ↔
  m ∈ shown
  ∨ ∃ cond, cond ∈ conds
            ∧ deployment.IsSatisfied cond = true
            ∧ deployment.Message cond = m.
Proof.
  revert shown. induction conds as [|c conds IH]; intros shown.
  - cbn. split; [auto|]. intros [?|(cond & Hin & _)]; [done|].
    by apply elem_of_nil in Hin.
  - rewrite printOnce_cons.
    destruct (deployment.IsSatisfied c) eqn:Hsat; cbn [andb];
      [destruct (bool_decide_reflect (deployment.Message c ∈ shown))
         as [Hshown|Hnew]; cbn [negb]|]; cbn zeta; cbn [snd]; rewrite IH.
    + split; intros [?|(cond & Hin & Hs & Hm)]; auto.
      * right. exists cond. rewrite elem_of_cons. auto.
      * apply elem_of_cons in Hin as [->|Hin]; [left; congruence|].
        right. eauto.
    + rewrite elem_of_union, elem_of_singleton.
      split; intros [H|(cond & Hin & Hs & Hm)].
      * destruct H as [->|H]; [|auto]. right. exists c.
        rewrite elem_of_cons. auto.
      * right. exists cond. rewrite elem_of_cons. auto.
      * auto.
      * apply elem_of_cons in Hin as [->|Hin]; [auto|]. right. eauto.
    + split; intros [?|(cond & Hin & Hs & Hm)]; auto.
      * right. exists cond. rewrite elem_of_cons. auto.
      * apply elem_of_cons in Hin as [->|Hin]; [congruence|].
        right. eauto.
Qed.

Lemma deploymentResource_not_blue spec name status t :
  deploymentResource spec name status ≠ Colored FgBlue t.
Proof.
  unfold deploymentResource.
  repeat (match goal with
          | |- context [if ?c then _ else _] => destruct c
          end); discriminate.
Qed.

Lemma printFailedPods_colored `{R : MapRange} pods a t :
  Colored a t ∈ printFailedPods pods → a = FgRed.
Proof.
  unfold printFailedPods. rewrite AggregationFacts.elem_of_concat.
  intros (l & Hin & Hl).
  apply list_elem_of_fmap in Hl as ([podName podStatus] & -> & _).
  destruct (pod.IsFailed podStatus); [|by apply elem_of_nil in Hin].
  by apply colored_in_detail in Hin as [-> _].
Qed.

(** The blue lines of a deployment are those of its progressing conditions,
    and it has none when it is marked failed. *)
Lemma printDeployment_blue `{R : MapRange} spec name status shown t :
  Colored FgBlue t ∈ (printDeployment spec name status shown).1 ↔
  deployment.IsFailed status = false
  ∧ Colored FgBlue t
      ∈ (printOnce FgBlue "↻  "
           (deployment.ProgressingConditions (deployment.ReadyStatus status))
           shown).1.
Proof.
  unfold printDeployment.
  assert (∀ l : list chunk,
            Colored FgBlue t ∈
              [Plain "├ "; deploymentResource spec name status; Plain nl] ++ l
            ↔ Colored FgBlue t ∈ l) as Htitle.
  { intros l. rewrite elem_of_app, !elem_of_cons, elem_of_nil. split; [|auto].
    intros [[[=]|[Heq|[[=]|[]]]]|?]; [|done].
    symmetry in Heq. by apply deploymentResource_not_blue in Heq. }
  destruct (deployment.IsFailed status).
  - cbn [fst]. rewrite Htitle, elem_of_app, colored_in_detail.
    split; [|intros [[=] _]].
    intros [[[=] _]|Hpods]. by apply printFailedPods_colored in Hpods.
  - destruct (printOnce FgBlue _ _ shown) as [progressing shown1].
    pose proof (printOnce_colored FgGreen "✅ "
                  (deployment.ReadyConditions (deployment.ReadyStatus status))
                  shown1 FgBlue t) as Hgreen.
    destruct (printOnce FgGreen _ _ shown1) as [satisfied shown2].
    cbn [fst] in *. rewrite Htitle, !elem_of_app. split; [|intros [_ ?]; auto].
    intros [?|[Hwait|[Hsat|Hpods]]]; [done| | |].
    + destruct (0 <? _); [|by apply elem_of_nil in Hwait].
      by apply colored_in_detail in Hwait as [[=] _].
    + by apply Hgreen in Hsat as [[=] _].
    + by apply printFailedPods_colored in Hpods.
Qed.

(** The "↻" line of a message is in the block of a deployment iff the
    deployment is not marked failed and a satisfied progressing condition
    carries the message, not shown for the deployment before. *)
Lemma printDeployment_progressingLine `{R : MapRange}
    spec name status shown m :
  progressingLine m ∈ (printDeployment spec name status shown).1 ↔
  deployment.IsFailed status = false
  ∧ (m ∉ shown)
  ∧ ∃ cond,
      cond ∈ deployment.ProgressingConditions (deployment.ReadyStatus status)
      ∧ deployment.IsSatisfied cond = true
      ∧ deployment.Message cond = m.
Proof.
  unfold progressingLine. rewrite printDeployment_blue, printOnce_colored.
  split.
  - intros (Hf & _ & cond & Hin & Hsat & Heq & Hnew).
    apply (inj (String.app "↻  ")) in Heq. subst m. eauto 10.
  - intros (Hf & Hnew & cond & Hin & Hsat & <-). eauto 10.
Qed.

(** The shown set only grows, and takes in the messages of the satisfied
    progressing conditions of a deployment that is not marked failed. *)
Lemma printDeployment_shown `{R : MapRange} spec name status shown m :
  m ∈ shown
  ∨ (deployment.IsFailed status = false
     ∧ ∃ cond,
         cond ∈ deployment.ProgressingConditions (deployment.ReadyStatus status)
         ∧ deployment.IsSatisfied cond = true
         ∧ deployment.Message cond = m) →
  m ∈ (printDeployment spec name status shown).2.
Proof.
  unfold printDeployment. intros Hm.
  destruct (deployment.IsFailed status).
  - destruct Hm as [?|[[=] _]]. done.
  - pose proof (printOnce_shown FgBlue "↻  "
                  (deployment.ProgressingConditions
                     (deployment.ReadyStatus status)) shown m) as Hblue.
    destruct (printOnce FgBlue _ _ shown) as [progressing shown1].
    pose proof (printOnce_shown FgGreen "✅ "
                  (deployment.ReadyConditions (deployment.ReadyStatus status))
                  shown1 m) as Hgreen.
    destruct (printOnce FgGreen _ _ shown1) as [satisfied shown2].
    cbn [snd] in *. apply Hgreen. left. apply Hblue.
    destruct Hm as [?|[_ ?]]; auto.
Qed.

Section Frames.
Context `{R : MapRange}.

(** One iteration of the loop over the deployments: the block of the
    deployment is appended, and its entry in the shown messages set. *)
Lemma printDeploymentStep_eq specs out shownMessages name status :
  printDeploymentStep specs (out, shownMessages) (name, status) =
    let block :=
      printDeployment (default zeroSpec (specs !! name)) name status
                      (default ∅ (shownMessages !! name)) in
    (out ++ block.1, <[name := block.2]> shownMessages).
Proof.
  unfold printDeploymentStep.
  destruct (shownMessages !! name) as [shown|] eqn:Hshown.
  - rewrite Hshown. cbn [default]. by destruct (printDeployment _ _ _ _).
  - rewrite lookup_insert_eq. cbn [default].
    destruct (printDeployment _ _ _ _). cbn zeta. cbn [fst snd].
    by rewrite insert_insert_eq.
Qed.

Lemma printDeployments_others specs entries out shownMessages name :
  let result := foldl (printDeploymentStep specs) (out, shownMessages) entries in
  (∃ more, result.1 = out ++ more)
  ∧ (name ∉ entries.*1 → result.2 !! name = shownMessages !! name).
Proof.
  revert out shownMessages.
  induction entries as [|[n status] entries IH]; intros out shownMessages.
  - cbn. split; [exists []; by rewrite app_nil_r|done].
  - cbn [foldl]. rewrite printDeploymentStep_eq. cbn zeta.
    destruct (IH (out ++ (printDeployment (default zeroSpec (specs !! n)) n
                            status (default ∅ (shownMessages !! n))).1)
                 (<[n := (printDeployment (default zeroSpec (specs !! n)) n
                            status (default ∅ (shownMessages !! n))).2]>
                    shownMessages)) as [[more Hmore] Hkeep].
    split.
    + eexists. rewrite Hmore, <- app_assoc. reflexivity.
    + intros Hnotin. rewrite fmap_cons, not_elem_of_cons in Hnotin.
      destruct Hnotin as [Hne Hnotin]. cbn in Hne.
      rewrite (Hkeep Hnotin). by rewrite lookup_insert_ne.
Qed.

Lemma printDeployments_block specs entries out shownMessages name status :
  NoDup entries.*1 →
  (name, status) ∈ entries →
  let block :=
    printDeployment (default zeroSpec (specs !! name)) name status
                    (default ∅ (shownMessages !! name)) in
  let result := foldl (printDeploymentStep specs) (out, shownMessages) entries in
  (∃ before after, result.1 = out ++ before ++ block.1 ++ after)
  ∧ result.2 !! name = Some block.2.
Proof.
  revert out shownMessages.
  induction entries as [|[n st] entries IH];
    intros out shownMessages Hnodup Hin; [by apply elem_of_nil in Hin|].
  rewrite fmap_cons in Hnodup. apply NoDup_cons in Hnodup as [Hfresh Hnodup].
  cbn in Hfresh. cbn zeta. cbn [foldl]. rewrite printDeploymentStep_eq.
  cbn zeta. apply elem_of_cons in Hin as [[= <- <-]|Hin].
  - destruct (printDeployments_others specs entries
                (out ++ (printDeployment (default zeroSpec (specs !! name))
                           name status
                           (default ∅ (shownMessages !! name))).1)
                (<[name := (printDeployment
                              (default zeroSpec (specs !! name)) name status
                              (default ∅ (shownMessages !! name))).2]>
                   shownMessages) name) as [[more Hmore] Hkeep].
    split.
    + exists [], more. rewrite Hmore, <- app_assoc. reflexivity.
    + rewrite (Hkeep Hfresh). apply lookup_insert_eq.
  - assert (n ≠ name) as Hne.
    { intros ->. apply Hfresh. apply list_elem_of_fmap.
      by exists (name, status). }
    destruct (IH (out ++ (printDeployment (default zeroSpec (specs !! n)) n
                            st (default ∅ (shownMessages !! n))).1)
                 (<[n := (printDeployment (default zeroSpec (specs !! n)) n
                            st (default ∅ (shownMessages !! n))).2]>
                    shownMessages) Hnodup Hin)
      as [(before & after & Hout) Hshown].
    rewrite lookup_insert_ne in Hout, Hshown by done.
    split; [|exact Hshown].
    exists ((printDeployment (default zeroSpec (specs !! n)) n st
                             (default ∅ (shownMessages !! n))).1 ++ before),
           after.
    by rewrite Hout, <- !app_assoc.
Qed.

(** A frame holds the block of every deployment that has a status, and
    leaves the shown set the block ends with. *)
Lemma PrintStatusReport_block mt name block shown :
  deploymentBlock mt name = Some (block, shown) →
  (∃ before after, (PrintStatusReport mt).1.1 = before ++ block ++ after)
  ∧ ShownDeploymentMessages (PrintStatusReport mt).1.2 !! name = Some shown.
Proof.
  unfold deploymentBlock. intros Hblock.
  destruct (DeploymentsStatuses mt !! name) as [status|] eqn:Hstatus;
    [|discriminate]. cbn in Hblock. injection Hblock as Hblock.
  destruct (printDeployments_block (DeploymentsSpecs mt)
              (range (DeploymentsStatuses mt)) []
              (ShownDeploymentMessages mt) name status)
    as [(before & after & Hout) Hshown].
  { apply AggregationFacts.NoDup_range_keys. }
  { by apply AggregationFacts.elem_of_range. }
  rewrite Hblock in Hout, Hshown. cbn [fst snd] in Hout, Hshown.
  unfold PrintStatusReport, printDeployments.
  destruct (foldl _ _ _) as [deployments shownMessages].
  cbn [fst snd] in *. subst deployments. split; [|exact Hshown].
  match goal with
  | |- ∃ _ _, ?title ++ ?pods ++ _ ++ ?rest = _ =>
      exists (title ++ pods ++ before), (after ++ rest)
  end.
  by rewrite <- !app_assoc.
Qed.

End Frames.

(** C8, as the claim states it, fails: the deployment "web" is marked
    failed while a satisfied progressing condition carries the message
    "rolling out", which has never been shown for it; the frame has no "↻"
    line for the message, and the message is not recorded as shown. *)
Lemma failed_deployment_hides_progress :
  let mt := failedDeploymentTracker in
  let frame := @PrintStatusReport listing_range mt in
  (∃ status cond,
     DeploymentsStatuses mt !! "web" = Some status
     ∧ cond ∈ deployment.ProgressingConditions (deployment.ReadyStatus status)
     ∧ deployment.IsSatisfied cond = true
     ∧ deployment.Message cond = "rolling out")
  ∧ ("rolling out" ∉ default ∅ (ShownDeploymentMessages mt !! "web"))
  ∧ (progressingLine "rolling out" ∉ frame.1.1)
  ∧ ("rolling out"
       ∉ default ∅ (ShownDeploymentMessages frame.1.2 !! "web")).
Proof.
  cbn zeta. split; [|split; [|split]].
  - eexists _, _. split; [reflexivity|].
    split; [apply list_elem_of_here|]. split; reflexivity.
  - apply not_elem_of_empty.
  - apply (bool_decide_unpack
             (progressingLine "rolling out"
                ∉ (@PrintStatusReport listing_range failedDeploymentTracker).1.1)).
    vm_compute. exact I.
  - apply (bool_decide_unpack
             ("rolling out"
                ∉ default ∅
                    (ShownDeploymentMessages
                       (@PrintStatusReport listing_range
                          failedDeploymentTracker).1.2 !! "web"))).
    vm_compute. exact I.
Qed.

(** C8, amended: for a deployment that is not marked failed and a satisfied
    progressing condition of it, the frame holds the block of the
    deployment, in which the "↻" line of the message appears iff the message
    had not been shown for the deployment before, and records the message
    in ShownDeploymentMessages; in the next frame, whatever the statuses
    are by then, the block of the deployment has no "↻" line for that
    message. *)
Theorem progressing_message_shown_once
    (R1 R2 : MapRange) (mt : multitracker) (name : string)
    (status : deployment.DeploymentStatus) (cond : deployment.ReadyCondition) :
  DeploymentsStatuses mt !! name = Some status →
  deployment.IsFailed status = false →
  cond ∈ deployment.ProgressingConditions (deployment.ReadyStatus status) →
  deployment.IsSatisfied cond = true →
  let message := deployment.Message cond in
  let frame1 := @PrintStatusReport R1 mt in
  ∃ block1 shown1,
    @deploymentBlock R1 mt name = Some (block1, shown1)
    ∧ (∃ before after, frame1.1.1 = before ++ block1 ++ after)
    ∧ ShownDeploymentMessages frame1.1.2 !! name = Some shown1
    ∧ message ∈ shown1
    ∧ (progressingLine message ∈ block1 ↔
       message ∉ default ∅ (ShownDeploymentMessages mt !! name))
    ∧ ∀ mt2 block2 shown2,
        ShownDeploymentMessages mt2 !! name
        = ShownDeploymentMessages frame1.1.2 !! name →
        @deploymentBlock R2 mt2 name = Some (block2, shown2) →
        (progressingLine message ∉ block2)
        ∧ ∃ before after,
            (@PrintStatusReport R2 mt2).1.1 = before ++ block2 ++ after.
Proof.
  intros Hstatus Hok Hcond Hsat message frame1.
  set (spec := default zeroSpec (DeploymentsSpecs mt !! name)).
  set (shown := default ∅ (ShownDeploymentMessages mt !! name)).
  assert (@deploymentBlock R1 mt name
          = Some (@printDeployment R1 spec name status shown)) as Hblock
      by (unfold deploymentBlock; rewrite Hstatus; reflexivity).
  destruct (@printDeployment R1 spec name status shown)
    as [block1 shown1] eqn:Hprint.
  destruct (@PrintStatusReport_block R1 mt name block1 shown1 Hblock)
    as [Hframe Hshown].
  assert (message ∈ shown1) as Hrecorded.
  { change shown1 with (block1, shown1).2. rewrite <- Hprint.
    apply printDeployment_shown. right. eauto. }
  exists block1, shown1.
  split; [exact Hblock|]. split; [exact Hframe|]. split; [exact Hshown|].
  split; [exact Hrecorded|]. split.
  - change block1 with (block1, shown1).1. rewrite <- Hprint.
    rewrite printDeployment_progressingLine. split.
    + intros (_ & Hnew & _). exact Hnew.
    + intros Hnew. eauto 10.
  - intros mt2 block2 shown2 Hsame Hblock2. split.
    + unfold deploymentBlock in Hblock2.
      destruct (DeploymentsStatuses mt2 !! name) as [status2|];
        [|discriminate]. cbn in Hblock2. injection Hblock2 as Hblock2.
      change block2 with (block2, shown2).1. rewrite <- Hblock2.
      rewrite printDeployment_progressingLine. intros (_ & Hnew & _).
      apply Hnew. rewrite Hsame. unfold frame1. rewrite Hshown.
      exact Hrecorded.
    + apply (@PrintStatusReport_block R2 mt2 name block2 shown2 Hblock2).
Qed.

Lemma progressing_message_shown_once_witness :
  let mt := progressingDeploymentTracker in
  let frame1 := @PrintStatusReport listing_range mt in
  ∃ block1 shown1,
    @deploymentBlock listing_range mt "web" = Some (block1, shown1)
    ∧ (progressingLine "rolling out" ∈ block1)
    ∧ ∀ block2 shown2,
        @deploymentBlock reverse_range frame1.1.2 "web"
        = Some (block2, shown2) →
        progressingLine "rolling out" ∉ block2.
Proof.
  intros mt frame1.
  destruct (progressing_message_shown_once
              listing_range reverse_range mt "web"
              {| deployment.ReadyStatus :=
                   {| deployment.IsReady := false;
                      deployment.ProgressingConditions :=
                        [ {| deployment.Message := "rolling out";
                             deployment.IsSatisfied := true |} ];
                      deployment.ReadyConditions := [] |};
                 deployment.IsFailed := false;
                 deployment.FailedReason := "";
                 deployment.Pods := ∅ |}
              {| deployment.Message := "rolling out";
                 deployment.IsSatisfied := true |})
    as (block1 & shown1 & Hblock & _ & _ & _ & Hfirst & Hnext).
  - reflexivity.
  - reflexivity.
  - apply list_elem_of_here.
  - reflexivity.
  - exists block1, shown1. split; [exact Hblock|]. split.
    + apply Hfirst. cbn. apply not_elem_of_empty.
    + intros block2 shown2 Hblock2.
      apply (Hnext frame1.1.2 block2 shown2 eq_refl Hblock2).
Defined.

End ReportFacts.

(* ===================================================================== *)
(** ** Further properties of the stateful set predicates *)
(* ===================================================================== *)

Module RolloutFacts.
Import Statefulset Rollout.

(** X1: Whatever the strategy, a stateful set is never reported complete while
    its observed generation is zero or differs from its generation, or while
    the replica count is set and the observed or the ready replicas differ
    from it. *)
Theorem complete_needs_observed_and_ready (sts : StatefulSet) :
  StatefulSetComplete sts = true →
  ObservedGeneration (Status sts) ≠ 0
  ∧ Generation sts = ObservedGeneration (Status sts)
  ∧ ∀ r, Replicas (Spec sts) = Some r →
         StatusReplicas (Status sts) = r ∧ ReadyReplicas (Status sts) = r.
Proof.
  unfold StatefulSetComplete.
  pose proof (StatefulsetFacts.generation_guard sts) as Hg.
  pose proof (StatefulsetFacts.replicas_mismatch_false sts) as Hm.
  destruct (_ || _); [discriminate|].
  destruct (replicas_mismatch sts); [discriminate|]. intros _.
  destruct Hg as [Hg _]. destruct (Hg eq_refl) as [H1 H2].
  destruct Hm as [Hm _]. auto.
Qed.

Lemma complete_needs_observed_and_ready_witness :
  ReadyReplicas (Status (partitioned_snapshot 3 3)) = 3.
Proof.
  destruct (complete_needs_observed_and_ready (partitioned_snapshot 3 3))
    as (_ & _ & Hready); [reflexivity|].
  destruct (Hready 3 eq_refl) as [_ H]. exact H.
Defined.

(** X2: Under the OnDelete strategy the generation and the replica counters
    decide alone: the revisions and the current and updated replicas are
    not looked at. *)
Theorem on_delete_complete (sts : StatefulSet) :
  Type_ (UpdateStrategy (Spec sts)) = OnDeleteStatefulSetStrategyType →
  (StatefulSetComplete sts = true ↔
     ObservedGeneration (Status sts) ≠ 0
     ∧ Generation sts = ObservedGeneration (Status sts)
     ∧ ∀ r, Replicas (Spec sts) = Some r →
            StatusReplicas (Status sts) = r ∧ ReadyReplicas (Status sts) = r).
Proof.
  intros Hty. unfold StatefulSetComplete.
  pose proof (StatefulsetFacts.generation_guard sts) as Hg.
  pose proof (StatefulsetFacts.replicas_mismatch_false sts) as Hm.
  rewrite Hty. cbn [String.eqb].
  change (String.eqb OnDeleteStatefulSetStrategyType
                     OnDeleteStatefulSetStrategyType) with true.
  destruct (_ || _).
  - split; [discriminate|]. intros (H1 & H2 & _).
    destruct Hg as [_ Hg]. discriminate (Hg (conj H1 H2)).
  - destruct Hg as [Hg _]. destruct (Hg eq_refl) as [H1 H2].
    destruct (replicas_mismatch sts).
    + split; [discriminate|]. intros (_ & _ & H3).
      destruct Hm as [_ Hm]. discriminate (Hm H3).
    + destruct Hm as [Hm _]. split; [auto|reflexivity].
Qed.

Lemma on_delete_complete_witness :
  StatefulSetComplete
    (settled {| Type_ := OnDeleteStatefulSetStrategyType;
                RollingUpdate := None |} (Some 3) 1) = true.
Proof.
  apply on_delete_complete; [reflexivity|].
  split; [discriminate|]. split; [reflexivity|].
  intros r [= <-]. split; reflexivity.
Defined.

(** X3: Under the RollingUpdate strategy without a partition in force (no
    rolling-update parameters, no partition, no replica count, or partition
    0), a stateful set is complete iff, beyond the generation and replica
    guards, the two revisions are equal, the current replicas equal the ready
    ones and the updated replicas are 0 or equal to the current ones. *)
Theorem rolling_update_unpartitioned_complete (sts : StatefulSet) :
  Type_ (UpdateStrategy (Spec sts)) = RollingUpdateStatefulSetStrategyType →
  (RollingUpdate (UpdateStrategy (Spec sts)) = None
   ∨ Replicas (Spec sts) = None
   ∨ ∃ ru, RollingUpdate (UpdateStrategy (Spec sts)) = Some ru
           ∧ (Partition ru = None ∨ Partition ru = Some 0)) →
  (StatefulSetComplete sts = true ↔
     ObservedGeneration (Status sts) ≠ 0
     ∧ Generation sts = ObservedGeneration (Status sts)
     ∧ (∀ r, Replicas (Spec sts) = Some r →
             StatusReplicas (Status sts) = r ∧ ReadyReplicas (Status sts) = r)
     ∧ UpdateRevision (Status sts) = CurrentRevision (Status sts)
     ∧ CurrentReplicas (Status sts) = ReadyReplicas (Status sts)
     ∧ (UpdatedReplicas (Status sts) = 0
        ∨ UpdatedReplicas (Status sts) = CurrentReplicas (Status sts))).
Proof.
  intros Hty Hpart.
  assert (partition_of sts = 0) as Hzero.
  { unfold partition_of.
    destruct Hpart as [->|[Hr|(ru & -> & [->| ->])]]; try reflexivity.
    - rewrite Hr. by destruct (RollingUpdate _).
    - by destruct (Replicas _).
    - by destruct (Replicas _). }
  unfold StatefulSetComplete.
  pose proof (StatefulsetFacts.generation_guard sts) as Hg.
  pose proof (StatefulsetFacts.replicas_mismatch_false sts) as Hm.
  rewrite Hty, Hzero.
  change (String.eqb RollingUpdateStatefulSetStrategyType
                     OnDeleteStatefulSetStrategyType) with false.
  rewrite String.eqb_refl. cbn [Z.eqb].
  destruct (_ || _).
  { split; [discriminate|]. intros (H1 & H2 & _).
    destruct Hg as [_ Hg]. discriminate (Hg (conj H1 H2)). }
  destruct Hg as [Hg _]. destruct (Hg eq_refl) as [H1 H2].
  destruct (replicas_mismatch sts).
  { split; [discriminate|]. intros (_ & _ & H3 & _).
    destruct Hm as [_ Hm]. discriminate (Hm H3). }
  destruct Hm as [Hm _]. specialize (Hm eq_refl).
  destruct (String.eqb_spec (UpdateRevision (Status sts))
                            (CurrentRevision (Status sts))) as [Hrev|Hrev];
    cbn [negb]; [|split; [discriminate|]; intros (_ & _ & _ & ? & _); done].
  destruct (Z.eqb_spec (CurrentReplicas (Status sts))
                       (ReadyReplicas (Status sts))) as [Hc|Hc]; cbn [andb];
    [|split; [discriminate|]; intros (_ & _ & _ & _ & ? & _); done].
  destruct (Z.eqb_spec (UpdatedReplicas (Status sts)) 0) as [Hu|Hu];
    cbn [orb]; [split; [auto 10|reflexivity]|].
  destruct (Z.eqb_spec (UpdatedReplicas (Status sts))
                       (CurrentReplicas (Status sts))) as [Hu'|Hu'].
  - split; [auto 10|reflexivity].
  - split; [discriminate|]. intros (_ & _ & _ & _ & _ & [?|?]); done.
Qed.

Lemma rolling_update_unpartitioned_complete_witness :
  StatefulSetComplete
    (settled {| Type_ := RollingUpdateStatefulSetStrategyType;
                RollingUpdate := Some {| Partition := Some 0 |} |}
             (Some 3) 0) = true.
Proof.
  apply rolling_update_unpartitioned_complete.
  - reflexivity.
  - right. right. eexists. split; [reflexivity|]. right. reflexivity.
  - cbn. split; [discriminate|]. split; [reflexivity|].
    split; [intros r [= <-]; split; reflexivity|].
    split; [reflexivity|]. split; [reflexivity|]. left. reflexivity.
Defined.

(** X4: [StatefulSetRolloutStatus] returns an error exactly for a strategy other
    than RollingUpdate, and then with an empty message and "done" set. *)
Theorem rollout_status_error_iff_not_rolling_update (sts : StatefulSet) :
  (is_Some (StatefulSetRolloutStatus sts).2 ↔
   Type_ (UpdateStrategy (Spec sts)) ≠ RollingUpdateStatefulSetStrategyType)
  ∧ (is_Some (StatefulSetRolloutStatus sts).2 →
     (StatefulSetRolloutStatus sts).1 = ("", true)).
Proof.
  unfold StatefulSetRolloutStatus. cbn zeta.
  destruct (String.eqb_spec (Type_ (UpdateStrategy (Spec sts)))
                            RollingUpdateStatefulSetStrategyType) as [Hty|Hty];
    cbn [negb].
  - assert (∀ r : string * bool * option string, r.2 = None →
              (is_Some r.2 ↔ Type_ (UpdateStrategy (Spec sts))
                              ≠ RollingUpdateStatefulSetStrategyType)
              ∧ (is_Some r.2 → r.1 = ("", true))) as Hnone.
    { intros r ->. split; [split; [intros [? [=]]|done]|intros [? [=]]]. }
    apply Hnone.
    repeat (match goal with
            | |- context [if ?c then _ else _] => destruct c
            | |- context [match ?o with Some _ => _ | None => _ end] =>
                destruct o
            end; try reflexivity).
  - split; [|reflexivity]. split; [done|eauto].
Qed.

(** X5: Under the RollingUpdate strategy the rollout is reported done, always
    without error, iff the observed generation is non-zero and not behind the
    generation, the ready replicas are not below the replica count where it
    is set, and: with rolling-update parameters, the updated replicas are not
    below replicas - partition where both are set; without them, the update
    revision is the current revision. *)
Theorem rollout_status_done_iff (sts : StatefulSet) :
  Type_ (UpdateStrategy (Spec sts)) = RollingUpdateStatefulSetStrategyType →
  (StatefulSetRolloutStatus sts).2 = None
  ∧ ((StatefulSetRolloutStatus sts).1.2 = true ↔
       ObservedGeneration (Status sts) ≠ 0
       ∧ Generation sts <= ObservedGeneration (Status sts)
       ∧ (∀ r, Replicas (Spec sts) = Some r → r <= ReadyReplicas (Status sts))
       ∧ (RollingUpdate (UpdateStrategy (Spec sts)) = None →
          UpdateRevision (Status sts) = CurrentRevision (Status sts))
       ∧ (∀ ru r p,
            RollingUpdate (UpdateStrategy (Spec sts)) = Some ru →
            Replicas (Spec sts) = Some r → Partition ru = Some p →
            GoInt.sub32 r p <= UpdatedReplicas (Status sts))).
Proof.
  intros Hty. unfold StatefulSetRolloutStatus. cbn zeta.
  rewrite Hty, String.eqb_refl. cbn [negb].
  destruct (Z.eqb_spec (ObservedGeneration (Status sts)) 0) as [Hz|Hz];
    destruct (Z.ltb_spec (ObservedGeneration (Status sts)) (Generation sts))
      as [Hgen|Hgen]; cbn [orb];
    try (split; [reflexivity|]; split; [discriminate|];
         intros (? & ? & _); done || lia).
  destruct (Replicas (Spec sts)) as [r|] eqn:Hr;
    [destruct (Z.ltb_spec (ReadyReplicas (Status sts)) r) as [Hready|Hready];
     [split; [reflexivity|]; split; [discriminate|];
      intros (_ & _ & H & _); specialize (H r eq_refl); lia|]|];
    destruct (RollingUpdate (UpdateStrategy (Spec sts))) as [[[p|]]|] eqn:Hru;
    cbn [Partition];
    try (destruct (Z.ltb_spec (UpdatedReplicas (Status sts)) (GoInt.sub32 r p))
           as [Hup|Hup]);
    try (destruct (String.eqb_spec (UpdateRevision (Status sts))
                                   (CurrentRevision (Status sts)))
           as [Hrev|Hrev]; cbn [negb]);
    (split; [reflexivity|]);
    (split;
     [first [discriminate
            |intros _; repeat split; intros; simplify_eq/=; done || lia]
     |first [reflexivity
            |intros (_ & _ & _ & Hnone & Hsome);
             first [specialize (Hsome _ _ _ eq_refl eq_refl eq_refl); lia
                   |specialize (Hnone eq_refl); done]]]).
Qed.

Lemma rollout_status_done_iff_witness :
  (StatefulSetRolloutStatus (partitioned_snapshot 3 3)).1.2 = true
  ∧ (StatefulSetRolloutStatus (partitioned_snapshot 3 2)).1.2 = false.
Proof.
  split.
  - apply (rollout_status_done_iff (partitioned_snapshot 3 3) eq_refl).
    cbn. split; [discriminate|]. split; [lia|].
    split; [intros r [= <-]; lia|]. split; [discriminate|].
    intros ru r p [= <-] [= <-] [= <-]. vm_compute. discriminate.
  - destruct (rollout_status_done_iff (partitioned_snapshot 3 2) eq_refl)
      as [_ [Hto _]].
    destruct (StatefulSetRolloutStatus (partitioned_snapshot 3 2)).1.2;
      [|reflexivity].
    destruct (Hto eq_refl) as (_ & _ & Hready & _).
    specialize (Hready 3 eq_refl). cbn in Hready. lia.
Defined.

(** X6: With a partition other than 0 in force, or without rolling-update
    parameters, every stateful set under the RollingUpdate strategy that
    [StatefulSetComplete] accepts is reported done by
    [StatefulSetRolloutStatus]. *)
Theorem complete_implies_rollout_done (sts : StatefulSet) :
  Type_ (UpdateStrategy (Spec sts)) = RollingUpdateStatefulSetStrategyType →
  (RollingUpdate (UpdateStrategy (Spec sts)) = None ∨ partition_of sts ≠ 0) →
  StatefulSetComplete sts = true →
  (StatefulSetRolloutStatus sts).1.2 = true.
Proof.
  intros Hty Hpart Hcomplete.
  destruct (StatefulsetFacts.generation_guard sts) as [Hguard _].
  destruct (StatefulsetFacts.replicas_mismatch_false sts) as [Hmis _].
  revert Hcomplete Hpart. unfold StatefulSetComplete, StatefulSetRolloutStatus.
  cbn zeta. rewrite Hty, String.eqb_refl. cbn [negb].
  change (String.eqb RollingUpdateStatefulSetStrategyType
                     OnDeleteStatefulSetStrategyType) with false.
  destruct (_ || _); [discriminate|]. destruct (Hguard eq_refl) as [Hz Hgen].
  destruct (replicas_mismatch sts); [discriminate|]. specialize (Hmis eq_refl).
  destruct (Z.eqb_spec (ObservedGeneration (Status sts)) 0); [done|].
  destruct (Z.ltb_spec (ObservedGeneration (Status sts)) (Generation sts));
    [lia|]. cbn [orb].
  unfold partition_of.
  destruct (Replicas (Spec sts)) as [r|] eqn:Hr.
  - destruct (Hmis r eq_refl) as [_ Hready].
    destruct (Z.ltb_spec (ReadyReplicas (Status sts)) r); [lia|].
    destruct (RollingUpdate (UpdateStrategy (Spec sts))) as [[[p|]]|];
      cbn [Partition].
    + destruct (Z.eqb_spec p 0) as [->|Hp]; [intros _ [[=]|?]; done|].
      destruct (String.eqb _ _); [discriminate|].
      destruct (Z.eqb_spec (CurrentReplicas (Status sts)) p); cbn [andb];
        [|discriminate].
      destruct (Z.eqb_spec (UpdatedReplicas (Status sts)) (GoInt.sub32 r p))
        as [Hup|]; [|discriminate].
      intros _ _. destruct (Z.ltb_spec (UpdatedReplicas (Status sts))
                                        (GoInt.sub32 r p)); [lia|reflexivity].
    + intros _ [[=]|?]; done.
    + cbn [Z.eqb]. destruct (String.eqb _ _); cbn [negb];
        [reflexivity|discriminate].
  - destruct (RollingUpdate (UpdateStrategy (Spec sts))) as [[[p|]]|];
      cbn [Partition]; try (intros _ [[=]|?]; done).
    cbn [Z.eqb]. destruct (String.eqb _ _); cbn [negb];
      [reflexivity|discriminate].
Qed.

Lemma complete_implies_rollout_done_witness :
  (StatefulSetRolloutStatus (partitioned_snapshot 3 3)).1 =
    ("partitioned roll out complete: 2 new pods have been updated..." +:+ nl,
     true).
Proof.
  pose proof (complete_implies_rollout_done (partitioned_snapshot 3 3)
                eq_refl) as Hdone.
  destruct (StatefulSetRolloutStatus (partitioned_snapshot 3 3))
    as [[message done] err] eqn:Hstatus.
  cbn in Hdone. rewrite Hdone.
  - vm_compute in Hstatus. by injection Hstatus as <- _ _.
  - right. vm_compute. discriminate.
  - reflexivity.
Defined.

(** The hypothesis on the partition is needed: with partition 0 the last
    step of an update leaves 0 updated replicas, which is complete for
    [StatefulSetComplete] and still "waiting" for
    [StatefulSetRolloutStatus]. *)
Lemma complete_without_rollout_done :
  let sts := settled {| Type_ := RollingUpdateStatefulSetStrategyType;
                        RollingUpdate := Some {| Partition := Some 0 |} |}
                     (Some 3) 0 in
  StatefulSetComplete sts = true
  ∧ (StatefulSetRolloutStatus sts).1.2 = false.
Proof. split; reflexivity. Qed.

End RolloutFacts.

(* ===================================================================== *)
(** ** Further properties of the tracked sets *)
(* ===================================================================== *)

Module TrackingFacts.
Import Multitrack Accounting.

(** What [registerAll] holds: the zero state under every name of the specs,
    and nothing else. *)
Lemma registerAll_fold (specs : list MultitrackSpec)
    (states : gmap string multitrackerResourceState) (name : string) :
  foldl (λ tracking spec, <[ResourceName spec := zeroState]> tracking)
        states specs !! name
  = if bool_decide (name ∈ ResourceName <$> specs)
    then Some zeroState else states !! name.
Proof.
  revert states. induction specs as [|spec specs IH]; intros states.
  - cbn. rewrite bool_decide_eq_false_2; [done|apply not_elem_of_nil].
  - cbn [foldl]. rewrite IH, fmap_cons.
    destruct (bool_decide_reflect (name ∈ ResourceName <$> specs)) as [Hin|Hin].
    + rewrite bool_decide_eq_true_2; [done|]. apply elem_of_cons. auto.
    + destruct (decide (name = ResourceName spec)) as [->|Hne].
      * rewrite bool_decide_eq_true_2 by apply list_elem_of_here.
        apply lookup_insert_eq.
      * rewrite bool_decide_eq_false_2
          by (rewrite elem_of_cons; intros [?|?]; done).
        by apply lookup_insert_ne.
Qed.

Lemma normalizeSpecs_names k specs :
  ResourceName <$> specsOf k (normalizeSpecs specs)
  = ResourceName <$> specsOf k specs.
Proof.
  destruct k; cbn; rewrite <- list_fmap_compose; reflexivity.
Qed.

Lemma tracking_startTracking k specs :
  tracking k (startTracking specs)
  = registerAll (specsOf k (normalizeSpecs specs)).
Proof. destruct k; reflexivity. Qed.

(** X7: Before any watcher runs, the tracked set of a kind holds a fresh state
    (not failed, no reason, no failure counted) for exactly the names of the
    specs of that kind. *)
Theorem startTracking_registers_all (k : kind) (specs : MultitrackSpecs)
    (name : string) :
  tracking k (startTracking specs) !! name
  = if bool_decide (name ∈ ResourceName <$> specsOf k specs)
    then Some zeroState else None.
Proof.
  rewrite tracking_startTracking. unfold registerAll.
  rewrite registerAll_fold, normalizeSpecs_names, lookup_empty. reflexivity.
Qed.


(** X9: The state machine under a normalized spec: for a tracked resource it
    never runs into a nil AllowFailuresCount, and if the fail mode was left
    empty or is one of the three defined ones it does not panic at all. *)
Theorem normalized_spec_never_panics
    (states : gmap string multitrackerResourceState)
    (spec : MultitrackSpec) (reason : string) :
  let spec' := setDefaultSpecValues spec in
  is_Some (states !! ResourceName spec) →
  handleResourceFailure states spec' reason ≠ Panicked NilPointerDereference
  ∧ (FailMode spec = "" ∨ definedFailMode (FailMode spec) →
     ∃ states' action,
       handleResourceFailure states spec' reason = Returned (states', action)).
Proof.
  intros spec' [st Hst].
  assert (∃ allow, AllowFailuresCount spec' = Some allow) as [allow Hallow]
      by (cbn; destruct (AllowFailuresCount spec); eauto).
  assert (states !! ResourceName spec' = Some st) as Hst' by exact Hst.
  rewrite (HandlerFacts.handleResourceFailure_tracked
             _ _ reason _ _ Hst' Hallow). cbn zeta.
  split.
  - repeat (match goal with
            | |- context [if ?c then _ else _] => destruct c
            end); discriminate.
  - intros Hmode.
    assert (definedFailMode (FailMode spec')) as Hdefined.
    { cbn. destruct Hmode as [->|Hmode]; [left; reflexivity|].
      destruct (String.eqb_spec (FailMode spec) ""); [left; reflexivity|done]. }
    destruct (_ <=? _); [eauto|].
    destruct Hdefined as [->|[->| ->]]; cbn; eauto.
Qed.

Lemma normalized_spec_never_panics_witness :
  ∃ states' action,
    handleResourceFailure {[ "web" := zeroState ]}
                          (setDefaultSpecValues (bareSpec "web" "" None))
                          "probe failed"
    = Returned (states', action).
Proof.
  destruct (normalized_spec_never_panics
              {[ "web" := zeroState ]} (bareSpec "web" "" None) "probe failed")
    as [_ Hreturns].
  - cbn. rewrite lookup_singleton_eq. eauto.
  - apply Hreturns. left. reflexivity.
Defined.

(** X10: A failure reported for a resource that has left its tracked set, through
    its ready condition or through its dismissal under
    IgnoreAndContinueDeployProcess, makes the handler panic on a nil state. *)
Theorem failure_after_removal_panics
    (states : gmap string multitrackerResourceState)
    (spec : MultitrackSpec) (reason later : string) :
  handleResourceFailure (handleResourceReadyCondition states spec).1 spec later
  = Panicked NilPointerDereference
  ∧ (∀ states',
       FailMode spec = IgnoreAndContinueDeployProcess →
       handleResourceFailure states spec reason
       = Returned (states', Some StopTrack) →
       handleResourceFailure states' spec later
       = Panicked NilPointerDereference).
Proof.
  split.
  - apply HandlerFacts.handleResourceFailure_untracked. cbn.
    apply lookup_delete_eq.
  - intros states' Hmode Hret.
    apply HandlerFacts.handleResourceFailure_untracked.
    destruct (states !! ResourceName spec) as [st|] eqn:Hst;
      [|by rewrite HandlerFacts.handleResourceFailure_untracked in Hret].
    destruct (AllowFailuresCount spec) as [allow|] eqn:Hallow;
      [|by rewrite HandlerFacts.handleResourceFailure_no_allowance in Hret].
    rewrite (HandlerFacts.handleResourceFailure_tracked
               _ _ reason _ _ Hst Hallow) in Hret.
    cbn zeta in Hret. rewrite Hmode in Hret.
    destruct (_ <=? _); [discriminate|]. cbn in Hret.
    injection Hret as <-. apply lookup_delete_eq.
Qed.

(** One failure more leaves a failed resource failed, if it leaves it
    tracked. *)
Lemma handleResourceFailure_keeps_failed states spec reason states' action
    name st :
  handleResourceFailure states spec reason = Returned (states', action) →
  states !! name = Some st → IsFailed st = true →
  states' !! name = None
  ∨ ∃ st', states' !! name = Some st' ∧ IsFailed st' = true.
Proof.
  intros Hret Hst Hf.
  destruct (decide (name = ResourceName spec)) as [->|Hne].
  - destruct (AllowFailuresCount spec) as [allow|] eqn:Hallow;
      [|by rewrite HandlerFacts.handleResourceFailure_no_allowance in Hret].
    rewrite (HandlerFacts.handleResourceFailure_tracked
               _ _ reason _ _ Hst Hallow) in Hret.
    cbn zeta in Hret.
    repeat (match type of Hret with
            | (if ?c then _ else _) = _ => destruct c
            end); try discriminate; injection Hret as <- <-;
      rewrite ?lookup_insert_eq, ?lookup_delete_eq; eauto.
  - right. exists st. split; [|done].
    by rewrite (AggregationFacts.handleResourceFailure_other
                  _ _ _ _ _ _ Hret Hne).
Qed.

(** X11: Nothing the watchers report takes a failure back: a resource marked
    failed is, after any notifications that the handlers return from, either
    out of its tracked set or still marked failed. *)
Theorem failed_stays_failed (events : list notification)
    (mt mt' : multitracker) (k : kind) (name : string)
    (st : multitrackerResourceState) :
  tracking k mt !! name = Some st →
  IsFailed st = true →
  deliver events mt = Returned mt' →
  tracking k mt' !! name = None
  ∨ ∃ st', tracking k mt' !! name = Some st' ∧ IsFailed st' = true.
Proof.
  revert mt st.
  induction events as [|[k' spec reason|k' spec] events IH];
    intros mt st Hst Hf Hrun; cbn in Hrun.
  - injection Hrun as <-. eauto.
  - unfold resourceFailed in Hrun.
    destruct (handleResourceFailure (tracking k' mt) spec reason)
      as [[states act]|] eqn:Hh; [|discriminate]. cbn in Hrun.
    destruct (decide (k' = k)) as [->|Hne].
    + destruct (handleResourceFailure_keeps_failed
                  _ _ _ _ _ _ _ Hh Hst Hf) as [Hnone|(st' & Hst' & Hf')].
      * left. apply (AggregationFacts.deliver_absent _ _ _ _ _ Hrun).
        by rewrite AggregationFacts.tracking_set_tracking.
      * apply (IH _ st' ltac:(by rewrite AggregationFacts.tracking_set_tracking)
                  Hf' Hrun).
    + apply (IH _ st ltac:(by rewrite AggregationFacts.tracking_set_tracking_ne)
                Hf Hrun).
  - destruct (decide ((k', ResourceName spec) = (k, name))) as [[= -> <-]|Hne].
    + left. apply (AggregationFacts.deliver_absent _ _ _ _ _ Hrun).
      unfold resourceReady, handleResourceReadyCondition. cbn.
      rewrite AggregationFacts.tracking_set_tracking. apply lookup_delete_eq.
    + apply (IH _ st ltac:(by rewrite AggregationFacts.resourceReady_other)
                Hf Hrun).
Qed.

Lemma failed_stays_failed_witness :
  let failed := {| IsFailed := true; LastFailureReason := "CrashLoopBackOff";
                   FailuresCount := 2 |} in
  let mt := set_tracking Deployment {[ "web" := failed ]}
                         (startTracking (sampleSpecs HopeUntilEndOfDeployProcess)) in
  ∃ mt',
    deliver [Failure Deployment (webSpec HopeUntilEndOfDeployProcess) "OOMKilled";
             Ready Pod (bareSpec "migrate" "" None)] mt = Returned mt'
    ∧ (tracking Deployment mt' !! "web" = None
       ∨ ∃ st', tracking Deployment mt' !! "web" = Some st'
                ∧ IsFailed st' = true).
Proof.
  intros failed mt.
  destruct (deliver [Failure Deployment (webSpec HopeUntilEndOfDeployProcess)
                             "OOMKilled";
                     Ready Pod (bareSpec "migrate" "" None)] mt)
    as [mt'|] eqn:Hrun; [|vm_compute in Hrun; discriminate Hrun].
  exists mt'. split; [reflexivity|].
  eapply (failed_stays_failed _ mt mt' Deployment "web" failed);
    [reflexivity|reflexivity|exact Hrun].
Defined.

(** X12: A resource that reaches its ready condition is taken out of its tracked
    set whether it was marked failed or not; if it was the only one marked
    failed, the run ends with [nil]. *)
Theorem ready_clears_latched_failure (Rreport Rcheck Rformat : MapRange)
    (k : kind) (spec : MultitrackSpec) (mt : multitracker) :
  (∀ k' name st,
     tracking k' mt !! name = Some st → IsFailed st = true →
     (k', name) = (k, ResourceName spec)) →
  (resourceReady k spec mt).2 = Some StopTrack
  ∧ tracking k (resourceReady k spec mt).1 !! ResourceName spec = None
  ∧ (completion Rreport Rcheck Rformat (resourceReady k spec mt).1).2 = None.
Proof.
  intros Honly.
  assert (tracking k (resourceReady k spec mt).1 !! ResourceName spec = None)
    as Hgone.
  { unfold resourceReady, handleResourceReadyCondition. cbn.
    rewrite AggregationFacts.tracking_set_tracking. apply lookup_delete_eq. }
  split; [reflexivity|]. split; [exact Hgone|].
  rewrite AggregationFacts.completion_verdict.
  assert (@hasFailedTrackingResources Rcheck (resourceReady k spec mt).1 = false)
    as ->; [|reflexivity].
  apply Bool.not_true_is_false. intros Hfailed.
  apply AggregationFacts.hasFailedTrackingResources_true in Hfailed
    as (k' & name & st & Hst & Hf).
  destruct (decide ((k, ResourceName spec) = (k', name))) as [[= <- <-]|Hne].
  - congruence.
  - rewrite AggregationFacts.resourceReady_other in Hst by done.
    specialize (Honly _ _ _ Hst Hf). congruence.
Qed.

Lemma ready_clears_latched_failure_witness :
  let failed := {| IsFailed := true; LastFailureReason := "CrashLoopBackOff";
                   FailuresCount := 2 |} in
  let mt := set_tracking Deployment {[ "web" := failed ]}
                         (startTracking (sampleSpecs HopeUntilEndOfDeployProcess)) in
  is_Some (completion listing_range reverse_range listing_range mt).2
  ∧ (completion listing_range reverse_range listing_range
       (resourceReady Deployment (webSpec HopeUntilEndOfDeployProcess) mt).1).2
    = None.
Proof.
  intros failed mt. split; [vm_compute; eauto|].
  apply (ready_clears_latched_failure
           listing_range reverse_range listing_range
           Deployment (webSpec HopeUntilEndOfDeployProcess) mt).
  intros k' name st Hst Hf.
  destruct (decide (k' = Deployment)) as [->|Hne]; unfold mt in Hst.
  - rewrite AggregationFacts.tracking_set_tracking in Hst.
    apply lookup_singleton_Some in Hst as [<- _]. reflexivity.
  - rewrite AggregationFacts.tracking_set_tracking_ne in Hst by done.
    rewrite tracking_startTracking in Hst. unfold registerAll in Hst.
    rewrite registerAll_fold, lookup_empty in Hst.
    destruct (bool_decide _); [|discriminate].
    injection Hst as <-. discriminate Hf.
Defined.

(** X13: The verdict does not depend on the order in which the maps are ranged
    over, and the final error depends on it only through the order of its
    lines. *)
Theorem verdict_independent_of_map_order (R1 R2 : MapRange) (mt : multitracker) :
  @hasFailedTrackingResources R1 mt = @hasFailedTrackingResources R2 mt
  ∧ @isTrackingAnyNonFailedResource R1 mt = @isTrackingAnyNonFailedResource R2 mt
  ∧ @failedMsgParts R1 mt ≡ₚ @failedMsgParts R2 mt.
Proof.
  assert (∀ p states, @anyState R1 p states = @anyState R2 p states) as Hany.
  { intros p states. apply Bool.eq_iff_eq_true.
    by rewrite !AggregationFacts.anyState_true. }
  split; [|split].
  - unfold hasFailedTrackingResources.
    induction (trackedSets mt) as [|states sets IH]; [done|].
    cbn. by rewrite Hany, IH.
  - unfold isTrackingAnyNonFailedResource.
    induction (trackedSets mt) as [|states sets IH]; [done|].
    cbn. by rewrite Hany, IH.
  - rewrite !AggregationFacts.failedMsgParts_failedResources.
    apply fmap_Permutation. apply NoDup_Permutation.
    + apply AggregationFacts.NoDup_failedResources.
    + apply AggregationFacts.NoDup_failedResources.
    + intros [[k name] st].
      by rewrite !AggregationFacts.elem_of_failedResources.
Qed.

(** X14: Some resource is still tracked and not failed iff the tracked set of
    some kind holds a state whose IsFailed flag is not set. *)
Theorem isTrackingAnyNonFailedResource_iff (R : MapRange) (mt : multitracker) :
  @isTrackingAnyNonFailedResource R mt = true ↔
  ∃ k name st, tracking k mt !! name = Some st ∧ IsFailed st = false.
Proof.
  unfold isTrackingAnyNonFailedResource.
  rewrite existsb_exists, AggregationFacts.trackedSets_tracking. split.
  - intros (states & Hin & Hany).
    apply list_elem_of_In, list_elem_of_fmap in Hin as (k & -> & _).
    apply AggregationFacts.anyState_true in Hany as (name & st & Hst & Hf).
    apply negb_true_iff in Hf. eauto.
  - intros (k & name & st & Hst & Hf). exists (tracking k mt). split.
    + apply list_elem_of_In, list_elem_of_fmap. exists k. split; [done|].
      destruct k; unfold kinds; rewrite !elem_of_cons; auto 10.
    + apply AggregationFacts.anyState_true. exists name, st.
      by rewrite Hf.
Qed.

(** X15: Under HopeUntilEndOfDeployProcess the watcher goes on after the
    tolerance is exceeded, and every further failure replaces the recorded
    reason: the last one reported is the one kept. *)
Theorem hope_records_latest_reason
    (states : gmap string multitrackerResourceState) (spec : MultitrackSpec)
    (reason1 reason2 : string) (st : multitrackerResourceState) (allow : Z) :
  FailMode spec = HopeUntilEndOfDeployProcess →
  AllowFailuresCount spec = Some allow →
  states !! ResourceName spec = Some st →
  allow < GoInt.incr (FailuresCount st) →
  allow < GoInt.incr (GoInt.incr (FailuresCount st)) →
  ∃ states1 states2,
    handleResourceFailure states spec reason1 = Returned (states1, None)
    ∧ handleResourceFailure states1 spec reason2 = Returned (states2, None)
    ∧ states2 !! ResourceName spec
      = Some {| IsFailed := true; LastFailureReason := reason2;
                FailuresCount := GoInt.incr (GoInt.incr (FailuresCount st)) |}
    ∧ ∀ name, name ≠ ResourceName spec → states2 !! name = states !! name.
Proof.
  intros Hmode Hallow Hst Hfirst Hsecond.
  set (st1 := {| IsFailed := true; LastFailureReason := reason1;
                 FailuresCount := GoInt.incr (FailuresCount st) |}).
  set (st2 := {| IsFailed := true; LastFailureReason := reason2;
                 FailuresCount := GoInt.incr (GoInt.incr (FailuresCount st)) |}).
  exists (<[ResourceName spec := st1]> states),
         (<[ResourceName spec := st2]> (<[ResourceName spec := st1]> states)).
  split; [|split; [|split]].
  - rewrite (HandlerFacts.handleResourceFailure_tracked
               _ _ reason1 _ _ Hst Hallow). cbn zeta. rewrite Hmode.
    destruct (Z.leb_spec (GoInt.incr (FailuresCount st)) allow); [lia|].
    reflexivity.
  - rewrite (HandlerFacts.handleResourceFailure_tracked
               _ _ reason2 st1 allow (lookup_insert_eq _ _ _) Hallow).
    cbn zeta. rewrite Hmode. cbn [FailuresCount st1].
    destruct (Z.leb_spec (GoInt.incr (GoInt.incr (FailuresCount st))) allow);
      [lia|]. reflexivity.
  - apply lookup_insert_eq.
  - intros name Hne. by rewrite !lookup_insert_ne.
Qed.

Lemma hope_records_latest_reason_witness :
  ∃ states1 states2,
    handleResourceFailure {[ "web" := incr_FailuresCount zeroState ]}
                          (webSpec HopeUntilEndOfDeployProcess)
                          "ImagePullBackOff"
    = Returned (states1, None)
    ∧ handleResourceFailure states1 (webSpec HopeUntilEndOfDeployProcess)
                            "CrashLoopBackOff"
      = Returned (states2, None)
    ∧ states2 !! "web"
      = Some {| IsFailed := true; LastFailureReason := "CrashLoopBackOff";
                FailuresCount := 3 |}.
Proof.
  destruct (hope_records_latest_reason
              {[ "web" := incr_FailuresCount zeroState ]}
              (webSpec HopeUntilEndOfDeployProcess)
              "ImagePullBackOff" "CrashLoopBackOff"
              (incr_FailuresCount zeroState) 1)
    as (states1 & states2 & H1 & H2 & H3 & _).
  - reflexivity.
  - reflexivity.
  - reflexivity.
  - vm_compute. reflexivity.
  - vm_compute. reflexivity.
  - exists states1, states2. split; [exact H1|]. split; [exact H2|exact H3].
Defined.


(** X16: The allowance is a number of failures: a freshly tracked resource takes
    [n] failures, for every [n] up to AllowFailuresCount, without being
    marked failed and without a reason recorded, whatever its fail mode, and
    its counter then stands at [n]. *)
Theorem allowed_failures_absorbed (k : kind) (spec : MultitrackSpec)
    (reason : string) (allow : Z) (n : nat) (mt : multitracker) :
  AllowFailuresCount spec = Some allow →
  allow < GoInt.max_int →
  Z.of_nat n <= allow →
  tracking k mt !! ResourceName spec = Some zeroState →
  ∃ mt',
    deliver (replicate n (Failure k spec reason)) mt = Returned mt'
    ∧ tracking k mt' !! ResourceName spec
      = Some {| IsFailed := false; LastFailureReason := "";
                FailuresCount := Z.of_nat n |}
    ∧ ∀ k' name, (k', name) ≠ (k, ResourceName spec) →
                 tracking k' mt' !! name = tracking k' mt !! name.
Proof.
  intros Hallow Hmax.
  assert (∀ (m : nat) (count : Z) (mt0 : multitracker),
            0 <= count → count + Z.of_nat m <= allow →
            tracking k mt0 !! ResourceName spec
            = Some {| IsFailed := false; LastFailureReason := "";
                      FailuresCount := count |} →
            ∃ mt',
              deliver (replicate m (Failure k spec reason)) mt0 = Returned mt'
              ∧ tracking k mt' !! ResourceName spec
                = Some {| IsFailed := false; LastFailureReason := "";
                          FailuresCount := count + Z.of_nat m |}
              ∧ ∀ k' name, (k', name) ≠ (k, ResourceName spec) →
                           tracking k' mt' !! name = tracking k' mt0 !! name)
    as Hsteps.
  { induction m as [|m IH]; intros count mt0 Hpos Hle Hst.
    - exists mt0. cbn. rewrite Z.add_0_r. auto.
    - cbn [replicate deliver]. unfold resourceFailed at 1.
      rewrite (HandlerFacts.handleResourceFailure_tracked
                 _ _ reason _ _ Hst Hallow). cbn zeta.
      unfold incr_FailuresCount. cbn [FailuresCount IsFailed LastFailureReason].
      assert (GoInt.incr count = count + 1) as ->.
      { apply GoIntFacts.incr_exact. unfold GoInt.min_int, GoInt.min_signed,
          GoInt.int_size. cbn. lia. }
      destruct (Z.leb_spec (count + 1) allow); [|lia]. cbn.
      destruct (IH (count + 1)
                   (set_tracking k
                      (<[ResourceName spec :=
                           {| IsFailed := false; LastFailureReason := "";
                              FailuresCount := count + 1 |}]> (tracking k mt0))
                      mt0)) as (mt' & Hrun & Hst' & Hothers).
      + lia.
      + lia.
      + rewrite AggregationFacts.tracking_set_tracking. apply lookup_insert_eq.
      + exists mt'. split; [exact Hrun|]. split.
        * rewrite Hst'. do 2 f_equal. lia.
        * intros k' name Hne. rewrite (Hothers k' name Hne).
          destruct (decide (k = k')) as [<-|Hk].
          -- rewrite AggregationFacts.tracking_set_tracking.
             apply lookup_insert_ne. congruence.
          -- by rewrite AggregationFacts.tracking_set_tracking_ne. }
  intros Hle Hst. apply (Hsteps n 0 mt); [lia|lia|exact Hst].
Qed.

Lemma allowed_failures_absorbed_witness :
  ∃ mt',
    deliver (replicate 3 (Failure StatefulSet explicitSpec "probe failed"))
            (startTracking (sampleSpecs "")) = Returned mt'
    ∧ tracking StatefulSet mt' !! "db"
      = Some {| IsFailed := false; LastFailureReason := "";
                FailuresCount := 3 |}.
Proof.
  destruct (allowed_failures_absorbed
              StatefulSet explicitSpec "probe failed" 3 3
              (startTracking (sampleSpecs "")))
    as (mt' & Hrun & Hst & _).
  - reflexivity.
  - vm_compute. reflexivity.
  - lia.
  - reflexivity.
  - exists mt'. split; [exact Hrun|exact Hst].
Defined.


(** X17: Normalization leaves a spec as it is iff the spec has a fail mode, an
    allowance, a failure threshold and a log condition of its own; and what
    it returns is such a spec, so that normalizing twice is normalizing
    once. *)
Theorem normalization_fixpoints (spec : MultitrackSpec) :
  (setDefaultSpecValues spec = spec ↔
     FailMode spec ≠ ""
     ∧ is_Some (AllowFailuresCount spec)
     ∧ is_Some (FailureThresholdSeconds spec)
     ∧ ShowLogsUntil spec ≠ "")
  ∧ setDefaultSpecValues (setDefaultSpecValues spec) = setDefaultSpecValues spec.
Proof.
  split; [|apply HandlerFacts.setDefaultSpecValues_idempotent].
  destruct spec as [name ns mode allow threshold re byName logs skip only].
  unfold setDefaultSpecValues. cbn. split.
  - intros [= Hmode Hallow Hthreshold Hlogs].
    destruct (String.eqb_spec mode "") as [->|?]; [discriminate Hmode|].
    destruct (String.eqb_spec logs "") as [->|?]; [discriminate Hlogs|].
    destruct allow, threshold; try discriminate. eauto.
  - intros (Hmode & [a ->] & [t ->] & Hlogs).
    apply String.eqb_neq in Hmode, Hlogs. by rewrite Hmode, Hlogs.
Qed.

End TrackingFacts.

(* ===================================================================== *)
(** ** Properties of the log filter *)
(* ===================================================================== *)

Module LogFacts.
Import Multitrack Logs.

Lemma skipped_true spec chunk :
  skipped spec chunk = true ↔ ContainerName chunk ∈ SkipLogsForContainers spec.
Proof.
  unfold skipped. rewrite existsb_exists. split.
  - intros (name & Hin & Heq). apply String.eqb_eq in Heq as ->.
    by apply list_elem_of_In.
  - intros Hin. exists (ContainerName chunk). split.
    + by apply list_elem_of_In.
    + apply String.eqb_refl.
Qed.

Lemma showLogs_fold (names : list string) (container : string) (init : bool) :
  foldl (λ showLogs containerName,
           if String.eqb containerName container then true else showLogs)
        init names = true ↔
  init = true ∨ container ∈ names.
Proof.
  revert init. induction names as [|name names IH]; intros init; cbn [foldl].
  - split; [auto|]. intros [?|Hin]; [done|]. by apply elem_of_nil in Hin.
  - rewrite IH, elem_of_cons.
    destruct (String.eqb_spec name container) as [->|Hne].
    + split; auto.
    + split; [intros [?|?]; auto|]. intros [?|[?|?]]; auto; congruence.
Qed.

Lemma showLogs_true spec chunk :
  showLogs spec chunk = true ↔
  ShowLogsOnlyForContainers spec = []
  ∨ ContainerName chunk ∈ ShowLogsOnlyForContainers spec.
Proof.
  unfold showLogs. rewrite showLogs_fold.
  destruct (ShowLogsOnlyForContainers spec) as [|name names]; cbn.
  - split; auto.
  - split; (intros [?|?]; [done|auto]).
Qed.

(** The calls made under a regexp are one per matching line. *)
Lemma matching_calls_fold (keep : LogLine → bool) (header : string)
    (lines : list LogLine) (calls : list OutputLogLines) :
  foldl (λ calls logLine,
           if keep logLine then calls ++ [(header, [logLine])] else calls)
        calls lines
  = calls ++ ((λ logLine, (header, [logLine]))
                <$> filter (λ logLine, keep logLine = true) lines).
Proof.
  revert calls. induction lines as [|line lines IH]; intros calls.
  - cbn. by rewrite app_nil_r.
  - cbn [foldl]. rewrite IH, filter_cons.
    case_decide as Hkeep.
    + rewrite Hkeep. cbn. by rewrite <- app_assoc.
    + apply not_true_is_false in Hkeep. by rewrite Hkeep.
Qed.

(** X18: Which logs are shown: nothing is written for a container that is in
    SkipLogsForContainers, even when ShowLogsOnlyForContainers names it, nor
    for one that a non-empty ShowLogsOnlyForContainers leaves out; for every
    other container something is written unless a regexp rejects every
    line. *)
Theorem log_chunk_shown_iff (FindString : Regexp → string → string)
    (header : string) (spec : MultitrackSpec) (chunk : ContainerLogChunk) :
  (ContainerName chunk ∈ SkipLogsForContainers spec
   ∨ (ShowLogsOnlyForContainers spec ≠ []
      ∧ ContainerName chunk ∉ ShowLogsOnlyForContainers spec) →
   displayContainerLogChunk FindString header spec (Some chunk) = Returned [])
  ∧ (ContainerName chunk ∉ SkipLogsForContainers spec →
     ShowLogsOnlyForContainers spec = []
     ∨ ContainerName chunk ∈ ShowLogsOnlyForContainers spec →
     logRegexp spec chunk = None →
     displayContainerLogChunk FindString header spec (Some chunk)
     = Returned [(header, LogLines chunk)]).
Proof.
  unfold displayContainerLogChunk. cbn.
  pose proof (skipped_true spec chunk) as Hskip.
  pose proof (showLogs_true spec chunk) as Hshow.
  split.
  - intros [Hin|[Hne Hout]].
    + destruct Hskip as [_ Hskip]. by rewrite (Hskip Hin).
    + destruct (skipped spec chunk); [done|].
      destruct (showLogs spec chunk); [|done].
      destruct Hshow as [Hshow _]. destruct (Hshow eq_refl); done.
  - intros Hnot Hallowed Hnone.
    destruct (skipped spec chunk);
      [destruct Hskip as [Hskip _]; by specialize (Hskip eq_refl)|].
    destruct Hshow as [_ Hshow]. rewrite (Hshow Hallowed), Hnone. reflexivity.
Qed.

(** X19: What is shown: all calls carry the header, and the lines they carry,
    taken together, are the lines of the chunk in their order, restricted,
    when a regexp applies, to those in whose message it finds a non-empty
    match; the regexp of the container, if there is one, takes precedence
    over the general one. *)
Theorem log_lines_filtered (FindString : Regexp → string → string)
    (header : string) (spec : MultitrackSpec) (chunk : ContainerLogChunk) :
  ContainerName chunk ∉ SkipLogsForContainers spec →
  ShowLogsOnlyForContainers spec = []
  ∨ ContainerName chunk ∈ ShowLogsOnlyForContainers spec →
  ∃ calls,
    displayContainerLogChunk FindString header spec (Some chunk) = Returned calls
    ∧ Forall (λ call, call.1 = header) calls
    ∧ concat (snd <$> calls)
      = match LogWatchRegexByContainerName spec !! ContainerName chunk,
              LogWatchRegex spec with
        | Some (Some re), _ | _, Some re =>
            filter (λ logLine, FindString re (Message logLine) ≠ "")
                   (LogLines chunk)
        | _, None => LogLines chunk
        end.
Proof.
  intros Hnot Hallowed. unfold displayContainerLogChunk. cbn.
  destruct (skipped spec chunk) eqn:Hskip;
    [by apply skipped_true in Hskip|].
  destruct (showLogs_true spec chunk) as [_ Hshow]. rewrite (Hshow Hallowed).
  cbn [negb].
  assert (∀ re,
            let calls :=
              foldl (λ calls logLine,
                       if negb (String.eqb (FindString re (Message logLine)) "")
                       then calls ++ [(header, [logLine])] else calls)
                    [] (LogLines chunk) in
            Forall (λ call : OutputLogLines, call.1 = header) calls
            ∧ concat (snd <$> calls)
              = filter (λ logLine, FindString re (Message logLine) ≠ "")
                       (LogLines chunk)) as Hre.
  { intros re calls. unfold calls.
    rewrite (matching_calls_fold
               (λ logLine, negb (String.eqb (FindString re (Message logLine)) ""))).
    cbn [app]. clear. induction (LogLines chunk) as [|line lines [IH1 IH2]].
    - split; [constructor|reflexivity].
    - rewrite !filter_cons.
      destruct (String.eqb_spec (FindString re (Message line)) "") as [Heq|Hne];
        cbn [negb].
      + rewrite decide_False by discriminate.
        rewrite decide_False by (intros H; by apply H). auto.
      + rewrite decide_True by done. rewrite decide_True by done.
        cbn. split; [constructor; [reflexivity|exact IH1]|by rewrite IH2]. }
  unfold logRegexp.
  destruct (LogWatchRegexByContainerName spec !! ContainerName chunk)
    as [[re|]|]; [|destruct (LogWatchRegex spec) as [re|]..];
    try (eexists; split; [reflexivity|]; apply Hre).
  - eexists. split; [reflexivity|]. split; [by repeat constructor|].
    cbn. apply app_nil_r.
  - eexists. split; [reflexivity|]. split; [by repeat constructor|].
    cbn. apply app_nil_r.
Qed.

Lemma log_lines_filtered_witness :
  ∃ calls,
    displayContainerLogChunk prefixFindString "deploy/web" explicitSpec
                             (Some (sampleChunk "app")) = Returned calls
    ∧ concat (snd <$> calls)
      = [ {| Timestamp := "12:00:01"; Message := "ERROR disk full" |};
          {| Timestamp := "12:00:03"; Message := "ERROR gave up" |} ].
Proof.
  destruct (log_lines_filtered prefixFindString "deploy/web" explicitSpec
                               (sampleChunk "app"))
    as (calls & Hcalls & _ & Hlines).
  - cbn. rewrite list_elem_of_singleton. discriminate.
  - left. reflexivity.
  - exists calls. split; [exact Hcalls|]. rewrite Hlines. reflexivity.
Defined.

End LogFacts.

(* ===================================================================== *)
(** ** Further properties of the status report *)
(* ===================================================================== *)

Module FrameFacts.
Import Multitrack Accounting.

Section Frame.
Context `{R : MapRange}.

(** The sections of a frame. *)
Lemma elem_of_frame mt c :
  c ∈ (PrintStatusReport mt).1.1 ↔
  c ∈ [Plain (nl +:+ "┌ "); Colored Bold "Status Report"; Plain nl]
  ∨ c ∈ concat ((λ '(name, status), printPod name status)
                  <$> range (PodsStatuses mt))
  ∨ c ∈ (printDeployments mt).1
  ∨ c ∈ concat ((λ '(name, status), printStatefulSet name status)
                  <$> range (StatefulSetsStatuses mt))
  ∨ c ∈ concat ((λ '(name, status), printDaemonSet name status)
                  <$> range (DaemonSetsStatuses mt))
  ∨ c ∈ concat ((λ '(name, status), printJob name status)
                  <$> range (JobsStatuses mt))
  ∨ c ∈ printUnavailable "po" (TrackingPods mt) (PodsStatuses mt)
  ∨ c ∈ printUnavailable "deploy" (TrackingDeployments mt)
                         (DeploymentsStatuses mt)
  ∨ c ∈ printUnavailable "sts" (TrackingStatefulSets mt)
                         (StatefulSetsStatuses mt)
  ∨ c ∈ printUnavailable "ds" (TrackingDaemonSets mt) (DaemonSetsStatuses mt)
  ∨ c ∈ printUnavailable "job" (TrackingJobs mt) (JobsStatuses mt)
  ∨ c ∈ [Plain "└ "; Colored Bold "Status Report"; Plain nl].
Proof.
  unfold PrintStatusReport. destruct (printDeployments mt) as [out shown].
  cbn [fst snd]. by rewrite !elem_of_app.
Qed.

Lemma elem_of_section {A} (print : string → A → list chunk)
    (statuses : gmap string A) (name : string) (status : A) (c : chunk) :
  statuses !! name = Some status →
  c ∈ print name status →
  c ∈ concat ((λ '(name, status), print name status) <$> range statuses).
Proof.
  intros Hstatus Hc. apply AggregationFacts.elem_of_concat.
  exists (print name status). split; [exact Hc|].
  apply list_elem_of_fmap. exists (name, status). split; [done|].
  by apply AggregationFacts.elem_of_range.
Qed.

(** The lines for the resources without a status: one for each tracked name
    that the statuses do not have, and no other. *)
Lemma elem_of_printUnavailable {A} (abbr : string)
    (tracked : gmap string multitrackerResourceState)
    (statuses : gmap string A) (c : chunk) :
  c ∈ printUnavailable abbr tracked statuses ↔
  ∃ name, is_Some (tracked !! name) ∧ statuses !! name = None
          ∧ c = Plain ("├ " +:+ abbr +:+ "/" +:+ name
                         +:+ " status unavailable" +:+ nl).
Proof.
  unfold printUnavailable. rewrite AggregationFacts.elem_of_concat. split.
  - intros (l & Hc & Hl).
    apply list_elem_of_fmap in Hl as ([name st] & -> & Hin).
    apply AggregationFacts.elem_of_range in Hin.
    destruct (statuses !! name) eqn:Hstatus; [by apply elem_of_nil in Hc|].
    apply list_elem_of_singleton in Hc. eauto.
  - intros (name & [st Hst] & Hstatus & ->).
    eexists. split; [|apply list_elem_of_fmap; exists (name, st);
                      split; [reflexivity|by apply AggregationFacts.elem_of_range]].
    cbn. rewrite Hstatus. apply list_elem_of_here.
Qed.

Lemma title_in_block spec name status shown :
  deploymentResource spec name status
    ∈ (printDeployment spec name status shown).1.
Proof.
  unfold printDeployment. destruct (deployment.IsFailed status).
  - cbn [fst]. apply elem_of_app. left. rewrite !elem_of_cons. auto.
  - destruct (printOnce FgBlue _ _ shown) as [progressing shown1].
    destruct (printOnce FgGreen _ _ shown1) as [satisfied shown2].
    cbn [fst]. apply elem_of_app. left. rewrite !elem_of_cons. auto.
Qed.

(** X20: Every frame accounts for every resource: one whose status is known has
    its title in the frame, and a tracked one without a status has its
    "status unavailable" line. *)
Theorem frame_accounts_for_every_resource (mt : multitracker) (k : kind)
    (name : string) :
  match titleOf k mt name with
  | Some title => title ∈ (PrintStatusReport mt).1.1
  | None =>
      is_Some (tracking k mt !! name) →
      unavailableLine k name ∈ (PrintStatusReport mt).1.1
  end.
Proof.
  destruct (titleOf k mt name) as [title|] eqn:Htitle.
  - destruct k; cbn in Htitle.
    + destruct (PodsStatuses mt !! name) as [status|] eqn:Hstatus;
        [|discriminate]. injection Htitle as <-.
      apply elem_of_frame. right. left.
      apply (elem_of_section printPod _ _ _ _ Hstatus).
      unfold printPod. rewrite elem_of_app, list_elem_of_singleton. auto.
    + destruct (DeploymentsStatuses mt !! name) as [status|] eqn:Hstatus;
        [|discriminate]. injection Htitle as <-.
      destruct (deploymentBlock mt name) as [[block shown]|] eqn:Hblock;
        [|unfold deploymentBlock in Hblock; by rewrite Hstatus in Hblock].
      destruct (ReportFacts.PrintStatusReport_block mt name block shown Hblock)
        as [(before & after & ->) _].
      rewrite !elem_of_app. right. left.
      unfold deploymentBlock in Hblock. rewrite Hstatus in Hblock.
      injection Hblock as Hblock.
      change block with (block, shown).1. rewrite <- Hblock.
      apply title_in_block.
    + destruct (StatefulSetsStatuses mt !! name) as [status|] eqn:Hstatus;
        [|discriminate]. injection Htitle as <-.
      apply elem_of_frame. do 3 right. left.
      apply (elem_of_section printStatefulSet _ _ _ _ Hstatus).
      unfold printStatefulSet. rewrite elem_of_app, elem_of_cons. auto.
    + destruct (DaemonSetsStatuses mt !! name) as [status|] eqn:Hstatus;
        [|discriminate]. injection Htitle as <-.
      apply elem_of_frame. do 4 right. left.
      apply (elem_of_section printDaemonSet _ _ _ _ Hstatus).
      unfold printDaemonSet. rewrite elem_of_app, elem_of_cons. auto.
    + destruct (JobsStatuses mt !! name) as [status|] eqn:Hstatus;
        [|discriminate]. injection Htitle as <-.
      apply elem_of_frame. do 5 right. left.
      apply (elem_of_section printJob _ _ _ _ Hstatus).
      unfold printJob. rewrite elem_of_app, elem_of_cons. auto.
  - intros Htracked. apply elem_of_frame. unfold unavailableLine.
    destruct k; cbn in Htitle, Htracked; apply fmap_None in Htitle.
    + do 6 right. left. apply elem_of_printUnavailable. eauto.
    + do 7 right. left. apply elem_of_printUnavailable. eauto.
    + do 8 right. left. apply elem_of_printUnavailable. eauto.
    + do 9 right. left. apply elem_of_printUnavailable. eauto.
    + do 10 right. left. apply elem_of_printUnavailable. eauto.
Qed.


(** X21: A frame changes nothing in the tracker but the shown messages, and
    those only grow: what was recorded for a deployment stays recorded, and
    the entry of a deployment without a status is not touched. *)
Theorem report_only_grows_shown (mt : multitracker) :
  let mt' := (PrintStatusReport mt).1.2 in
  mt' = set_ShownDeploymentMessages (ShownDeploymentMessages mt') mt
  ∧ (∀ name message,
       message ∈ default ∅ (ShownDeploymentMessages mt !! name) →
       message ∈ default ∅ (ShownDeploymentMessages mt' !! name))
  ∧ (∀ name,
       DeploymentsStatuses mt !! name = None →
       ShownDeploymentMessages mt' !! name = ShownDeploymentMessages mt !! name).
Proof.
  cbn zeta.
  assert (∀ name,
            DeploymentsStatuses mt !! name = None →
            ShownDeploymentMessages (PrintStatusReport mt).1.2 !! name
            = ShownDeploymentMessages mt !! name) as Hkept.
  { intros name Hnone. rewrite AggregationFacts.PrintStatusReport_tracker.
    cbn. unfold printDeployments.
    apply (ReportFacts.printDeployments_others
             (DeploymentsSpecs mt) (range (DeploymentsStatuses mt)) []
             (ShownDeploymentMessages mt) name).
    rewrite list_elem_of_fmap. intros ([n status] & -> & Hin).
    apply AggregationFacts.elem_of_range in Hin. cbn in Hnone. congruence. }
  split; [|split; [|exact Hkept]].
  - by rewrite AggregationFacts.PrintStatusReport_tracker.
  - intros name message Hin.
    destruct (DeploymentsStatuses mt !! name) as [status|] eqn:Hstatus;
      [|by rewrite Hkept].
    destruct (deploymentBlock mt name) as [[block shown]|] eqn:Hblock;
      [|unfold deploymentBlock in Hblock; by rewrite Hstatus in Hblock].
    destruct (ReportFacts.PrintStatusReport_block mt name block shown Hblock)
      as [_ ->]. cbn [default].
    unfold deploymentBlock in Hblock. rewrite Hstatus in Hblock.
    injection Hblock as Hblock.
    change shown with (block, shown).2. rewrite <- Hblock.
    apply ReportFacts.printDeployment_shown. auto.
Qed.

(** The "✅" lines of a deployment: one for each message of a satisfied
    ready condition that had not been shown before and that no satisfied
    progressing condition of the same status carries. *)
Lemma printDeployment_satisfiedLine spec name status shown m :
  satisfiedLine m ∈ (printDeployment spec name status shown).1 ↔
  deployment.IsFailed status = false
  ∧ (m ∉ shown)
  ∧ (∃ cond,
       cond ∈ deployment.ReadyConditions (deployment.ReadyStatus status)
       ∧ deployment.IsSatisfied cond = true
       ∧ deployment.Message cond = m)
  ∧ ¬ ∃ cond,
        cond ∈ deployment.ProgressingConditions (deployment.ReadyStatus status)
        ∧ deployment.IsSatisfied cond = true
        ∧ deployment.Message cond = m.
Proof.
  unfold satisfiedLine, printDeployment.
  assert (∀ l : list chunk,
            Colored FgGreen ("✅ " +:+ m) ∈
              [Plain "├ "; deploymentResource spec name status; Plain nl] ++ l
            ↔ Colored FgGreen ("✅ " +:+ m) ∈ l) as Htitle.
  { intros l. rewrite elem_of_app, !elem_of_cons, elem_of_nil. split; [|auto].
    intros [[[=]|[Heq|[[=]|[]]]]|?]; [|done]. exfalso. revert Heq.
    unfold deploymentResource.
    repeat (match goal with
            | |- context [if ?c then _ else _] => destruct c
            end); intros [=]. }
  destruct (deployment.IsFailed status).
  - cbn [fst]. rewrite Htitle, elem_of_app, ReportFacts.colored_in_detail.
    split; [|intros [[=] _]].
    intros [[[=] _]|Hpods].
    by apply ReportFacts.printFailedPods_colored in Hpods.
  - pose proof (ReportFacts.printOnce_colored FgBlue "↻  "
                  (deployment.ProgressingConditions
                     (deployment.ReadyStatus status))
                  shown FgGreen ("✅ " +:+ m)) as Hblue.
    pose proof (ReportFacts.printOnce_shown FgBlue "↻  "
                  (deployment.ProgressingConditions
                     (deployment.ReadyStatus status)) shown m) as Hshown.
    destruct (printOnce FgBlue _ _ shown) as [progressing shown1].
    pose proof (ReportFacts.printOnce_colored FgGreen "✅ "
                  (deployment.ReadyConditions (deployment.ReadyStatus status))
                  shown1 FgGreen ("✅ " +:+ m)) as Hgreen.
    destruct (printOnce FgGreen _ _ shown1) as [satisfied shown2].
    cbn [fst snd] in *. rewrite Htitle, !elem_of_app. split.
    + intros [Hp|[Hwait|[Hsat|Hpods]]].
      * by apply Hblue in Hp as [[=] _].
      * destruct (0 <? _); [|by apply elem_of_nil in Hwait].
        by apply ReportFacts.colored_in_detail in Hwait as [[=] _].
      * apply Hgreen in Hsat as (_ & cond & Hin & Hs & Heq & Hnew).
        apply (inj (String.app "✅ ")) in Heq. subst m.
        split; [done|]. split; [|split; [eauto|]].
        -- intros Hold. apply Hnew, Hshown. auto.
        -- intros Hprog. apply Hnew, Hshown. auto.
      * by apply ReportFacts.printFailedPods_colored in Hpods.
    + intros (_ & Hnew & (cond & Hin & Hs & <-) & Hnoprog).
      right. right. left. apply Hgreen. split; [done|].
      exists cond. repeat split; auto.
      intros Hold. apply Hshown in Hold as [?|?]; done.
Qed.

(** X22: The "↻" and the "✅" lines share one record of shown messages: a message
    that a satisfied progressing condition carries never gets a "✅" line in
    the same block, whatever the ready conditions say, and is on record after
    the block. *)
Theorem progressing_message_preempts_ready
    (spec : MultitrackSpec) (name : string)
    (status : deployment.DeploymentStatus) (shown : gset string)
    (cond : deployment.ReadyCondition) :
  deployment.IsFailed status = false →
  cond ∈ deployment.ProgressingConditions (deployment.ReadyStatus status) →
  deployment.IsSatisfied cond = true →
  (satisfiedLine (deployment.Message cond)
     ∉ (printDeployment spec name status shown).1)
  ∧ deployment.Message cond ∈ (printDeployment spec name status shown).2.
Proof.
  intros Hok Hin Hsat. split.
  - rewrite printDeployment_satisfiedLine. intros (_ & _ & _ & Hnone).
    apply Hnone. eauto.
  - apply ReportFacts.printDeployment_shown. right. eauto.
Qed.


(** The messages of the ready conditions that are not satisfied, in their
    order. *)
Lemma unreadyMsgs_filter conds :
  unreadyMsgs conds
  = deployment.Message
      <$> filter (λ cond, deployment.IsSatisfied cond = false) conds.
Proof.
  unfold unreadyMsgs.
  assert (∀ msgs,
            foldl (λ msgs cond,
                     if negb (deployment.IsSatisfied cond)
                     then msgs ++ [deployment.Message cond] else msgs)
                  msgs conds
            = msgs ++ (deployment.Message
                         <$> filter (λ cond, deployment.IsSatisfied cond = false)
                                    conds)) as Hfold.
  { induction conds as [|cond conds IH]; intros msgs.
    - cbn. by rewrite app_nil_r.
    - cbn [foldl]. rewrite IH, filter_cons. case_decide as Hsat.
      + rewrite Hsat. cbn. by rewrite <- app_assoc.
      + apply not_false_is_true in Hsat. by rewrite Hsat. }
  apply Hfold.
Qed.

(** X23: The "⌚" line of a deployment that is not marked failed: it lists the
    messages of the ready conditions that are not satisfied, in their order,
    and is in the block iff there is such a condition, shown before or not:
    unlike the "↻" and "✅" lines it is repeated in every frame. *)
Theorem waiting_line_iff_unready (spec : MultitrackSpec) (name : string)
    (status : deployment.DeploymentStatus) (shown : gset string) :
  deployment.IsFailed status = false →
  let messages :=
    deployment.Message
      <$> filter (λ cond, deployment.IsSatisfied cond = false)
                 (deployment.ReadyConditions (deployment.ReadyStatus status)) in
  waitingLine messages ∈ (printDeployment spec name status shown).1 ↔
  messages ≠ [].
Proof.
  intros Hok messages. unfold printDeployment. rewrite Hok.
  pose proof (ReportFacts.printOnce_colored FgBlue "↻  "
                (deployment.ProgressingConditions
                   (deployment.ReadyStatus status))
                shown FgYellow ("⌚ " +:+ String.concat ", " messages)) as Hblue.
  destruct (printOnce FgBlue _ _ shown) as [progressing shown1].
  pose proof (ReportFacts.printOnce_colored FgGreen "✅ "
                (deployment.ReadyConditions (deployment.ReadyStatus status))
                shown1 FgYellow ("⌚ " +:+ String.concat ", " messages))
    as Hgreen.
  destruct (printOnce FgGreen _ _ shown1) as [satisfied shown2].
  cbn [fst snd] in *. rewrite unreadyMsgs_filter. fold messages.
  unfold waitingLine. rewrite !elem_of_app. split.
  - intros [Htitle|[Hp|[Hwait|[Hsat|Hpods]]]].
    + exfalso. rewrite !elem_of_cons, elem_of_nil in Htitle.
      destruct Htitle as [[=]|[Heq|[[=]|[]]]]. revert Heq.
      unfold deploymentResource.
      repeat (match goal with
              | |- context [if ?c then _ else _] => destruct c
              end); intros [=].
    + by apply Hblue in Hp as [[=] _].
    + destruct messages; [by apply elem_of_nil in Hwait|done].
    + by apply Hgreen in Hsat as [[=] _].
    + by apply ReportFacts.printFailedPods_colored in Hpods.
  - intros Hne. right. right. left.
    destruct messages as [|message messages']; [done|].
    cbn [length]. apply ReportFacts.colored_in_detail. done.
Qed.

(** What a block leaves on record: what was there, and the messages of the
    satisfied progressing and ready conditions of a deployment that is not
    marked failed. *)
Lemma printDeployment_shown_iff spec name status shown m :
  m ∈ (printDeployment spec name status shown).2 ↔
  m ∈ shown
  ∨ (deployment.IsFailed status = false
     ∧ ∃ cond,
         (cond ∈ deployment.ProgressingConditions (deployment.ReadyStatus status)
          ∨ cond ∈ deployment.ReadyConditions (deployment.ReadyStatus status))
         ∧ deployment.IsSatisfied cond = true
         ∧ deployment.Message cond = m).
Proof.
  unfold printDeployment. destruct (deployment.IsFailed status).
  - cbn [snd]. split; [auto|]. intros [?|[[=] _]]. done.
  - pose proof (ReportFacts.printOnce_shown FgBlue "↻  "
                  (deployment.ProgressingConditions
                     (deployment.ReadyStatus status)) shown m) as Hblue.
    destruct (printOnce FgBlue _ _ shown) as [progressing shown1].
    pose proof (ReportFacts.printOnce_shown FgGreen "✅ "
                  (deployment.ReadyConditions (deployment.ReadyStatus status))
                  shown1 m) as Hgreen.
    destruct (printOnce FgGreen _ _ shown1) as [satisfied shown2].
    cbn [snd] in *. rewrite Hgreen, Hblue. split.
    + intros [[?|(cond & ? & ? & ?)]|(cond & ? & ? & ?)].
      * by left.
      * right. split; [done|]. exists cond. auto.
      * right. split; [done|]. exists cond. auto.
    + intros [?|(_ & cond & [?|?] & ? & ?)].
      * by left; left.
      * left; right. exists cond. auto.
      * right. exists cond. auto.
Qed.


(** X25: A block always tells what failed: the failure reason of a deployment
    marked failed, and the failure reason of every pod of the deployment
    that is marked failed, whether the deployment itself is or not. *)
Theorem failures_always_listed (spec : MultitrackSpec) (name : string)
    (status : deployment.DeploymentStatus) (shown : gset string) :
  (deployment.IsFailed status = true →
   Colored FgRed ("❌ " +:+ deployment.FailedReason status)
     ∈ (printDeployment spec name status shown).1)
  ∧ (∀ podName podStatus,
       deployment.Pods status !! podName = Some podStatus →
       pod.IsFailed podStatus = true →
       Colored FgRed ("❌ pod/" +:+ podName +:+ " "
                        +:+ pod.FailedReason podStatus)
         ∈ (printDeployment spec name status shown).1).
Proof.
  assert (∀ podName podStatus,
            deployment.Pods status !! podName = Some podStatus →
            pod.IsFailed podStatus = true →
            Colored FgRed ("❌ pod/" +:+ podName +:+ " "
                             +:+ pod.FailedReason podStatus)
              ∈ printFailedPods (deployment.Pods status)) as Hpods.
  { intros podName podStatus Hpod Hfailed. unfold printFailedPods.
    apply AggregationFacts.elem_of_concat. eexists. split;
      [|apply list_elem_of_fmap; exists (podName, podStatus);
        split; [reflexivity|by apply AggregationFacts.elem_of_range]].
    cbn. rewrite Hfailed. apply ReportFacts.colored_in_detail. done. }
  unfold printDeployment. split.
  - intros ->. cbn [fst]. rewrite !elem_of_app. right. left.
    by apply ReportFacts.colored_in_detail.
  - intros podName podStatus Hpod Hfailed.
    specialize (Hpods podName podStatus Hpod Hfailed).
    destruct (deployment.IsFailed status).
    + cbn [fst]. rewrite !elem_of_app. auto.
    + destruct (printOnce FgBlue _ _ shown) as [progressing shown1].
      destruct (printOnce FgGreen _ _ shown1) as [satisfied shown2].
      cbn [fst]. rewrite !elem_of_app. auto 10.
Qed.

End Frame.

Lemma progressing_message_preempts_ready_witness :
  satisfiedLine "replicas: 2/3"
    ∉ (@printDeployment listing_range (webSpec HopeUntilEndOfDeployProcess) "web"
                       rollingStatus ∅).1.
Proof.
  apply (@progressing_message_preempts_ready listing_range
           (webSpec HopeUntilEndOfDeployProcess) "web" rollingStatus ∅
           {| deployment.Message := "replicas: 2/3";
              deployment.IsSatisfied := true |}).
  - reflexivity.
  - apply list_elem_of_here.
  - reflexivity.
Defined.

Lemma waiting_line_iff_unready_witness :
  waitingLine ["available: 3/3"]
    ∈ (@printDeployment listing_range (webSpec HopeUntilEndOfDeployProcess) "web"
                       rollingStatus {[ "available: 3/3" ]}).1.
Proof.
  apply (@waiting_line_iff_unready listing_range
           (webSpec HopeUntilEndOfDeployProcess) "web" rollingStatus
           {[ "available: 3/3" ]} eq_refl).
  discriminate.
Defined.

(** X24: A frame rendered again while no status has changed repeats no "↻" and no
    "✅" line for a deployment, and records nothing new for it, whatever the
    order in which the two frames range over the maps. *)
Theorem unchanged_frame_repeats_nothing (R1 R2 : MapRange) (mt : multitracker)
    (name : string) (block2 : list chunk) (shown2 : gset string) :
  let mt1 := (@PrintStatusReport R1 mt).1.2 in
  @deploymentBlock R2 mt1 name = Some (block2, shown2) →
  (∀ message,
     (progressingLine message ∉ block2) ∧ (satisfiedLine message ∉ block2))
  ∧ ShownDeploymentMessages mt1 !! name = Some shown2
  ∧ ShownDeploymentMessages (@PrintStatusReport R2 mt1).1.2 !! name
    = ShownDeploymentMessages mt1 !! name.
Proof.
  intros mt1 Hblock2.
  assert (DeploymentsStatuses mt1 = DeploymentsStatuses mt
          ∧ DeploymentsSpecs mt1 = DeploymentsSpecs mt) as [Hstatuses Hspecs]
      by (unfold mt1; by rewrite AggregationFacts.PrintStatusReport_tracker).
  pose proof (@ReportFacts.PrintStatusReport_block R2 mt1 name block2 shown2
                Hblock2) as [_ Hafter].
  unfold deploymentBlock in Hblock2. rewrite Hstatuses, Hspecs in Hblock2.
  destruct (DeploymentsStatuses mt !! name) as [status|] eqn:Hstatus;
    [|discriminate]. cbn in Hblock2. injection Hblock2 as Hblock2.
  set (spec := default zeroSpec (DeploymentsSpecs mt !! name)) in *.
  destruct (@deploymentBlock R1 mt name) as [[block1 shown1]|] eqn:Hblock1;
    [|unfold deploymentBlock in Hblock1; by rewrite Hstatus in Hblock1].
  destruct (@ReportFacts.PrintStatusReport_block R1 mt name block1 shown1
              Hblock1) as [_ Hshown1]. fold mt1 in Hshown1.
  unfold deploymentBlock in Hblock1. rewrite Hstatus in Hblock1.
  cbn in Hblock1. injection Hblock1 as Hblock1. fold spec in Hblock1.
  rewrite Hshown1 in Hblock2. cbn [default] in Hblock2.
  assert (∀ cond,
            deployment.IsFailed status = false →
            cond ∈ deployment.ProgressingConditions (deployment.ReadyStatus status)
            ∨ cond ∈ deployment.ReadyConditions (deployment.ReadyStatus status) →
            deployment.IsSatisfied cond = true →
            deployment.Message cond ∈ shown1) as Hrecorded.
  { intros cond Hok Hin Hsat. change shown1 with (block1, shown1).2.
    rewrite <- Hblock1. apply @FrameFacts.printDeployment_shown_iff.
    right. split; [done|]. exists cond. auto. }
  assert (shown2 = shown1) as ->.
  { change shown2 with (block2, shown2).2. rewrite <- Hblock2.
    apply set_eq. intros m. rewrite @FrameFacts.printDeployment_shown_iff.
    split; [|auto]. intros [?|(Hok & cond & Hin & Hsat & <-)]; [done|].
    by apply Hrecorded. }
  split; [|split; [exact Hshown1|by rewrite Hafter]].
  intros message. change block2 with (block2, shown1).1. rewrite <- Hblock2.
  split.
  - rewrite @ReportFacts.printDeployment_progressingLine.
    intros (Hok & Hnew & cond & Hin & Hsat & <-).
    apply Hnew, Hrecorded; auto.
  - rewrite @FrameFacts.printDeployment_satisfiedLine.
    intros (Hok & Hnew & (cond & Hin & Hsat & <-) & _).
    apply Hnew, Hrecorded; auto.
Qed.

Lemma unchanged_frame_repeats_nothing_witness :
  let mt1 := (@PrintStatusReport listing_range
                (rollingTracker HopeUntilEndOfDeployProcess)).1.2 in
  ∃ block2 shown2,
    @deploymentBlock reverse_range mt1 "web" = Some (block2, shown2)
    ∧ (progressingLine "replicas: 2/3" ∉ block2)
    ∧ waitingLine ["available: 3/3"] ∈ block2.
Proof.
  intros mt1.
  destruct (@deploymentBlock reverse_range mt1 "web") as [[block2 shown2]|]
    eqn:Hblock; [|vm_compute in Hblock; discriminate Hblock].
  exists block2, shown2. split; [reflexivity|]. split.
  - apply (unchanged_frame_repeats_nothing
             listing_range reverse_range
             (rollingTracker HopeUntilEndOfDeployProcess) "web" block2 shown2
             Hblock).
  - vm_compute in Hblock. injection Hblock as <- _.
    apply (bool_decide_unpack _). vm_compute. exact I.
Defined.

End FrameFacts.

(* ===================================================================== *)
(** ** Properties of the run of [Multitrack] *)
(* ===================================================================== *)

Module RunFacts.
Import Multitrack Accounting Run.

Lemma noneFailed_verdict (Rreport Rcheck Rformat : MapRange) mt :
  noneFailed mt → (completion Rreport Rcheck Rformat mt).2 = None.
Proof.
  intros Hnone. rewrite AggregationFacts.completion_verdict.
  destruct (@hasFailedTrackingResources Rcheck mt) eqn:Hfailed; [|done].
  apply AggregationFacts.hasFailedTrackingResources_true in Hfailed
    as (k & name & st & Hst & Hf).
  rewrite (Hnone _ _ _ Hst) in Hf. discriminate.
Qed.

Lemma completion_tracking (Rreport Rcheck Rformat : MapRange) k mt :
  tracking k (completion Rreport Rcheck Rformat mt).1.2 = tracking k mt.
Proof.
  unfold completion.
  pose proof (@AggregationFacts.PrintStatusReport_tracking Rreport k mt) as Ht.
  destruct (@PrintStatusReport Rreport mt) as [[out mt'] err]. cbn in Ht.
  destruct err; [done|].
  by destruct (@hasFailedTrackingResources Rcheck mt').
Qed.

(** A failed resource makes the completion step answer with the aggregated
    error that has its line. *)
Lemma failed_verdict (Rreport Rcheck Rformat : MapRange) mt k name st :
  tracking k mt !! name = Some st → IsFailed st = true →
  ∃ parts before after,
    (completion Rreport Rcheck Rformat mt).2
    = Some (Errorf (String.concat nl parts))
    ∧ failedLine k name st ∈ parts
    ∧ String.concat nl parts = before +:+ failedLine k name st +:+ after.
Proof.
  intros Hst Hf.
  assert (failedLine k name st ∈ @failedMsgParts Rformat mt) as Hin.
  { rewrite AggregationFacts.failedMsgParts_failedResources.
    apply list_elem_of_fmap. exists (k, name, st). split; [reflexivity|].
    by apply AggregationFacts.elem_of_failedResources. }
  destruct (AggregationFacts.concat_contains nl _ _ Hin)
    as (before & after & Hpiece).
  exists (@failedMsgParts Rformat mt), before, after.
  split; [|split; [exact Hin|exact Hpiece]].
  rewrite AggregationFacts.completion_verdict.
  assert (@hasFailedTrackingResources Rcheck mt = true) as ->
      by (apply AggregationFacts.hasFailedTrackingResources_true; eauto).
  reflexivity.
Qed.

Section Steps.
Context (Rreport Rcheck Rformat : MapRange).

Lemma step_quiet e r r' :
  quiet e → step Rreport Rcheck Rformat e r = Returned r' →
  noneFailed (tracker r) → unfailed r →
  noneFailed (tracker r') ∧ unfailed r'.
Proof.
  intros Hquiet Hstep Hnone Hun.
  destruct e as [notice|watcher [msg|]| |]; cbn in Hquiet; try done;
    cbn in Hstep.
  - destruct (bool_decide_reflect (watcher ∈ waiting r)) as [Hin|_];
      injection Hstep as <-; [|done]. cbn. split; [done|].
    destruct Hun as [?|[Hw _]]; [by left|].
    rewrite Hw in Hin. by apply elem_of_nil in Hin.
  - destruct (returned r) as [res|] eqn:Hret; [by injection Hstep as <-|].
    pose proof (@AggregationFacts.PrintStatusReport_error Rreport (tracker r))
      as Herr.
    assert (∀ k, tracking k (@PrintStatusReport Rreport (tracker r)).1.2
                 = tracking k (tracker r)) as Htr
        by (intros k; apply AggregationFacts.PrintStatusReport_tracking).
    destruct (@PrintStatusReport Rreport (tracker r)) as [[out mt] err].
    cbn in Herr, Htr. subst err. injection Hstep as <-. cbn. split.
    + intros k name st. rewrite Htr. apply Hnone.
    + by left.
  - destruct (waiting r) as [|w ws] eqn:Hw; [|by injection Hstep as <-].
    pose proof (noneFailed_verdict Rreport Rcheck Rformat _ Hnone) as Hverdict.
    assert (∀ k, tracking k (completion Rreport Rcheck Rformat (tracker r)).1.2
                 = tracking k (tracker r)) as Htr
        by (intros k; apply completion_tracking).
    destruct (completion Rreport Rcheck Rformat (tracker r))
      as [[out mt] verdict].
    cbn in Hverdict, Htr. subst verdict. injection Hstep as <-. cbn. split.
    + intros k name st. rewrite Htr. apply Hnone.
    + right. split; [done|]. unfold deliverResult.
      destruct Hun as [->|[_ ->]]; reflexivity.
Qed.

Lemma exec_quiet events r r' :
  Forall quiet events → exec Rreport Rcheck Rformat events r = Returned r' →
  noneFailed (tracker r) → unfailed r →
  noneFailed (tracker r') ∧ unfailed r'.
Proof.
  intros Hquiet. revert r.
  induction Hquiet as [|e events He _ IH]; intros r Hexec Hnone Hun;
    cbn in Hexec.
  - by injection Hexec as <-.
  - destruct (step Rreport Rcheck Rformat e r) as [r1|] eqn:Hstep; [|discriminate]. cbn in Hexec.
    destruct (step_quiet e r r1 He Hstep Hnone Hun) as [Hnone1 Hun1].
    by apply (IH r1).
Qed.

Lemma step_aside k name st e r r' :
  aside (k, name) e → step Rreport Rcheck Rformat e r = Returned r' →
  tracking k (tracker r) !! name = Some st → IsFailed st = true →
  failing k name st r →
  tracking k (tracker r') !! name = Some st ∧ failing k name st r'.
Proof.
  intros Haside Hstep Hst Hf Hfail.
  destruct e as [[k' spec reason|k' spec]|watcher [msg|]| |];
    cbn in Haside; try done; cbn in Hstep.
  - destruct (resourceFailed k' spec reason (tracker r)) as [[mt act]|] eqn:Hh;
      [|discriminate]. cbn in Hstep. injection Hstep as <-. cbn.
    split; [|exact Hfail].
    by rewrite (AggregationFacts.resourceFailed_other
                  _ _ _ _ _ _ _ _ Hh Haside).
  - injection Hstep as <-. split; [|exact Hfail].
    exact (eq_trans (AggregationFacts.resourceReady_other
                       k' spec (tracker r) k name Haside) Hst).
  - destruct (bool_decide_reflect (watcher ∈ waiting r)) as [Hin|_];
      injection Hstep as <-; [|done]. cbn. split; [done|].
    destruct Hfail as [?|[Hw _]]; [by left|].
    rewrite Hw in Hin. by apply elem_of_nil in Hin.
  - destruct (returned r) as [res|] eqn:Hret; [by injection Hstep as <-|].
    pose proof (@AggregationFacts.PrintStatusReport_error Rreport (tracker r))
      as Herr.
    pose proof (@AggregationFacts.PrintStatusReport_tracking
                  Rreport k (tracker r)) as Htr.
    destruct (@PrintStatusReport Rreport (tracker r)) as [[out mt] err].
    cbn in Herr, Htr. subst err. injection Hstep as <-. cbn.
    split; [by rewrite Htr|by left].
  - destruct (waiting r) as [|w ws] eqn:Hw; [|by injection Hstep as <-].
    destruct (failed_verdict Rreport Rcheck Rformat _ _ _ _ Hst Hf)
      as (parts & before & after & Hverdict & Hin & Hpiece).
    pose proof (completion_tracking Rreport Rcheck Rformat k (tracker r))
      as Htr.
    destruct (completion Rreport Rcheck Rformat (tracker r))
      as [[out mt] verdict].
    cbn in Hverdict, Htr. subst verdict. injection Hstep as <-. cbn.
    split; [by rewrite Htr|]. right. split; [done|]. unfold deliverResult.
    destruct Hfail as [->|(_ & parts' & before' & after' & -> & ? & ?)];
      eauto 10.
Qed.

Lemma exec_aside k name st events r r' :
  Forall (aside (k, name)) events → exec Rreport Rcheck Rformat events r = Returned r' →
  tracking k (tracker r) !! name = Some st → IsFailed st = true →
  failing k name st r →
  tracking k (tracker r') !! name = Some st ∧ failing k name st r'.
Proof.
  intros Haside. revert r.
  induction Haside as [|e events He _ IH]; intros r Hexec Hst Hf Hfail;
    cbn in Hexec.
  - by injection Hexec as <-.
  - destruct (step Rreport Rcheck Rformat e r) as [r1|] eqn:Hstep; [|discriminate]. cbn in Hexec.
    destruct (step_aside k name st e r r1 He Hstep Hst Hf Hfail)
      as [Hst1 Hfail1].
    by apply (IH r1).
Qed.

End Steps.

(** C1, as the claim states it, fails: in a run over a pod, a deployment
    under FailWholeDeployProcessImmediately with AllowFailuresCount = 1 and a
    stateful set, the second failure of the deployment makes the handler
    return [tracker.StopTrack] and marks the deployment failed; its watcher
    then stops and the goroutine behind [wg.Wait] is given its turn, and
    still [Multitrack] has not returned: the watchers of the pod and of the
    stateful set are not done. *)
Lemma stop_action_does_not_end_run :
  let spec := webSpec FailWholeDeployProcessImmediately in
  let r0 := startRun (sampleSpecs FailWholeDeployProcessImmediately) in
  FailMode spec = FailWholeDeployProcessImmediately
  ∧ AllowFailuresCount spec = Some 1
  ∧ ∃ mt1 mt2 r,
      resourceFailed Deployment spec "ImagePullBackOff" (tracker r0)
      = Returned (mt1, None)
      ∧ resourceFailed Deployment spec "CrashLoopBackOff" mt1
        = Returned (mt2, Some StopTrack)
      ∧ exec listing_range listing_range listing_range
             [Notified (Failure Deployment spec "ImagePullBackOff");
              Notified (Failure Deployment spec "CrashLoopBackOff");
              Finished (Deployment, "web") None;
              AllDone] r0
        = Returned r
      ∧ tracking Deployment (tracker r) !! "web"
        = Some {| IsFailed := true; LastFailureReason := "CrashLoopBackOff";
                  FailuresCount := 2 |}
      ∧ waiting r = [(Pod, "migrate"); (StatefulSet, "db")]
      ∧ returned r = None.
Proof.
  cbn zeta. split; [reflexivity|]. split; [reflexivity|].
  eexists _, _, _. split; [vm_compute; reflexivity|].
  split; [vm_compute; reflexivity|].
  split; [vm_compute; reflexivity|].
  split; [vm_compute; reflexivity|]. split; reflexivity.
Qed.

(** C1, amended: under FailWholeDeployProcessImmediately with
    AllowFailuresCount = 1, the first failure of a freshly tracked resource
    returns [nil] (continue watching) and does not make [Multitrack] return;
    if nothing else is failed and nothing else is reported, the run can only
    end with [nil], and does so once every watcher is done.  The second
    failure sets IsFailed, records the reason in LastFailureReason and
    returns [tracker.StopTrack]; this does not make [Multitrack] return
    either: whatever is reported about other resources afterwards, as long
    as no watcher returns an error the run returns only with every watcher
    done, and then it returns the aggregated error, one of whose lines is
    "<kind>/<name> failed: <reason>" with that reason. *)
Theorem fail_immediately_fails_at_completion
    (Rreport Rcheck Rformat : MapRange) (k : kind) (spec : MultitrackSpec)
    (reason1 reason2 : string) :
  FailMode spec = FailWholeDeployProcessImmediately →
  AllowFailuresCount spec = Some 1 →
  let name := ResourceName spec in
  let first := {| IsFailed := false; LastFailureReason := "";
                  FailuresCount := 1 |} in
  let second := {| IsFailed := true; LastFailureReason := reason2;
                   FailuresCount := 2 |} in
  let line := abbrev k +:+ "/" +:+ name +:+ " failed: " +:+ reason2 in
  (∀ r, tracking k (tracker r) !! name = Some zeroState →
     ∃ mt1,
       resourceFailed k spec reason1 (tracker r) = Returned (mt1, None)
       ∧ step Rreport Rcheck Rformat (Notified (Failure k spec reason1)) r
         = Returned {| tracker := mt1; waiting := waiting r;
                       returned := returned r |}
       ∧ tracking k mt1 !! name = Some first
       ∧ (returned r = None → noneFailed (tracker r) →
          ∀ events r',
            Forall quiet events →
            exec Rreport Rcheck Rformat events
                 {| tracker := mt1; waiting := waiting r; returned := None |}
            = Returned r' →
            unfailed r'
            ∧ (waiting r' = [] →
               ∃ r'', step Rreport Rcheck Rformat AllDone r' = Returned r''
                      ∧ returned r'' = Some None)))
  ∧ (∀ r, returned r = None → tracking k (tracker r) !! name = Some first →
     ∃ mt2,
       resourceFailed k spec reason2 (tracker r)
       = Returned (mt2, Some StopTrack)
       ∧ step Rreport Rcheck Rformat (Notified (Failure k spec reason2)) r
         = Returned {| tracker := mt2; waiting := waiting r;
                       returned := None |}
       ∧ tracking k mt2 !! name = Some second
       ∧ ∀ events r',
           Forall (aside (k, name)) events →
           exec Rreport Rcheck Rformat events
                {| tracker := mt2; waiting := waiting r; returned := None |}
           = Returned r' →
           failing k name second r'
           ∧ (waiting r' = [] →
              ∃ r'' parts before after,
                step Rreport Rcheck Rformat AllDone r' = Returned r''
                ∧ returned r'' = Some (Some (Errorf (String.concat nl parts)))
                ∧ line ∈ parts
                ∧ String.concat nl parts = before +:+ line +:+ after)).
Proof.
  intros Hmode Hallow name first second line. split.
  - intros r Hst.
    set (mt1 := set_tracking k (<[name := first]> (tracking k (tracker r)))
                             (tracker r)).
    assert (resourceFailed k spec reason1 (tracker r) = Returned (mt1, None))
      as Hhandler.
    { unfold resourceFailed.
      rewrite (HandlerFacts.handleResourceFailure_tracked
                 _ _ reason1 _ _ Hst Hallow). reflexivity. }
    exists mt1. split; [exact Hhandler|]. split; [|split].
    + cbn. by rewrite Hhandler.
    + unfold mt1. rewrite AggregationFacts.tracking_set_tracking.
      apply lookup_insert_eq.
    + intros Hret Hnone events r' Hquiet Hexec.
      assert (noneFailed mt1) as Hnone1.
      { intros k' n st. unfold mt1. destruct (decide (k = k')) as [<-|Hk].
        - rewrite AggregationFacts.tracking_set_tracking.
          destruct (decide (n = name)) as [->|Hn].
          + rewrite lookup_insert_eq. by intros [= <-].
          + rewrite lookup_insert_ne by done. apply Hnone.
        - rewrite AggregationFacts.tracking_set_tracking_ne by done.
          apply Hnone. }
      destruct (exec_quiet Rreport Rcheck Rformat events _ r' Hquiet Hexec
                  Hnone1 (or_introl eq_refl)) as [Hnone' Hun'].
      split; [exact Hun'|]. intros Hw. cbn. rewrite Hw.
      pose proof (noneFailed_verdict Rreport Rcheck Rformat _ Hnone')
        as Hverdict.
      destruct (completion Rreport Rcheck Rformat (tracker r'))
        as [[out mt] verdict]. cbn in Hverdict. subst verdict.
      eexists. split; [reflexivity|]. cbn. unfold deliverResult.
      destruct Hun' as [->|[_ ->]]; reflexivity.
  - intros r Hret Hst.
    set (mt2 := set_tracking k (<[name := second]> (tracking k (tracker r)))
                             (tracker r)).
    assert (resourceFailed k spec reason2 (tracker r)
            = Returned (mt2, Some StopTrack)) as Hhandler.
    { unfold resourceFailed.
      rewrite (HandlerFacts.handleResourceFailure_tracked
                 _ _ reason2 _ _ Hst Hallow).
      cbn zeta. rewrite Hmode. reflexivity. }
    assert (tracking k mt2 !! name = Some second) as Hsecond.
    { unfold mt2. rewrite AggregationFacts.tracking_set_tracking.
      apply lookup_insert_eq. }
    exists mt2. split; [exact Hhandler|]. split; [|split; [exact Hsecond|]].
    + cbn. rewrite Hhandler. cbn. by rewrite Hret.
    + intros events r' Haside Hexec.
      destruct (exec_aside Rreport Rcheck Rformat k name second events _ r'
                  Haside Hexec Hsecond eq_refl (or_introl eq_refl))
        as [Hst' Hfail'].
      split; [exact Hfail'|]. intros Hw. cbn. rewrite Hw.
      destruct (failed_verdict Rreport Rcheck Rformat _ _ _ _ Hst' eq_refl)
        as (parts & before & after & Hverdict & Hin & Hpiece).
      destruct (completion Rreport Rcheck Rformat (tracker r'))
        as [[out mt] verdict]. cbn in Hverdict. subst verdict.
      unfold deliverResult. cbn.
      destruct Hfail' as [->|(_ & parts' & before' & after' & -> & ? & ?)];
        eauto 10.
Qed.

Lemma fail_immediately_fails_at_completion_witness :
  let spec := webSpec FailWholeDeployProcessImmediately in
  let r0 := startRun (sampleSpecs FailWholeDeployProcessImmediately) in
  ∃ mt1 mt2,
    resourceFailed Deployment spec "ImagePullBackOff" (tracker r0)
    = Returned (mt1, None)
    ∧ resourceFailed Deployment spec "CrashLoopBackOff" mt1
      = Returned (mt2, Some StopTrack)
    ∧ (∃ r',
         step listing_range reverse_range listing_range AllDone
              {| tracker := mt1; waiting := []; returned := None |}
         = Returned r'
         ∧ returned r' = Some None)
    ∧ (∃ r' parts,
         step listing_range reverse_range listing_range AllDone
              {| tracker := mt2; waiting := []; returned := None |}
         = Returned r'
         ∧ returned r' = Some (Some (Errorf (String.concat nl parts)))
         ∧ "deploy/web failed: CrashLoopBackOff" ∈ parts).
Proof.
  intros spec r0.
  pose (finish := [Finished (Deployment, "web") None;
                   Finished (Pod, "migrate") None;
                   Finished (StatefulSet, "db") None]).
  destruct (fail_immediately_fails_at_completion
              listing_range reverse_range listing_range Deployment spec
              "ImagePullBackOff" "CrashLoopBackOff" eq_refl eq_refl)
    as [Hfirst Hsecond].
  destruct (Hfirst r0 eq_refl) as (mt1 & Hh1 & _ & Hst1 & Halone).
  destruct (Hsecond {| tracker := mt1; waiting := waiting r0;
                       returned := None |} eq_refl Hst1)
    as (mt2 & Hh2 & _ & _ & Hlater).
  exists mt1, mt2. split; [exact Hh1|]. split; [exact Hh2|]. split.
  - destruct (Halone eq_refl) with (events := finish)
                                   (r' := {| tracker := mt1; waiting := [];
                                             returned := None |})
      as [_ Hend].
    + intros k name st Hst. unfold r0, startRun in Hst. cbn [tracker] in Hst.
      rewrite TrackingFacts.tracking_startTracking in Hst.
      unfold registerAll in Hst.
      rewrite TrackingFacts.registerAll_fold, lookup_empty in Hst.
      destruct (bool_decide _); [|discriminate]. by injection Hst as <-.
    + unfold finish. repeat constructor.
    + reflexivity.
    + exact (Hend eq_refl).
  - destruct (Hlater finish {| tracker := mt2; waiting := [];
                               returned := None |}) as [_ Hend].
    + unfold finish. repeat constructor.
    + reflexivity.
    + destruct (Hend eq_refl)
        as (r'' & parts & before & after & Hstep & Hret & Hin & _).
      exists r'', parts. split; [exact Hstep|]. split; [exact Hret|exact Hin].
Defined.

End RunFacts.
